(** * Suno callback server: a shallow embedding of [suno_callback.js]

    The server keeps a JSON file of received callbacks, guards three of its
    four routes with an optional shared token, and renders a dashboard.

    The embedding follows the source function by function.  The JavaScript
    runtime the source calls into is modelled beside it:
    - a string is its sequence of UTF-16 code units ([jsstring]);
    - a number is a binary64 value: zero, a finite value [m * 2^e] of at
      most 53 bits, or an infinity; a numeral is rounded to the nearest
      such value (ties to even, overflow to infinity) and a number is
      printed with the fewest digits that read back as the same number,
      as [Number::toString] has it; [0] and [-0] are one value, as for
      [===] (nothing in the server tells them apart), and [NaN] never
      arises from JSON;
    - [JSON.parse] and [JSON.stringify (_, null, 2)] are a parser and a
      printer over these values; an infinite number is printed as
      [null];
    - the file system is the single file [DB_FILE], holding text or absent;
      writes succeed, and UTF-8 coding is left out (the printer never emits
      an unpaired surrogate);
    - a call either returns or throws ([outcome]). *)

From Stdlib Require Import String Ascii.
From Stdlib Require Import List NArith ZArith Bool Lia.
Import ListNotations.
Local Open Scope list_scope.
Local Open Scope N_scope.

(* ================================================================== *)
(** * Part I: definitions                                              *)
(* ================================================================== *)

(** ** Strings *)

Definition jsstring := list N.

(** A source literal, one code unit per character (ASCII literals only). *)
Definition lit (s : string) : jsstring :=
  map N_of_ascii (list_ascii_of_string s).
Arguments lit s%_string.

(** The double quote, kept out of literals. *)
Definition dq : jsstring := [34].

Fixpoint str_eqb (a b : jsstring) : bool :=
  match a, b with
  | [], [] => true
  | x :: a', y :: b' => (x =? y) && str_eqb a' b'
  | _, _ => false
  end.

(** [\s] of a regular expression and the set [trim] removes: WhiteSpace
    and LineTerminator of ECMAScript. *)
Definition is_space (c : N) : bool :=
  (c =? 9) || (c =? 10) || (c =? 11) || (c =? 12) || (c =? 13) ||
  (c =? 32) || (c =? 160) || (c =? 5760) ||
  ((8192 <=? c) && (c <=? 8202)) ||
  (c =? 8232) || (c =? 8233) || (c =? 8239) || (c =? 8287) ||
  (c =? 12288) || (c =? 65279).

Fixpoint trimStart (s : jsstring) : jsstring :=
  match s with
  | c :: r => if is_space c then trimStart r else s
  | [] => []
  end.

Definition trimEnd (s : jsstring) : jsstring := rev (trimStart (rev s)).

(** [String.prototype.trim] *)
Definition trim (s : jsstring) : jsstring := trimEnd (trimStart s).

(** [String.prototype.slice (k)] for [0 <= k]. *)
Definition slice_from (k : nat) (s : jsstring) : jsstring := skipn k s.

(** A letter of a pattern under the [i] flag: the code units whose
    canonical form is the upper-case letter [up] are [up] and [up + 32]. *)
Definition letter_ci (up c : N) : bool := (c =? up) || (c =? up + 32).

(** [/Bearer\s+/i] tried at the head of [s]: [Bearer] in any case, then
    one white space at least and every one that follows (the quantifier is
    greedy and nothing comes after it).  The result is what follows the
    match. *)
Definition match_bearer (s : jsstring) : option jsstring :=
  match s with
  | b :: e :: a :: r :: e' :: r' :: w :: rest =>
      if letter_ci 66 b && letter_ci 69 e && letter_ci 65 a &&
         letter_ci 82 r && letter_ci 69 e' && letter_ci 82 r' &&
         is_space w
      then Some (trimStart rest)
      else None
  | _ => None
  end.

(** [s.replace(/Bearer\s+/i, '')]: the leftmost match is removed, wherever
    it starts; without a match the string is unchanged. *)
Fixpoint replace_bearer (s : jsstring) : jsstring :=
  match match_bearer s with
  | Some rest => rest
  | None =>
      match s with
      | [] => []
      | c :: r => c :: replace_bearer r
      end
  end.

(** ** Decimals *)

(** The decimals numerals denote and numbers are printed as.  [Dec0] is
    zero; [DecD neg ds n] is [(-1)^neg * 0.d1...dk * 10^n], the digits
    [ds] (values 0..9) being [s] of [Number::toString], [k] their
    count. *)
Inductive decimal :=
| Dec0
| DecD (neg : bool) (ds : list N) (n : Z).

Fixpoint drop_zeros (ds : list N) : list N :=
  match ds with
  | d :: r => if d =? 0 then drop_zeros r else ds
  | [] => []
  end.

Definition strip_zeros (ds : list N) : list N := rev (drop_zeros (rev ds)).

(** The number [0.ds * 10^n] in canonical form: no zero digit at either
    end. *)
Definition normalize (neg : bool) (ds : list N) (n : Z) : decimal :=
  let ds1 := drop_zeros ds in
  match strip_zeros ds1 with
  | [] => Dec0
  | ds2 => DecD neg ds2 (n - Z.of_nat (length ds - length ds1))
  end.

Definition all_digits (ds : list N) : bool := forallb (fun d => d <? 10) ds.

(** Canonical decimals: what [normalize] returns on digits. *)
Definition wf_decimal (x : decimal) : bool :=
  match x with
  | Dec0 => true
  | DecD _ ds _ =>
      all_digits ds &&
      match ds with
      | [] => false
      | d :: _ => negb (d =? 0) && negb (last ds 1 =? 0)
      end
  end.

(** The decimal digits of [n], most significant first ([fuel] bounds the
    number of divisions). *)
Fixpoint digits_fuel (fuel : nat) (n : N) (acc : list N) : list N :=
  match fuel with
  | O => n :: acc
  | S f => if n <? 10 then n :: acc
           else digits_fuel f (n / 10) (n mod 10 :: acc)
  end.

Definition N_digits (n : N) : list N :=
  digits_fuel (N.to_nat (N.size n)) n [].

Definition digits_value (ds : list N) : N :=
  fold_left (fun acc d => acc * 10 + d) ds 0.

Definition decimal_of_Z (z : Z) : decimal :=
  let ds := N_digits (Z.abs_N z) in
  normalize (z <? 0)%Z ds (Z.of_nat (length ds)).

Definition digit_char (d : N) : N := 48 + d.

Definition digit_chars (ds : list N) : jsstring := map digit_char ds.

Definition zeros (k : nat) : list N := repeat 0 k.

(** The text [Number::toString] makes of the digits [s], their count [k]
    and the exponent [n] it has chosen (radix 10). *)
Definition decimal_toString (x : decimal) : jsstring :=
  match x with
  | Dec0 => lit "0"
  | DecD neg ds n =>
      let k := Z.of_nat (length ds) in
      (if neg then lit "-" else []) ++
      (if ((-5 <=? n) && (n <=? 21))%Z then
         if (k <=? n)%Z then
           digit_chars ds ++ digit_chars (zeros (Z.to_nat (n - k)))
         else if (0 <? n)%Z then
           digit_chars (firstn (Z.to_nat n) ds) ++ lit "." ++
           digit_chars (skipn (Z.to_nat n) ds)
         else
           lit "0." ++ digit_chars (zeros (Z.to_nat (- n))) ++ digit_chars ds
       else
         let e := (n - 1)%Z in
         digit_chars (firstn 1 ds) ++
         (match skipn 1 ds with
          | [] => []
          | more => lit "." ++ digit_chars more
          end) ++
         lit "e" ++ (if (e <? 0)%Z then lit "-" else lit "+") ++
         digit_chars (N_digits (Z.abs_N e)))
  end.

(** ** Numbers (binary64) *)

Local Open Scope Z_scope.

(** [Num0] is zero, [NumF neg m e] is [(-1)^neg * m * 2^e], [NumInf] an
    infinity. *)
Inductive number :=
| Num0
| NumF (neg : bool) (m : Z) (e : Z)
| NumInf (neg : bool).

(** The values of the type Number that are not zero: 53 bits in the
    normal range (exponents -1074 to 971), fewer at the exponent -1074. *)
Definition wf_number (x : number) : bool :=
  match x with
  | NumF _ m e =>
      (0 <? m) && (m <? 2 ^ 53) && (-1074 <=? e) && (e <=? 971) &&
      ((2 ^ 52 <=? m) || (e =? -1074))
  | _ => true
  end.

Definition finite (x : number) : bool :=
  match x with
  | NumInf _ => false
  | _ => true
  end.

Definition number_eqb (x y : number) : bool :=
  match x, y with
  | Num0, Num0 => true
  | NumF n m e, NumF n' m' e' => Bool.eqb n n' && (m =? m') && (e =? e')
  | NumInf n, NumInf n' => Bool.eqb n n'
  | _, _ => false
  end.

(** [2^b <= p / q], for positive [p] and [q]. *)
Definition pow2_le (b p q : Z) : bool :=
  q * 2 ^ Z.max b 0 <=? p * 2 ^ Z.max (- b) 0.

(** The binade of [p / q]: the [b] with [2^b <= p / q < 2^(b+1)]. *)
Definition binade (p q : Z) : Z :=
  let b := Z.log2 p - Z.log2 q in
  if pow2_le b p q then b else b - 1.

(** [num / den] to the nearest integer, ties to even. *)
Definition round_half_even (num den : Z) : Z :=
  let fl := num / den in
  let r := num mod den in
  if 2 * r <? den then fl
  else if den <? 2 * r then fl + 1
  else if Z.even fl then fl else fl + 1.

(** The Number value for [p / q] (positive [p] and [q]), sign apart: 53
    bits in the binade of the value, or what the exponent -1074 leaves
    of them; round to nearest, ties to even; infinity beyond the largest
    finite value. *)
Definition round_ratio (neg : bool) (p q : Z) : number :=
  let e := Z.max (binade p q - 52) (-1074) in
  let m := round_half_even (p * 2 ^ Z.max (- e) 0) (q * 2 ^ Z.max e 0) in
  let e' := if m =? 2 ^ 53 then e + 1 else e in
  let m' := if m =? 2 ^ 53 then 2 ^ 52 else m in
  if 971 <? e' then NumInf neg
  else if m' =? 0 then Num0
  else NumF neg m' e'.

(** The Number value for a decimal. *)
Definition to_number (d : decimal) : number :=
  match d with
  | Dec0 => Num0
  | DecD neg ds n =>
      let q := n - Z.of_nat (length ds) in
      round_ratio neg (Z.of_N (digits_value ds) * 10 ^ Z.max q 0)
                      (10 ^ Z.max (- q) 0)
  end.

(** An integer as a Number. *)
Definition number_of_Z (z : Z) : number := to_number (decimal_of_Z z).

(** The decimal expansion of [m * 2^e], which is finite: [m * 2^e] or
    [m * 5^(-e) / 10^(-e)]. *)
Definition exact_decimal (neg : bool) (m e : Z) : decimal :=
  let s := if 0 <=? e then m * 2 ^ e else m * 5 ^ (- e) in
  let ds := N_digits (Z.to_N s) in
  normalize neg ds (Z.of_nat (length ds) + Z.min e 0).

(** The search of [Number::toString] for the least number of digits [k]
    with which a decimal still stands for [x]: at each [k] the two
    neighbours of [x] among the decimals of [k] digits are tried, the
    closer one first (the even one on a tie).  With all the digits [D] of
    its expansion the decimal is [x] itself. *)
Fixpoint shortest_from (x : number) (neg : bool) (D : list N) (n : Z)
  (k fuel : nat) : decimal :=
  match fuel with
  | O => DecD neg D n
  | S f =>
      let T := firstn k D in
      let R := skipn k D in
      let lo := normalize neg T n in
      let hiD := N_digits (digits_value T + 1) in
      let hi := normalize neg hiD (n + Z.of_nat (length hiD) - Z.of_nat k) in
      let ok_lo := number_eqb (to_number lo) x in
      let ok_hi := number_eqb (to_number hi) x in
      let lo_closer :=
        match (2 * digits_value R ?= 10 ^ N.of_nat (length R))%N with
        | Lt => true
        | Gt => false
        | Eq => N.even (digits_value T)
        end in
      if ok_lo && (negb ok_hi || lo_closer) then lo
      else if ok_hi then hi
      else shortest_from x neg D n (S k) f
  end.

(** The digits and the exponent [Number::toString] prints a finite
    number with. *)
Definition shortest (x : number) : decimal :=
  match x with
  | NumF neg m e =>
      match exact_decimal neg m e with
      | DecD _ D n => shortest_from x neg D n 1 (length D - 1)
      | Dec0 => Dec0
      end
  | _ => Dec0
  end.

(** [Number::toString (x)], radix 10. *)
Definition Number_toString (x : number) : jsstring :=
  match x with
  | NumInf neg => (if neg then lit "-" else []) ++ lit "Infinity"
  | _ => decimal_toString (shortest x)
  end.

Local Close Scope Z_scope.

Arguments round_ratio : simpl never.
Arguments to_number : simpl never.
Arguments number_of_Z : simpl never.
Arguments shortest : simpl never.
Arguments Number_toString : simpl never.

(** ** Values *)

(** The values [JSON.parse] builds.  An object is the list of its own
    properties in property order. *)
#[local] Unset Elimination Schemes.
Inductive json :=
| JNull
| JBool (b : bool)
| JNum (x : number)
| JStr (s : jsstring)
| JArr (l : list json)
| JObj (l : list (jsstring * json)).
#[local] Set Elimination Schemes.

(** A value of the language: [None] is [undefined]. *)
Definition jsval := option json.

Definition num (z : Z) : json := JNum (number_of_Z z).

(** [ToBoolean] *)
Definition truthy (v : jsval) : bool :=
  match v with
  | None => false
  | Some JNull => false
  | Some (JBool b) => b
  | Some (JNum Num0) => false
  | Some (JNum _) => true
  | Some (JStr s) => match s with [] => false | _ => true end
  | Some (JArr _) => true
  | Some (JObj _) => true
  end.

(** [a || b] *)
Definition or_else (a b : jsval) : jsval := if truthy a then a else b.

(** ** Outcomes: a call returns or throws *)

Inductive js_error := TypeError | SyntaxError | FsError.

Inductive outcome (A : Type) :=
| Ret (a : A)
| Throw (e : js_error).
Arguments Ret {A} a.
Arguments Throw {A} e.

Definition bind {A B : Type} (m : outcome A) (k : A -> outcome B) : outcome B :=
  match m with
  | Ret a => k a
  | Throw e => Throw e
  end.

Notation "x <- m ;; k" := (bind m (fun x => k))
  (at level 61, m at next level, right associativity).

(** [try { body } catch (e) { handler }] *)
Definition try_catch {A : Type} (body : outcome A) (handler : js_error -> outcome A)
  : outcome A :=
  match body with
  | Ret a => Ret a
  | Throw e => handler e
  end.

(** ** Objects *)

Definition props := list (jsstring * json).

(** [o[k]] on the own properties of an object. *)
Fixpoint lookup (k : jsstring) (l : props) : jsval :=
  match l with
  | [] => None
  | (k', v) :: r => if str_eqb k k' then Some v else lookup k r
  end.

Definition has_key (k : jsstring) (l : props) : bool :=
  existsb (fun kv => str_eqb k (fst kv)) l.

Definition is_digit_char (c : N) : bool := (48 <=? c) && (c <=? 57).

(** An array index: the canonical decimal string of an integer below
    [2^32 - 1].  Such keys come first in property order, by value. *)
Definition array_index (k : jsstring) : option N :=
  match k with
  | [] => None
  | c :: r =>
      if forallb is_digit_char k &&
         (negb (c =? 48) || match r with [] => true | _ => false end) &&
         (digits_value (map (fun c => c - 48) k) <=? 4294967294)
      then Some (digits_value (map (fun c => c - 48) k))
      else None
  end.

Fixpoint replace_value (k : jsstring) (v : json) (l : props) : props :=
  match l with
  | [] => []
  | (k', v') :: r =>
      if str_eqb k k' then (k', v) :: r else (k', v') :: replace_value k v r
  end.

Fixpoint insert_index (i : N) (k : jsstring) (v : json) (l : props) : props :=
  match l with
  | [] => [(k, v)]
  | (k', v') :: r =>
      match array_index k' with
      | Some j => if i <? j then (k, v) :: l
                  else (k', v') :: insert_index i k v r
      | None => (k, v) :: l
      end
  end.

(** [o[k] = v] on an ordinary object: an existing property keeps its
    place; a new one goes among the array indices by value, or last. *)
Definition set_prop (l : props) (k : jsstring) (v : json) : props :=
  if has_key k l then replace_value k v l
  else match array_index k with
       | Some i => insert_index i k v l
       | None => l ++ [(k, v)]
       end.

(** Property order of a key list: array indices ascending, then the
    other keys. *)
Fixpoint keys_ordered (ks : list jsstring) : bool :=
  match ks with
  | [] => true
  | k :: r =>
      keys_ordered r &&
      match array_index k with
      | Some i =>
          forallb (fun k' => match array_index k' with
                             | Some j => i <=? j
                             | None => true
                             end) r
      | None =>
          forallb (fun k' => match array_index k' with
                             | Some _ => false
                             | None => true
                             end) r
      end
  end.

Fixpoint keys_distinct (ks : list jsstring) : bool :=
  match ks with
  | [] => true
  | k :: r => negb (existsb (str_eqb k) r) && keys_distinct r
  end.

(** The values that exist at run time: numbers of the type Number, and
    objects with distinct keys in property order. *)
Fixpoint wf_json (v : json) : bool :=
  match v with
  | JNull | JBool _ | JStr _ => true
  | JNum x => wf_number x
  | JArr l => forallb wf_json l
  | JObj l =>
      keys_distinct (map fst l) && keys_ordered (map fst l) &&
      forallb (fun kv => wf_json (snd kv)) l
  end.

(** ** JSON.stringify *)

Definition nl : jsstring := [10].

Fixpoint join (sep : jsstring) (parts : list jsstring) : jsstring :=
  match parts with
  | [] => []
  | p :: r =>
      match r with
      | [] => p
      | _ => p ++ sep ++ join sep r
      end
  end.

Definition hex_digit (d : N) : N := if d <? 10 then 48 + d else 87 + d.

(** [UnicodeEscape]: backslash, [u], four lower-case hexadecimal digits. *)
Definition unicode_escape (c : N) : jsstring :=
  [92; 117; hex_digit (c / 4096 mod 16); hex_digit (c / 256 mod 16);
   hex_digit (c / 16 mod 16); hex_digit (c mod 16)].

Definition is_high_surrogate (c : N) : bool := (55296 <=? c) && (c <=? 56319).
Definition is_low_surrogate (c : N) : bool := (56320 <=? c) && (c <=? 57343).

(** One code unit that is not half of a pair. *)
Definition quote_unit (c : N) : jsstring :=
  if c =? 8 then lit "\b"
  else if c =? 9 then lit "\t"
  else if c =? 10 then lit "\n"
  else if c =? 12 then lit "\f"
  else if c =? 13 then lit "\r"
  else if c =? 34 then [92; 34]
  else if c =? 92 then [92; 92]
  else if (c <? 32) || is_high_surrogate c || is_low_surrogate c
       then unicode_escape c
  else [c].

(** The body of [QuoteJSONString]: code point by code point, a surrogate
    pair going through unchanged. *)
Fixpoint quote_units (s : jsstring) : jsstring :=
  match s with
  | [] => []
  | c :: r =>
      match r with
      | c' :: r' =>
          if is_high_surrogate c && is_low_surrogate c'
          then c :: c' :: quote_units r'
          else quote_unit c ++ quote_units r
      | [] => quote_unit c
      end
  end.

Definition quote (s : jsstring) : jsstring := dq ++ quote_units s ++ dq.

Definition gap : jsstring := lit "  ".

(** [SerializeJSONProperty] with the gap of two spaces; [ind] is the
    current indentation.  A number that is not finite is written as
    [null]. *)
Fixpoint stringify_at (ind : jsstring) (v : json) {struct v} : jsstring :=
  match v with
  | JNull => lit "null"
  | JBool true => lit "true"
  | JBool false => lit "false"
  | JNum x => if finite x then Number_toString x else lit "null"
  | JStr s => quote s
  | JArr l =>
      match l with
      | [] => lit "[]"
      | _ =>
          let ind' := ind ++ gap in
          lit "[" ++ nl ++ ind' ++
          join (lit "," ++ nl ++ ind') (map (stringify_at ind') l) ++
          nl ++ ind ++ lit "]"
      end
  | JObj l =>
      match l with
      | [] => lit "{}"
      | _ =>
          let ind' := ind ++ gap in
          lit "{" ++ nl ++ ind' ++
          join (lit "," ++ nl ++ ind')
               (map (fun kv => quote (fst kv) ++ lit ": " ++
                               stringify_at ind' (snd kv)) l) ++
          nl ++ ind ++ lit "}"
      end
  end.

(** [JSON.stringify (v, null, 2)] *)
Definition JSON_stringify (v : json) : jsstring := stringify_at [] v.

(** ** JSON.parse *)

(** Result of a parser: a value and the rest of the input, a syntax
    error, or recursion cut short by [fuel] (which [JSON_parse] never
    meets, see [JSON_parse_fuel]). *)
Inductive parsed (A : Type) :=
| POk (a : A) (rest : jsstring)
| PFail
| PFuel.
Arguments POk {A} a rest.
Arguments PFail {A}.
Arguments PFuel {A}.

Definition is_json_ws (c : N) : bool :=
  (c =? 32) || (c =? 9) || (c =? 10) || (c =? 13).

Fixpoint skip_ws (s : jsstring) : jsstring :=
  match s with
  | c :: r => if is_json_ws c then skip_ws r else s
  | [] => []
  end.

Definition hex_value (c : N) : option N :=
  if (48 <=? c) && (c <=? 57) then Some (c - 48)
  else if (97 <=? c) && (c <=? 102) then Some (c - 87)
  else if (65 <=? c) && (c <=? 70) then Some (c - 55)
  else None.

Definition hex4 (a b c d : N) : option N :=
  match hex_value a, hex_value b, hex_value c, hex_value d with
  | Some x, Some y, Some z, Some w => Some (((x * 16 + y) * 16 + z) * 16 + w)
  | _, _, _, _ => None
  end.

(** The character a one-letter escape stands for. *)
Definition unescape (e : N) : option N :=
  if e =? 34 then Some 34
  else if e =? 92 then Some 92
  else if e =? 47 then Some 47
  else if e =? 98 then Some 8
  else if e =? 102 then Some 12
  else if e =? 110 then Some 10
  else if e =? 114 then Some 13
  else if e =? 116 then Some 9
  else None.

(** The characters of a string literal after its opening quote, up to
    and including the closing one. *)
Fixpoint parse_chars (s : jsstring) : option (jsstring * jsstring) :=
  match s with
  | [] => None
  | c :: r =>
      if c =? 34 then Some ([], r)
      else if c =? 92 then
        match r with
        | [] => None
        | e :: r1 =>
            if e =? 117 then
              match r1 with
              | a :: b :: c' :: d :: r2 =>
                  match hex4 a b c' d with
                  | Some u =>
                      match parse_chars r2 with
                      | Some (t, rest) => Some (u :: t, rest)
                      | None => None
                      end
                  | None => None
                  end
              | _ => None
              end
            else
              match unescape e with
              | Some u =>
                  match parse_chars r1 with
                  | Some (t, rest) => Some (u :: t, rest)
                  | None => None
                  end
              | None => None
              end
        end
      else if c <? 32 then None
      else
        match parse_chars r with
        | Some (t, rest) => Some (c :: t, rest)
        | None => None
        end
  end.

(** The longest run of decimal digits at the head, as digit values. *)
Fixpoint span_digits (s : jsstring) : list N * jsstring :=
  match s with
  | c :: r =>
      if is_digit_char c
      then let (ds, rest) := span_digits r in (c - 48 :: ds, rest)
      else ([], s)
  | [] => ([], [])
  end.

(** Integer part: a single [0], or digits that start with [1..9]. *)
Definition parse_int_part (s : jsstring) : option (list N * jsstring) :=
  match s with
  | c :: r =>
      if c =? 48 then Some ([0], r)
      else if is_digit_char c then Some (span_digits s)
      else None
  | [] => None
  end.

(** Fraction: nothing, or a point and one digit at least. *)
Definition parse_frac_part (s : jsstring) : option (list N * jsstring) :=
  match s with
  | c :: r =>
      if c =? 46 then
        match span_digits r with
        | ([], _) => None
        | (ds, rest) => Some (ds, rest)
        end
      else Some ([], s)
  | [] => Some ([], [])
  end.

(** Exponent: nothing, or [e] or [E], an optional sign and one digit at
    least. *)
Definition parse_exp_part (s : jsstring) : option (Z * jsstring) :=
  match s with
  | c :: r =>
      if (c =? 101) || (c =? 69) then
        let (neg, r1) :=
          match r with
          | sg :: r' => if sg =? 45 then (true, r')
                        else if sg =? 43 then (false, r')
                        else (false, r)
          | [] => (false, r)
          end in
        match span_digits r1 with
        | ([], _) => None
        | (ds, rest) =>
            let e := Z.of_N (digits_value ds) in
            Some (if neg then (- e)%Z else e, rest)
        end
      else Some (0%Z, s)
  | [] => Some (0%Z, [])
  end.

(** The decimal of a JSON numeral at the head of [s]. *)
Definition parse_decimal (s : jsstring) : option (decimal * jsstring) :=
  let (neg, s1) :=
    match s with
    | c :: r => if c =? 45 then (true, r) else (false, s)
    | [] => (false, s)
    end in
  match parse_int_part s1 with
  | None => None
  | Some (ip, s2) =>
      match parse_frac_part s2 with
      | None => None
      | Some (fp, s3) =>
          match parse_exp_part s3 with
          | None => None
          | Some (e, s4) =>
              Some (normalize neg (ip ++ fp) (Z.of_nat (length ip) + e), s4)
          end
      end
  end.

(** A JSON number at the head of [s]: the Number value for its
    numeral. *)
Definition parse_number (s : jsstring) : option (number * jsstring) :=
  match parse_decimal s with
  | Some (d, rest) => Some (to_number d, rest)
  | None => None
  end.

(** [s] starts with the literal [w]: what follows it. *)
Fixpoint strip_prefix (w s : jsstring) : option jsstring :=
  match w with
  | [] => Some s
  | x :: w' =>
      match s with
      | y :: s' => if x =? y then strip_prefix w' s' else None
      | [] => None
      end
  end.

Definition parse_word (w : jsstring) (v : json) (s : jsstring) : parsed json :=
  match strip_prefix w s with
  | Some rest => POk v rest
  | None => PFail
  end.

(** Recursive descent.  [parse_value] reads a value at the head of [s];
    [parse_elements] the elements of an array from the first one on,
    [parse_members] the members of an object, both up to the closing
    bracket; [acc] holds what was read so far.  A repeated key assigns to
    the property again ([set_prop]). *)
Fixpoint parse_value (fuel : nat) (s : jsstring) {struct fuel} : parsed json :=
  match fuel with
  | O => PFuel
  | S f =>
      match s with
      | [] => PFail
      | c :: r =>
          if c =? 123 then
            match skip_ws r with
            | [] => PFail
            | c1 :: r1 =>
                if c1 =? 125 then POk (JObj []) r1
                else parse_members f [] (c1 :: r1)
            end
          else if c =? 91 then
            match skip_ws r with
            | [] => PFail
            | c1 :: r1 =>
                if c1 =? 93 then POk (JArr []) r1
                else parse_elements f [] (c1 :: r1)
            end
          else if c =? 34 then
            match parse_chars r with
            | Some (t, rest) => POk (JStr t) rest
            | None => PFail
            end
          else if c =? 116 then parse_word (lit "true") (JBool true) s
          else if c =? 102 then parse_word (lit "false") (JBool false) s
          else if c =? 110 then parse_word (lit "null") JNull s
          else
            match parse_number s with
            | Some (x, rest) => POk (JNum x) rest
            | None => PFail
            end
      end
  end
with parse_elements (fuel : nat) (acc : list json) (s : jsstring) {struct fuel}
  : parsed json :=
  match fuel with
  | O => PFuel
  | S f =>
      match parse_value f s with
      | POk v rest =>
          match skip_ws rest with
          | [] => PFail
          | c :: r =>
              if c =? 44 then parse_elements f (v :: acc) (skip_ws r)
              else if c =? 93 then POk (JArr (rev (v :: acc))) r
              else PFail
          end
      | PFail => PFail
      | PFuel => PFuel
      end
  end
with parse_members (fuel : nat) (acc : props) (s : jsstring) {struct fuel}
  : parsed json :=
  match fuel with
  | O => PFuel
  | S f =>
      match s with
      | [] => PFail
      | c :: r =>
          if c =? 34 then
            match parse_chars r with
            | None => PFail
            | Some (k, rest) =>
                match skip_ws rest with
                | [] => PFail
                | c1 :: r1 =>
                    if c1 =? 58 then
                      match parse_value f (skip_ws r1) with
                      | POk v rest2 =>
                          match skip_ws rest2 with
                          | [] => PFail
                          | c2 :: r2 =>
                              if c2 =? 44
                              then parse_members f (set_prop acc k v) (skip_ws r2)
                              else if c2 =? 125
                              then POk (JObj (set_prop acc k v)) r2
                              else PFail
                          end
                      | PFail => PFail
                      | PFuel => PFuel
                      end
                    else PFail
                end
            end
          else PFail
      end
  end.

(** [JSON.parse (s)]: one value between white space, or a [SyntaxError]. *)
Definition JSON_parse (s : jsstring) : outcome json :=
  match parse_value (2 * length s + 2) (skip_ws s) with
  | POk v rest =>
      match skip_ws rest with
      | [] => Ret v
      | _ => Throw SyntaxError
      end
  | PFail => Throw SyntaxError
  | PFuel => Throw SyntaxError
  end.

(** ** Property access and conversions *)

(** [v.k], for a name [k] that is neither an index, [length], nor a
    property of a built-in prototype (every name the server reads is of
    that kind): a [TypeError] on [null] and [undefined], the own property
    of an object, [undefined] on anything else. *)
Definition get (v : jsval) (k : jsstring) : outcome jsval :=
  match v with
  | None => Throw TypeError
  | Some JNull => Throw TypeError
  | Some (JObj l) => Ret (lookup k l)
  | Some _ => Ret None
  end.

(** [v?.k], same names. *)
Definition oget (v : jsval) (k : jsstring) : jsval :=
  match v with
  | Some (JObj l) => lookup k l
  | _ => None
  end.

Notation "a ||| b" := (or_else a b) (at level 50, left associativity).

(** The receiver of an array method ([unshift], [slice] then [map],
    [find]): anything but an array has no such method, and calling it
    throws. *)
Definition as_array (v : jsval) : outcome (list json) :=
  match v with
  | Some (JArr l) => Ret l
  | _ => Throw TypeError
  end.

(** [o.k = v].  The handler assigns only after it has read an array from
    [o.k], so [o] is an object there; other values are kept as they are. *)
Definition set (o : json) (k : jsstring) (v : json) : json :=
  match o with
  | JObj l => JObj (set_prop l k v)
  | _ => o
  end.

(** [l.map (f)] for a callback that may throw. *)
Section MapOutcome.
Context {A B : Type} (f : A -> outcome B).

Fixpoint map_outcome (l : list A) : outcome (list B) :=
  match l with
  | [] => Ret []
  | x :: r =>
      y <- f x ;;
      ys <- map_outcome r ;;
      Ret (y :: ys)
  end.

End MapOutcome.

(** [ToString], as a template literal applies it.  An object is printed
    by [Object.prototype.toString], unless it has a property [toString]
    of its own: no value from JSON can be called, [valueOf] gives no
    primitive either, and the conversion throws a [TypeError].  An array
    is joined by [Array.prototype.join], an element that is [null]
    counting as empty. *)
Fixpoint to_string (v : json) : outcome jsstring :=
  match v with
  | JNull => Ret (lit "null")
  | JBool true => Ret (lit "true")
  | JBool false => Ret (lit "false")
  | JNum x => Ret (Number_toString x)
  | JStr s => Ret s
  | JArr l =>
      parts <- map_outcome (fun e => match e with
                                     | JNull => Ret []
                                     | _ => to_string e
                                     end) l ;;
      Ret (join (lit ",") parts)
  | JObj l =>
      if has_key (lit "toString") l then Throw TypeError
      else Ret (lit "[object Object]")
  end.

Definition ToString (v : jsval) : outcome jsstring :=
  match v with
  | None => Ret (lit "undefined")
  | Some j => to_string j
  end.

(** [a === s] for a string [s]. *)
Definition strict_eq_string (a : jsval) (s : jsstring) : bool :=
  match a with
  | Some (JStr t) => str_eqb t s
  | _ => false
  end.

(** ** The store (source lines 35-56) *)

(** [DB_FILE] on disk. *)
Inductive file :=
| NoFile
| Contents (raw : jsstring).

Definition existsSync (f : file) : bool :=
  match f with
  | NoFile => false
  | Contents _ => true
  end.

Definition readFileSync (f : file) : outcome jsstring :=
  match f with
  | NoFile => Throw FsError
  | Contents raw => Ret raw
  end.

Definition writeFileSync (data : jsstring) : file := Contents data.

Definition empty_doc : json := JObj [(lit "callbacks", JArr [])].

Definition initDb (f : file) : file :=
  if negb (existsSync f) then writeFileSync (JSON_stringify empty_doc) else f.

Definition readDb (f : file) : outcome json :=
  try_catch
    (raw <- readFileSync f ;;
     JSON_parse raw)
    (fun _ => Ret empty_doc).

Definition writeDb (data : json) : file :=
  writeFileSync (JSON_stringify data).

(** ** Requests and responses *)

(** A value of [req.query]: a string, or an array or object of them. *)
#[local] Unset Elimination Schemes.
Inductive query_value :=
| QString (s : jsstring)
| QArray (l : list query_value)
| QObject (l : list (jsstring * query_value)).
#[local] Set Elimination Schemes.

Record request := {
  query_token : option query_value;      (* req.query?.token *)
  headers : list (jsstring * jsstring);  (* req.headers, names in lower case *)
  body : jsval;                          (* req.body *)
  remoteAddress : option jsstring;       (* req.socket.remoteAddress *)
  params_id : jsstring                   (* req.params.id *)
}.

(** [req.headers[name]] *)
Fixpoint assoc (name : jsstring) (l : list (jsstring * jsstring)) : option jsstring :=
  match l with
  | [] => None
  | (n, v) :: r => if str_eqb name n then Some v else assoc name r
  end.

Definition header (req : request) (name : jsstring) : jsval :=
  option_map JStr (assoc name (headers req)).

Inductive content :=
| Json (v : json)        (* res.json (v) *)
| Html (text : jsstring) (* res.send (text) *).

Record response := {
  status : N;
  sent : content
}.

Definition code_msg (code : Z) (msg : jsstring) : props :=
  [(lit "code", num code); (lit "msg", JStr msg)].

(** ** Auth guard (source lines 64-71) *)

Inductive guard :=
| Next
| Rejected (r : response).

Definition query_truthy (q : option query_value) : bool :=
  match q with
  | None => false
  | Some (QString s) => match s with [] => false | _ => true end
  | Some _ => true
  end.

Definition query_is (q : option query_value) (s : jsstring) : bool :=
  match q with
  | Some (QString t) => str_eqb t s
  | _ => false
  end.

Definition nonempty (s : jsstring) : bool :=
  match s with
  | [] => false
  | _ => true
  end.

Definition authorization (req : request) : jsstring :=
  match header req (lit "authorization") ||| Some (JStr []) with
  | Some (JStr s) => s
  | _ => []
  end.

Definition checkAuth (AUTH_TOKEN : jsstring) (req : request) : guard :=
  if negb (nonempty AUTH_TOKEN) then Next
  else
    let q := query_token req in
    let h := trim (replace_bearer (authorization req)) in
    if query_truthy q && query_is q AUTH_TOKEN then Next
    else if nonempty h && str_eqb h AUTH_TOKEN then Next
    else Rejected {| status := 401;
                     sent := Json (JObj (code_msg 401
                       (lit "Unauthorized: invalid or missing token"))) |}.

(** ** Probing a payload (source lines 99-118 and 143-161) *)

Definition probe_status (payload : jsval) : jsval :=
  oget (oget payload (lit "data")) (lit "status") |||
  oget (oget (oget payload (lit "data")) (lit "response")) (lit "status") |||
  oget payload (lit "msg").

Definition probe_taskId (payload : jsval) : jsval :=
  oget (oget payload (lit "data")) (lit "taskId") |||
  oget payload (lit "taskId") |||
  oget (oget payload (lit "data")) (lit "videoTaskId").

Definition probe_downloadUrl (payload : jsval) : jsval :=
  oget (oget payload (lit "data")) (lit "downloadUrl") |||
  oget (oget payload (lit "data")) (lit "mp4Url") |||
  oget (oget payload (lit "data")) (lit "url") |||
  oget (oget payload (lit "data")) (lit "fileUrl") |||
  oget (oget payload (lit "data")) (lit "videoUrl") |||
  oget (oget (oget payload (lit "data")) (lit "response")) (lit "downloadUrl").

(** ** Receiving a callback (source lines 74-122) *)

(** What the handler reads from the clock and the random generator.
    [Date_now] is a time value, an integer of at most 8.64e15 in
    magnitude.  [random_digits] are the base-16 digits of
    [Math.random ()] after the point, none when it returned 0. *)
Record environment := {
  Date_now : Z;                  (* Date.now () *)
  Date_now_range : (Z.abs Date_now <=? 8640000000000000)%Z = true;
  Date_toISOString : jsstring;   (* new Date ().toISOString () *)
  random_digits : list N
}.

(** [Math.random ().toString (16)] *)
Definition random_toString16 (env : environment) : jsstring :=
  match random_digits env with
  | [] => lit "0"
  | ds => lit "0." ++ map hex_digit ds
  end.

(** [a || d] where [d] is not [undefined]. *)
Definition or_default (a : jsval) (d : json) : json :=
  match a ||| Some d with
  | Some v => v
  | None => d
  end.

Definition build_record (env : environment) (req : request) : json :=
  let payload := or_default (body req) (JObj []) in
  let now := Date_toISOString env in
  JObj [ (lit "id", JStr (Number_toString (number_of_Z (Date_now env)) ++
                           lit "_" ++ slice_from 2 (random_toString16 env)));
         (lit "receivedAt", JStr now);
         (lit "ip", or_default (header req (lit "x-forwarded-for") |||
                                option_map JStr (remoteAddress req)) JNull);
         (lit "userAgent", or_default (header req (lit "user-agent")) JNull);
         (lit "payload", payload) ].

(** The line of source lines 99-120; the template literal converts its
    three values in turn, and a conversion may throw. *)
Definition log_line (now : jsstring) (payload : jsval) : outcome jsstring :=
  let status := probe_status payload ||| Some (JStr (lit "unknown")) in
  let videoTaskId := probe_taskId payload ||| Some JNull in
  let downloadUrl := probe_downloadUrl payload ||| Some JNull in
  status_text <- ToString status ;;
  taskId_text <- ToString videoTaskId ;;
  url_text <- ToString (downloadUrl ||| Some (JStr (lit "-"))) ;;
  Ret (lit "[" ++ now ++ lit "] Callback received: status=" ++ status_text ++
       lit " taskId=" ++ taskId_text ++ lit " url=" ++ url_text ++ lit " ").

(** What a route leaves behind: the file, the response, the console. *)
Record result := {
  file_after : file;
  reply : response;
  console : list jsstring
}.

(** The handler of POST /suno/callback.  A throw leaves the file as it
    was (Express answers 500); a throw while the line for the console is
    made is caught, and nothing is logged. *)
Definition post_callback (env : environment) (f : file) (req : request)
  : outcome result :=
  let record := build_record env req in
  db <- readDb f ;;
  callbacks <- get (Some db) (lit "callbacks") ;;
  l <- as_array callbacks ;;
  let l := record :: l in                                   (* unshift *)
  let db := set db (lit "callbacks") (JArr (firstn 500 l)) in
  let f' := writeDb db in
  let r := {| status := 200; sent := Json (JObj (code_msg 200 (lit "ok"))) |} in
  let out := try_catch
               (line <- log_line (Date_toISOString env)
                                 (Some (or_default (body req) (JObj []))) ;;
                Ret [line])
               (fun _ => Ret []) in
  match out with
  | Ret lines => Ret {| file_after := f'; reply := r; console := lines |}
  | Throw e => Throw e
  end.

(** What the handler of POST /suno/callback writes to the console: the
    line, or nothing when making it threw. *)
Definition logged (env : environment) (req : request) : list jsstring :=
  match log_line (Date_toISOString env)
                 (Some (or_default (body req) (JObj []))) with
  | Ret line => [line]
  | Throw _ => []
  end.

Definition guarded (AUTH_TOKEN : jsstring) (f : file) (req : request)
  (handler : outcome result) : outcome result :=
  match checkAuth AUTH_TOKEN req with
  | Next => handler
  | Rejected r => Ret {| file_after := f; reply := r; console := [] |}
  end.

(** POST /suno/callback *)
Definition route_post (AUTH_TOKEN : jsstring) (env : environment) (f : file)
  (req : request) : outcome result :=
  guarded AUTH_TOKEN f req (post_callback env f req).

(** ** Queries (source lines 125-136) *)

Definition answer (f : file) (r : response) : outcome result :=
  Ret {| file_after := f; reply := r; console := [] |}.

(** A property whose value is [undefined] is left out by [res.json]. *)
Definition data_prop (v : jsval) : props :=
  match v with
  | Some d => [(lit "data", d)]
  | None => []
  end.

Definition list_callbacks (f : file) : outcome result :=
  db <- readDb f ;;
  callbacks <- get (Some db) (lit "callbacks") ;;
  answer f {| status := 200;
              sent := Json (JObj (code_msg 200 (lit "ok") ++ data_prop callbacks)) |}.

(** GET /callbacks *)
Definition route_list (AUTH_TOKEN : jsstring) (f : file) (req : request)
  : outcome result :=
  guarded AUTH_TOKEN f req (list_callbacks f).

(** [l.find ((c) => c.id === id)] *)
Fixpoint find_id (id : jsstring) (l : list json) : outcome jsval :=
  match l with
  | [] => Ret None
  | c :: r =>
      cid <- get (Some c) (lit "id") ;;
      if strict_eq_string cid id then Ret (Some c) else find_id id r
  end.

Definition get_callback (f : file) (req : request) : outcome result :=
  db <- readDb f ;;
  callbacks <- get (Some db) (lit "callbacks") ;;
  l <- as_array callbacks ;;
  found <- find_id (params_id req) l ;;
  if negb (truthy found)
  then answer f {| status := 404;
                   sent := Json (JObj (code_msg 404 (lit "not found"))) |}
  else answer f {| status := 200;
                   sent := Json (JObj (code_msg 200 (lit "ok") ++ data_prop found)) |}.

(** GET /callbacks/:id *)
Definition route_get (AUTH_TOKEN : jsstring) (f : file) (req : request)
  : outcome result :=
  guarded AUTH_TOKEN f req (get_callback f req).

(** ** Dashboard (source lines 139-217) *)

Definition unlines (ls : list jsstring) : jsstring := join nl ls.

(** The placeholder of the source, three code units. *)
Definition dash : jsstring := [8218; 196; 238].

Definition render_row (c : json) : outcome jsstring :=
  payload <- get (Some c) (lit "payload") ;;
  let status := probe_status payload ||| Some (JStr (lit "unknown")) in
  let taskId := probe_taskId payload ||| Some (JStr dash) in
  let downloadUrl := probe_downloadUrl payload ||| Some (JStr []) in
  id <- get (Some c) (lit "id") ;;
  id_text <- ToString id ;;
  receivedAt <- get (Some c) (lit "receivedAt") ;;
  receivedAt_text <- ToString receivedAt ;;
  status_text <- ToString status ;;
  taskId_text <- ToString taskId ;;
  video <- (if truthy downloadUrl
            then url_text <- ToString downloadUrl ;;
                 Ret (lit "<a href=" ++ dq ++ url_text ++ dq ++
                      lit " target=" ++ dq ++ lit "_blank" ++ dq ++
                      lit ">download</a>")
            else Ret dash) ;;
  Ret (unlines
    [ lit "<tr>";
      lit "      <td style=" ++ dq ++ lit "font-family:monospace" ++ dq ++
        lit ">" ++ id_text ++ lit "</td>";
      lit "      <td>" ++ receivedAt_text ++ lit "</td>";
      lit "      <td>" ++ status_text ++ lit "</td>";
      lit "      <td style=" ++ dq ++ lit "font-family:monospace" ++ dq ++
        lit ">" ++ taskId_text ++ lit "</td>";
      lit "      <td>" ++ video ++ lit "</td>";
      lit "    </tr>" ]).

Definition no_data : jsstring :=
  lit "<tr><td colspan=" ++ dq ++ lit "5" ++ dq ++ lit ">No data</td></tr>".

Definition page_head : jsstring :=
  unlines
    [ [];
      lit "<!doctype html>";
      lit "<html>";
      lit "<head>";
      lit "  <meta charset=" ++ dq ++ lit "utf-8" ++ dq ++ lit " />";
      lit "  <meta name=" ++ dq ++ lit "viewport" ++ dq ++ lit " content=" ++ dq ++ lit "width=device-width,initial-scale=1" ++ dq ++ lit " />";
      lit "  <title>Suno Callback Dashboard</title>";
      lit "  <style>";
      lit "    body { font-family: system-ui, -apple-system, Segoe UI, Roboto, Arial; margin: 24px; }";
      lit "    table { border-collapse: collapse; width: 100%; }";
      lit "    th, td { border: 1px solid #e5e7eb; padding: 8px 10px; text-align: left; }";
      lit "    th { background: #f3f4f6; }";
      lit "    tr:nth-child(even) { background: #fafafa; }";
      lit "    code { background: #f3f4f6; padding: 2px 4px; border-radius: 4px; }";
      lit "  </style>";
      lit "</head>";
      lit "<body>";
      lit "  <h1>" ++ [63743; 252; 238; 238] ++ lit " Suno Callback Dashboard</h1>";
      lit "  <p>Latest callbacks (max 50). Protect the endpoint with <code>AUTH_TOKEN</code> in your <code>.env</code>, e.g. use <code>?token=YOUR_TOKEN</code>.</p>";
      [];
      lit "  <h3>Endpoints</h3>";
      lit "  <ul>";
      lit "    <li><code>POST /suno/callback?token=YOUR_TOKEN</code></li>";
      lit "    <li><code>GET /callbacks?token=YOUR_TOKEN</code></li>";
      lit "    <li><code>GET /callbacks/:id?token=YOUR_TOKEN</code></li>";
      lit "  </ul>";
      [];
      lit "  <h3>Recent</h3>";
      lit "  <table>";
      lit "    <thead>";
      lit "      <tr>";
      lit "        <th>ID</th>";
      lit "        <th>Received</th>";
      lit "        <th>Status</th>";
      lit "        <th>TaskID</th>";
      lit "        <th>Video</th>";
      lit "      </tr>";
      lit "    </thead>";
      lit "    <tbody>";
      lit "      " ].

Definition page_tail : jsstring :=
  unlines
    [ [];
      lit "    </tbody>";
      lit "  </table>";
      lit "</body>";
      lit "</html>";
      lit "  " ].

Definition page (rows : jsstring) : jsstring :=
  page_head ++ (if nonempty rows then rows else no_data) ++ page_tail.

Definition dashboard (f : file) : outcome result :=
  db <- readDb f ;;
  callbacks <- get (Some db) (lit "callbacks") ;;
  l <- as_array callbacks ;;
  cells <- map_outcome render_row (firstn 50 l) ;;
  let rows := join nl cells in
  answer f {| status := 200; sent := Html (page rows) |}.

(** GET /: no guard on this route. *)
Definition route_root (AUTH_TOKEN : jsstring) (f : file) (req : request)
  : outcome result :=
  dashboard f.

(** ** Notions of the theorems *)

(** The stored list of callbacks, as the next read of the file sees it. *)
Definition callbacks_of (f : file) : option (list json) :=
  match readDb f with
  | Ret (JObj l) =>
      match lookup (lit "callbacks") l with
      | Some (JArr cs) => Some cs
      | _ => None
      end
  | _ => None
  end.

Definition unauthorized : response :=
  {| status := 401;
     sent := Json (JObj [ (lit "code", num 401);
                          (lit "msg", JStr (lit "Unauthorized: invalid or missing token")) ]) |}.

Definition ok_reply : response :=
  {| status := 200;
     sent := Json (JObj [ (lit "code", num 200); (lit "msg", JStr (lit "ok")) ]) |}.


Definition found_reply (record : json) : response :=
  {| status := 200;
     sent := Json (JObj [ (lit "code", num 200); (lit "msg", JStr (lit "ok"));
                          (lit "data", record) ]) |}.

(** A record whose [id] is exactly the string [id]. *)
Definition has_id (id : jsstring) (c : json) : bool :=
  strict_eq_string (oget (Some c) (lit "id")) id.

(** A value none of whose objects has a property named [toString]: a
    value that [ToString] converts, as it does every part of it. *)
Fixpoint plain (v : json) : bool :=
  match v with
  | JArr l => forallb plain l
  | JObj l =>
      negb (has_key (lit "toString") l) &&
      forallb (fun kv => plain (snd kv)) l
  | _ => true
  end.

Definition plain_val (v : jsval) : bool :=
  match v with
  | Some j => plain j
  | None => true
  end.

(** An entry of the stored list that the dashboard can show. *)
Definition showable (c : json) : Prop := c <> JNull /\ plain c = true.

(** A table row with its five cells given as text. *)
Definition row_cells (id receivedAt status taskId video : jsstring) : jsstring :=
  join nl
    [ lit "<tr>";
      lit "      <td style=" ++ dq ++ lit "font-family:monospace" ++ dq ++
        lit ">" ++ id ++ lit "</td>";
      lit "      <td>" ++ receivedAt ++ lit "</td>";
      lit "      <td>" ++ status ++ lit "</td>";
      lit "      <td style=" ++ dq ++ lit "font-family:monospace" ++ dq ++
        lit ">" ++ taskId ++ lit "</td>";
      lit "      <td>" ++ video ++ lit "</td>";
      lit "    </tr>" ].

(** The link to a download URL, the URL put in as it is. *)
Definition download_link (url : jsstring) : jsstring :=
  lit "<a href=" ++ dq ++ url ++ dq ++ lit " target=" ++ dq ++ lit "_blank" ++
  dq ++ lit ">download</a>".


(** An HTML document whose table body holds [rows]. *)
Definition table_page (text rows : jsstring) : Prop :=
  exists head tail,
    text = head ++ lit "<tbody>" ++ nl ++ lit "      " ++ rows ++
           nl ++ lit "    </tbody>" ++ tail /\
    firstn 16 head = nl ++ lit "<!doctype html>".

Definition html_reply (text : jsstring) : response :=
  {| status := 200; sent := Html text |}.

Definition quiet (f : file) (r : response) : result :=
  {| file_after := f; reply := r; console := [] |}.

(** A string, unless it is absent or empty. *)
Definition nonempty_string (s : option jsstring) : option jsstring :=
  match s with
  | Some (c :: r) => Some (c :: r)
  | _ => None
  end.

(** The body of a request is a value that exists at run time (the body
    parsers build it with [JSON.parse] or from strings). *)
Definition body_wf (req : request) : bool :=
  match body req with
  | Some b => wf_json b
  | None => true
  end.

Definition wf_props (l : props) : bool :=
  keys_distinct (map fst l) && keys_ordered (map fst l) &&
  forallb (fun kv => wf_json (snd kv)) l.

(** Where a number ends: at the end of the input, or before a character
    that cannot continue it. *)
Definition number_end (s : jsstring) : bool :=
  match s with
  | [] => true
  | c :: _ => negb (is_digit_char c || (c =? 46) || (c =? 101) || (c =? 69))
  end.

(** A character a JSON value can start with. *)
Definition value_start (c : N) : bool :=
  (c =? 123) || (c =? 91) || (c =? 34) || (c =? 116) || (c =? 102) ||
  (c =? 110) || (c =? 45) || is_digit_char c.

(** What follows a value in the output of [stringify_at]: nothing, a
    comma or a line feed. *)
Definition value_end (s : jsstring) : bool :=
  match s with
  | [] => true
  | c :: _ => (c =? 44) || (c =? 10)
  end.

Definition all_ws (s : jsstring) : bool := forallb is_json_ws s.

(** Fuel that is enough to read a value back: one unit for the value and
    one for each of its elements or members, all the way down. *)
Fixpoint weight (v : json) : nat :=
  match v with
  | JArr l => S (list_sum (map (fun e => S (weight e)) l))
  | JObj l => S (list_sum (map (fun kv => S (weight (snd kv))) l))
  | _ => 1
  end.

(** A value as it is once written to the file and read again: a number
    that is not finite has become [null]. *)
Fixpoint written (v : json) : json :=
  match v with
  | JNum x => if finite x then v else JNull
  | JArr l => JArr (map written l)
  | JObj l => JObj (map (fun kv => (fst kv, written (snd kv))) l)
  | _ => v
  end.

(** A value all of whose numbers are finite. *)
Fixpoint finite_json (v : json) : bool :=
  match v with
  | JNum x => finite x
  | JArr l => forallb finite_json l
  | JObj l => forallb (fun kv => finite_json (snd kv)) l
  | _ => true
  end.

(** A value that [parse_value] reads back from its text at every
    indentation, given fuel for its weight. *)
Definition reads_back (v : json) : Prop :=
  forall ind fuel rest,
    wf_json v = true -> all_ws ind = true -> value_end rest = true ->
    (weight v <= fuel)%nat ->
    parse_value fuel (stringify_at ind v ++ rest) = POk (written v) rest.

(** ** The claims' words, where they differ from the code *)

(** A leading [Bearer], in any case, taken off the header. *)
Definition strip_leading_bearer (s : jsstring) : jsstring :=
  match s with
  | b :: e :: a :: r :: e' :: r' :: rest =>
      if letter_ci 66 b && letter_ci 69 e && letter_ci 65 a &&
         letter_ci 82 r && letter_ci 69 e' && letter_ci 82 r'
      then rest
      else s
  | _ => s
  end.





(** The guard as the specification words it: the query token is the
    secret, or the header without a leading [Bearer], trimmed, is. *)
Definition passes_as_specified (AUTH_TOKEN : jsstring) (req : request) : Prop :=
  query_token req = Some (QString AUTH_TOKEN) \/
  trim (strip_leading_bearer (authorization req)) = AUTH_TOKEN.

(** The record as the specification words it: [ip] is the forwarded-for
    header if present, else the socket address, else [null]; [userAgent]
    the user-agent header, else [null]; [payload] the parsed body, else
    [{}]. *)
Definition record_as_specified (env : environment) (req : request) : json :=
  JObj [ (lit "id", JStr (Number_toString (number_of_Z (Date_now env)) ++
                           lit "_" ++ map hex_digit (random_digits env)));
         (lit "receivedAt", JStr (Date_toISOString env));
         (lit "ip", match assoc (lit "x-forwarded-for") (headers req) with
                    | Some s => JStr s
                    | None => match remoteAddress req with
                              | Some a => JStr a
                              | None => JNull
                              end
                    end);
         (lit "userAgent", match assoc (lit "user-agent") (headers req) with
                           | Some s => JStr s
                           | None => JNull
                           end);
         (lit "payload", match body req with
                         | Some b => b
                         | None => JObj []
                         end) ].

(** ** Sample inputs *)

Definition bearer_request : request :=
  {| query_token := None;
     headers := [(lit "authorization", lit "bearer  s3cret ")];
     body := None;
     remoteAddress := None;
     params_id := [] |}.

Definition inner_bearer_request : request :=
  {| query_token := None;
     headers := [(lit "authorization", lit "xBearer yz")];
     body := None;
     remoteAddress := None;
     params_id := [] |}.

Definition plain_request : request :=
  {| query_token := None;
     headers := [];
     body := None;
     remoteAddress := None;
     params_id := [] |}.

Definition sample_env : environment :=
  {| Date_now := 1761000000123;
     Date_now_range := eq_refl;
     Date_toISOString := lit "2025-10-20T22:40:00.123Z";
     random_digits := [10; 3; 15; 0; 9] |}.

Definition empty_forwarded_request : request :=
  {| query_token := None;
     headers := [(lit "x-forwarded-for", []); (lit "user-agent", lit "curl/8.5")];
     body := Some (JObj [(lit "msg", JStr (lit "done"))]);
     remoteAddress := Some (lit "10.0.0.7");
     params_id := [] |}.

Definition markup_record : json :=
  JObj [ (lit "id", JStr (lit "1761000000123_a3f09"));
         (lit "receivedAt", JStr (lit "2025-10-20T22:40:00.123Z"));
         (lit "ip", JNull);
         (lit "userAgent", JNull);
         (lit "payload",
          JObj [ (lit "data",
                  JObj [ (lit "status", JStr (lit "<script>alert(1)</script>"));
                         (lit "taskId", JStr (lit "<b>7</b>"));
                         (lit "url", JStr (lit "javascript:alert(2)")) ]) ]) ].

Definition markup_store : file :=
  writeDb (JObj [(lit "callbacks", JArr [markup_record])]).

Definition lookup_request : request :=
  {| query_token := Some (QString (lit "s3cret"));
     headers := [];
     body := None;
     remoteAddress := None;
     params_id := lit "1761000000123_a3f09" |}.

Definition sample_post : request :=
  {| query_token := Some (QString (lit "s3cret"));
     headers := [(lit "user-agent", lit "curl/8.5")];
     body := Some (JObj [ (lit "code", num 200);
                          (lit "data", JObj [ (lit "taskId", JStr (lit "t-1"));
                                              (lit "status", JStr (lit "SUCCESS")) ]) ]);
     remoteAddress := Some (lit "10.0.0.7");
     params_id := [] |}.






(** A store of [n] records. *)
Definition numbered_record (i : nat) : json :=
  JObj [ (lit "id", JStr (lit "r" ++ Number_toString (number_of_Z (Z.of_nat i))));
         (lit "payload", JObj []) ].

Definition store_of (n : nat) : file :=
  writeDb (JObj [(lit "callbacks", JArr (map numbered_record (seq 0 n)))]).

(** ** Further notions of the theorems *)

(** The [id] the handler gives the record of a callback. *)
Definition record_id (env : environment) : jsstring :=
  Number_toString (number_of_Z (Date_now env)) ++ lit "_" ++
  slice_from 2 (random_toString16 env).

Definition list_reply (data : json) : response :=
  {| status := 200;
     sent := Json (JObj [ (lit "code", num 200); (lit "msg", JStr (lit "ok"));
                          (lit "data", data) ]) |}.

(** A payload that holds none of the fields the probes look at first:
    no [data], no [msg], no [taskId] (every value that is not an object
    is of that kind). *)
Definition featureless (payload : jsval) : Prop :=
  oget payload (lit "data") = None /\
  oget payload (lit "msg") = None /\
  oget payload (lit "taskId") = None.

Definition null_request : request :=
  {| query_token := None;
     headers := [];
     body := None;
     remoteAddress := None;
     params_id := lit "r1" |}.

Definition holed_store : file :=
  writeDb (JObj [(lit "callbacks",
                  JArr [numbered_record 0; numbered_record 1; JNull;
                        numbered_record 3])]).

Definition bare_record : json :=
  JObj [ (lit "id", JStr (lit "r7")); (lit "payload", JArr []) ].

(** The word [Bearer] in any mix of cases. *)
Definition is_bearer_word (w : jsstring) : bool :=
  match w with
  | [b; e; a; r; e'; r'] =>
      letter_ci 66 b && letter_ci 69 e && letter_ci 65 a &&
      letter_ci 82 r && letter_ci 69 e' && letter_ci 82 r'
  | _ => false
  end.

Definition all_space (s : jsstring) : bool := forallb is_space s.

Definition padded_bearer_request : request :=
  {| query_token := Some (QArray [QString (lit "s3cret"); QString (lit "x")]);
     headers := [(lit "authorization", lit "BEARER" ++ [9; 32] ++ lit "s3cret" ++ [32])];
     body := None;
     remoteAddress := None;
     params_id := [] |}.

(** ** The routes as one server (source lines 74, 125, 131, 139) *)

(** A request to one of the four routes; a POST comes with what the
    handler will read from the clock and the random generator. *)
Inductive call :=
| Post (env : environment) (req : request)
| ListAll (req : request)
| GetOne (req : request)
| Root (req : request).

Definition serve (AUTH_TOKEN : jsstring) (f : file) (c : call) : outcome result :=
  match c with
  | Post env req => route_post AUTH_TOKEN env f req
  | ListAll req => route_list AUTH_TOKEN f req
  | GetOne req => route_get AUTH_TOKEN f req
  | Root req => route_root AUTH_TOKEN f req
  end.

(** The file after a call; a handler that throws has written nothing. *)
Definition file_after_call (AUTH_TOKEN : jsstring) (f : file) (c : call) : file :=
  match serve AUTH_TOKEN f c with
  | Ret res => file_after res
  | Throw _ => f
  end.

(** The file after a sequence of calls, served one after the other. *)
Fixpoint run (AUTH_TOKEN : jsstring) (f : file) (cs : list call) : file :=
  match cs with
  | [] => f
  | c :: r => run AUTH_TOKEN (file_after_call AUTH_TOKEN f c) r
  end.

(** A call the server can meet: the body of a POST is a value that
    exists at run time, and none of its objects has a property named
    [toString]. *)
Definition call_wf (c : call) : bool :=
  match c with
  | Post _ req => body_wf req && plain_val (body req)
  | _ => true
  end.

Definition is_object (v : json) : bool :=
  match v with
  | JObj _ => true
  | _ => false
  end.

(** A store in order: a list of at most 500 entries, all of them
    objects, none holding an object with a property named [toString]. *)
Definition sound_store (f : file) : bool :=
  match callbacks_of f with
  | Some l => (length l <=? 500)%nat && forallb is_object l && forallb plain l
  | None => false
  end.

Definition sample_calls : list call :=
  [ Root plain_request;
    Post sample_env sample_post;
    ListAll lookup_request;
    GetOne lookup_request;
    Post sample_env plain_request;
    Root lookup_request ].





Definition hex_digits (ds : list N) : Prop := Forall (fun d => d < 16) ds.

Definition same_tick_env : environment :=
  {| Date_now := 1761000000123;
     Date_now_range := eq_refl;
     Date_toISOString := lit "2025-10-20T22:40:00.124Z";
     random_digits := [10; 3; 15; 0; 9] |}.

(** ** Configuration (source lines 32-33) *)

(** [process.env.AUTH_TOKEN || ''], the variable being unset or a
    string. *)
Definition AUTH_TOKEN_of (variable : option jsstring) : jsstring :=
  match option_map JStr variable ||| Some (JStr []) with
  | Some (JStr s) => s
  | _ => []
  end.

(** [process.env.PORT || 8080] *)
Definition PORT_of (variable : option jsstring) : json :=
  or_default (option_map JStr variable) (num 8080).

Definition is_get_one (c : call) : bool :=
  match c with
  | GetOne _ => true
  | _ => false
  end.

Definition is_root (c : call) : bool :=
  match c with
  | Root _ => true
  | _ => false
  end.

(* ================================================================== *)
(** * Part II: lemmas and theorems                                     *)
(* ================================================================== *)

(** ** The model on concrete inputs *)

Example decimal_toString_samples :
  decimal_toString (decimal_of_Z 200) = lit "200" /\
  decimal_toString (decimal_of_Z (-1761000000123)) = lit "-1761000000123" /\
  decimal_toString (DecD false [1; 5; 2] 2) = lit "15.2" /\
  decimal_toString (DecD false [1; 5] (-5)) = lit "0.0000015" /\
  decimal_toString (DecD false [1; 5] (-6)) = lit "1.5e-7" /\
  decimal_toString (DecD false [1] 22) = lit "1e+21".
Proof. repeat split. Qed.

(** Numerals are rounded to binary64: [0.1] is not a binary fraction, an
    integer beyond [2^53] loses its last bit, [1e400] overflows, and
    [3e-324] becomes the least value above zero and [2e-324] zero. *)
Example to_number_samples :
  to_number (DecD false [1] 0) = NumF false 7205759403792794 (-56) /\
  to_number (decimal_of_Z 9007199254740993) = NumF false 4503599627370496 1 /\
  to_number (DecD false [1] 401) = NumInf false /\
  to_number (DecD true [3] (-323)) = NumF true 1 (-1074) /\
  to_number (DecD false [2] (-323)) = Num0.
Proof. vm_compute. repeat split. Qed.

(** Numbers are printed with the fewest digits that read back. *)
Example Number_toString_samples :
  Number_toString (number_of_Z 200) = lit "200" /\
  Number_toString (to_number (DecD false [1] 0)) = lit "0.1" /\
  Number_toString (to_number (decimal_of_Z 9007199254740993)) =
    lit "9007199254740992" /\
  Number_toString (NumF false 6004799503160661 (-54)) =
    lit "0.3333333333333333" /\
  Number_toString (NumF false 1 (-1074)) = lit "5e-324" /\
  Number_toString (NumF false 9007199254740991 971) =
    lit "1.7976931348623157e+308" /\
  Number_toString (NumInf true) = lit "-Infinity".
Proof. vm_compute. repeat split. Qed.

Example stringify_empty_doc :
  JSON_stringify empty_doc =
  unlines [ lit "{"; lit "  " ++ dq ++ lit "callbacks" ++ dq ++ lit ": []"; lit "}" ].
Proof. reflexivity. Qed.

Example parse_property_order :
  JSON_parse (lit "{ " ++ dq ++ lit "b" ++ dq ++ lit ": 1.50e1, " ++
              dq ++ lit "7" ++ dq ++ lit ": [ ], " ++
              dq ++ lit "b" ++ dq ++ lit ": -0.0, " ++
              dq ++ lit "2" ++ dq ++ lit ": " ++ dq ++ lit "a\n" ++ dq ++
              lit " }") =
  Ret (JObj [ (lit "2", JStr [97; 10]); (lit "7", JArr []); (lit "b", num 0) ]).
Proof. reflexivity. Qed.

Example parse_rejects :
  JSON_parse (lit "[01]") = Throw SyntaxError /\
  JSON_parse (lit "[1,]") = Throw SyntaxError /\
  JSON_parse (lit "[1.]") = Throw SyntaxError /\
  JSON_parse (lit "{} x") = Throw SyntaxError /\
  JSON_parse [] = Throw SyntaxError.
Proof. repeat split. Qed.

Example initDb_creates : readDb (initDb NoFile) = Ret empty_doc.
Proof. reflexivity. Qed.

Example sample_record_id :
  oget (Some (build_record sample_env sample_post)) (lit "id") =
  Some (JStr (lit "1761000000123_a3f09")).
Proof. reflexivity. Qed.

Example sample_log_line :
  log_line (Date_toISOString sample_env) (body sample_post) =
  Ret (lit "[2025-10-20T22:40:00.123Z] Callback received: status=SUCCESS taskId=t-1 url=- ").
Proof. reflexivity. Qed.

(** An object that has a property [toString] of its own cannot be
    converted; in an array it makes the whole conversion throw. *)
Example to_string_samples :
  to_string (JArr [num 1; JNull; JArr [JStr (lit "a"); JBool true]; JObj []]) =
    Ret (lit "1,,a,true,[object Object]") /\
  to_string (JObj [(lit "toString", num 1)]) = Throw TypeError /\
  to_string (JArr [num 1; JObj [(lit "toString", JNull)]]) = Throw TypeError /\
  to_string (JObj [(lit "valueOf", num 1)]) = Ret (lit "[object Object]").
Proof. vm_compute. repeat split. Qed.

(** ** Strings *)

Lemma str_eqb_eq (a b : jsstring) : str_eqb a b = true <-> a = b.
Proof.
  revert b; induction a as [|x a IH]; intros [|y b]; simpl; split;
    try congruence; try reflexivity.
  - intros H. apply andb_true_iff in H as [H1 H2].
    apply N.eqb_eq in H1. apply IH in H2. congruence.
  - intros H. injection H as -> ->. rewrite N.eqb_refl. simpl.
    now apply IH.
Qed.

Lemma str_eqb_refl (a : jsstring) : str_eqb a a = true.
Proof. now apply str_eqb_eq. Qed.

Lemma str_eqb_neq (a b : jsstring) : str_eqb a b = false <-> a <> b.
Proof.
  split.
  - intros H E. apply str_eqb_eq in E. congruence.
  - intros H. destruct (str_eqb a b) eqn:E; [|reflexivity].
    apply str_eqb_eq in E. contradiction.
Qed.

Lemma nonempty_true (s : jsstring) : nonempty s = true <-> s <> [].
Proof. destruct s; simpl; split; congruence. Qed.

(** ** Auth guard *)

Lemma query_is_eq (q : option query_value) (s : jsstring) :
  query_is q s = true <-> q = Some (QString s).
Proof.
  destruct q as [[t| |]|]; simpl; split; try congruence.
  - intros H. apply str_eqb_eq in H. now subst.
  - intros H. injection H as ->. apply str_eqb_refl.
Qed.

Lemma query_is_truthy (q : option query_value) (s : jsstring) :
  s <> [] -> query_is q s = true -> query_truthy q = true.
Proof.
  intros Hs H. apply query_is_eq in H. subst q. simpl.
  destruct s; congruence.
Qed.

(** C1, as amended.  Without a token every request passes.  With one, a
    request passes exactly when the query parameter [token] is the secret,
    or the [Authorization] header, after the leftmost [Bearer] followed by
    white space is removed (in any case, wherever it starts) and the
    result is trimmed, is the secret.  A request that does not pass gets
    401 with the body [{code: 401, msg: "Unauthorized: ..."}]. *)
Theorem checkAuth_contract (AUTH_TOKEN : jsstring) (req : request) :
  (AUTH_TOKEN = [] -> checkAuth AUTH_TOKEN req = Next) /\
  (AUTH_TOKEN <> [] ->
     (checkAuth AUTH_TOKEN req = Next <->
      query_token req = Some (QString AUTH_TOKEN) \/
      trim (replace_bearer (authorization req)) = AUTH_TOKEN)) /\
  (checkAuth AUTH_TOKEN req <> Next ->
     checkAuth AUTH_TOKEN req = Rejected unauthorized).
Proof.
  split; [|split].
  - intros ->. reflexivity.
  - intros Hne. unfold checkAuth.
    destruct (nonempty AUTH_TOKEN) eqn:Hn;
      [|apply not_true_iff_false in Hn; rewrite nonempty_true in Hn; tauto].
    simpl.
    destruct (query_is (query_token req) AUTH_TOKEN) eqn:Hq.
    + rewrite (query_is_truthy _ _ Hne Hq). simpl.
      split; [|reflexivity]. intros _. left. now apply query_is_eq.
    + rewrite andb_false_r.
      destruct (str_eqb (trim (replace_bearer (authorization req))) AUTH_TOKEN) eqn:Hh.
      * apply str_eqb_eq in Hh. rewrite Hh, Hn. simpl.
        split; [|reflexivity]. intros _. now right.
      * rewrite andb_false_r. split; [discriminate|].
        intros [H|H].
        -- apply query_is_eq in H. congruence.
        -- apply str_eqb_eq in H. congruence.
  - unfold checkAuth.
    destruct (nonempty AUTH_TOKEN); simpl; [|congruence].
    destruct (query_truthy _ && query_is _ _); [congruence|].
    destruct (nonempty _ && str_eqb _ _); [congruence|].
    reflexivity.
Qed.

Lemma checkAuth_contract_witness :
  checkAuth [] bearer_request = Next /\
  checkAuth (lit "s3cret") bearer_request = Next /\
  checkAuth (lit "other") bearer_request = Rejected unauthorized.
Proof.
  split; [|split].
  - apply (proj1 (checkAuth_contract [] bearer_request)). reflexivity.
  - apply (proj1 (proj2 (checkAuth_contract (lit "s3cret") bearer_request))).
    + discriminate.
    + right. reflexivity.
  - apply (proj2 (proj2 (checkAuth_contract (lit "other") bearer_request))).
    discriminate.
Defined.

(** C1 as stated fails: with the secret [xyz], the header [xBearer yz]
    has no leading [Bearer] and is not the secret, yet the request
    passes, because the pattern is matched in the middle of the header. *)
Lemma checkAuth_leading_bearer_counterexample :
  checkAuth (lit "xyz") inner_bearer_request = Next /\
  ~ passes_as_specified (lit "xyz") inner_bearer_request.
Proof.
  split; [reflexivity|]. intros [H|H]; discriminate H.
Qed.

(** ** Reading the store *)

Lemma readDb_cases (f : file) :
  readDb f =
  match f with
  | NoFile => Ret empty_doc
  | Contents raw =>
      match JSON_parse raw with
      | Ret v => Ret v
      | Throw _ => Ret empty_doc
      end
  end.
Proof.
  destruct f as [|raw]; [reflexivity|].
  unfold readDb. simpl. destruct (JSON_parse raw); reflexivity.
Qed.

(** C5.  Whatever the file holds, [readDb] returns: the parsed value when
    the file can be read and parsed, the empty document
    [{callbacks: []}] when reading or parsing throws.  It never throws
    itself. *)
Theorem readDb_degrades (f : file) :
  ((exists raw v, f = Contents raw /\ JSON_parse raw = Ret v /\ readDb f = Ret v) \/
   ((readFileSync f = Throw FsError \/
     exists raw e, f = Contents raw /\ JSON_parse raw = Throw e) /\
    readDb f = Ret (JObj [(lit "callbacks", JArr [])]))) /\
  (forall e, readDb f <> Throw e).
Proof.
  rewrite readDb_cases. destruct f as [|raw].
  - split; [|discriminate]. right. split; [now left | reflexivity].
  - destruct (JSON_parse raw) as [v|e] eqn:E.
    + split; [|discriminate]. left. now exists raw, v.
    + split; [|discriminate]. right. split; [|reflexivity].
      right. now exists raw, e.
Qed.

Lemma callbacks_of_inv (f : file) (l : list json) :
  callbacks_of f = Some l ->
  exists ps, readDb f = Ret (JObj ps) /\ lookup (lit "callbacks") ps = Some (JArr l).
Proof.
  unfold callbacks_of. destruct (readDb f) as [[| | | | |ps]|]; try discriminate.
  destruct (lookup (lit "callbacks") ps) as [[| | | |cs|]|] eqn:E; try discriminate.
  intros H. injection H as ->. now exists ps.
Qed.

(** C9.  The files [{}] and [null] parse, so [readDb] hands the parsed
    value on as it is, not the empty document; the handler of
    POST /suno/callback then throws a [TypeError] at [unshift] and writes
    nothing. *)
Theorem post_on_shapeless_store (AUTH_TOKEN : jsstring) (env : environment)
  (req : request) :
  checkAuth AUTH_TOKEN req = Next ->
  (readDb (Contents (lit "{}")) = Ret (JObj []) /\
   route_post AUTH_TOKEN env (Contents (lit "{}")) req = Throw TypeError) /\
  (readDb (Contents (lit "null")) = Ret JNull /\
   route_post AUTH_TOKEN env (Contents (lit "null")) req = Throw TypeError).
Proof.
  intros Hauth. unfold route_post, guarded. rewrite Hauth.
  assert (E1 : readDb (Contents (lit "{}")) = Ret (JObj [])) by reflexivity.
  assert (E2 : readDb (Contents (lit "null")) = Ret JNull) by reflexivity.
  unfold post_callback. rewrite E1, E2. repeat split.
Qed.

Lemma post_on_shapeless_store_witness :
  route_post [] sample_env (Contents (lit "{}")) plain_request = Throw TypeError.
Proof.
  apply (post_on_shapeless_store [] sample_env plain_request). reflexivity.
Defined.

(** ** Queries *)

Lemma get_oget (c : json) (k : jsstring) :
  c <> JNull -> get (Some c) k = Ret (oget (Some c) k).
Proof. intros H. destruct c; simpl; try reflexivity. congruence. Qed.

Lemma find_id_find (id : jsstring) (l : list json) :
  Forall (fun c => c <> JNull) l ->
  find_id id l = Ret (find (has_id id) l).
Proof.
  induction 1 as [|c l Hc _ IH]; [reflexivity|].
  cbn [find_id find]. rewrite (get_oget _ _ Hc). cbn [bind]. unfold has_id.
  destruct (strict_eq_string _ id); [reflexivity | exact IH].
Qed.

Lemma has_id_truthy (id : jsstring) (c : json) :
  has_id id c = true -> truthy (Some c) = true.
Proof. destruct c; simpl; try discriminate; reflexivity. Qed.



(** ** Building the record *)

Lemma or_default_string (s : option jsstring) (d : json) :
  or_default (option_map JStr s) d =
  match nonempty_string s with
  | Some t => JStr t
  | None => d
  end.
Proof.
  destruct s as [[|c r]|]; unfold or_default, or_else; simpl;
    try reflexivity; destruct d as [| [|] | [|] | [|] | |]; reflexivity.
Qed.

Lemma slice_random (env : environment) :
  slice_from 2 (random_toString16 env) = map hex_digit (random_digits env).
Proof.
  unfold random_toString16. destruct (random_digits env); reflexivity.
Qed.

Lemma record_ip (req : request) :
  or_default (header req (lit "x-forwarded-for") |||
              option_map JStr (remoteAddress req)) JNull =
  match nonempty_string (assoc (lit "x-forwarded-for") (headers req)) with
  | Some s => JStr s
  | None => match nonempty_string (remoteAddress req) with
            | Some a => JStr a
            | None => JNull
            end
  end.
Proof.
  unfold header.
  destruct (assoc (lit "x-forwarded-for") (headers req)) as [[|c r]|];
    [ | reflexivity | ];
    change (or_default (option_map JStr (remoteAddress req)) JNull =
            match nonempty_string (remoteAddress req) with
            | Some a => JStr a
            | None => JNull
            end);
    apply or_default_string.
Qed.

Lemma record_userAgent (req : request) :
  or_default (header req (lit "user-agent")) JNull =
  match nonempty_string (assoc (lit "user-agent") (headers req)) with
  | Some s => JStr s
  | None => JNull
  end.
Proof. apply or_default_string. Qed.

Lemma record_payload (req : request) :
  or_default (body req) (JObj []) =
  match body req with
  | Some b => if truthy (Some b) then b else JObj []
  | None => JObj []
  end.
Proof.
  unfold or_default, or_else.
  destruct (body req) as [b|]; [|reflexivity].
  destruct (truthy (Some b)); reflexivity.
Qed.

(** C6, as amended.  The record of an accepted POST has [id] made of the
    clock in milliseconds, an underscore and the hexadecimal digits of the
    random number; [receivedAt] the ISO time stamp; [ip] the forwarded-for
    header if present and not empty, else the socket address if it has
    one that is not empty, else [null]; [userAgent] the user-agent header
    if present and not empty, else [null]; [payload] the parsed body if
    there is one and it is truthy, else [{}]. *)
Theorem build_record_fields (env : environment) (req : request) :
  build_record env req =
  JObj [ (lit "id", JStr (Number_toString (number_of_Z (Date_now env)) ++
                           lit "_" ++ map hex_digit (random_digits env)));
         (lit "receivedAt", JStr (Date_toISOString env));
         (lit "ip",
          match nonempty_string (assoc (lit "x-forwarded-for") (headers req)) with
          | Some s => JStr s
          | None => match nonempty_string (remoteAddress req) with
                    | Some a => JStr a
                    | None => JNull
                    end
          end);
         (lit "userAgent",
          match nonempty_string (assoc (lit "user-agent") (headers req)) with
          | Some s => JStr s
          | None => JNull
          end);
         (lit "payload",
          match body req with
          | Some b => if truthy (Some b) then b else JObj []
          | None => JObj []
          end) ].
Proof.
  unfold build_record.
  rewrite slice_random, record_ip, record_userAgent, record_payload.
  reflexivity.
Qed.

(** C6 as stated fails: a forwarded-for header that is present but empty
    is passed over, and [ip] is the socket address. *)
Lemma build_record_empty_header_counterexample :
  assoc (lit "x-forwarded-for") (headers empty_forwarded_request) = Some [] /\
  oget (Some (build_record sample_env empty_forwarded_request)) (lit "ip") =
    Some (JStr (lit "10.0.0.7")) /\
  build_record sample_env empty_forwarded_request <>
  record_as_specified sample_env empty_forwarded_request.
Proof.
  split; [reflexivity|]. split; [reflexivity|]. vm_compute. discriminate.
Qed.

(** ** Strings through [quote] and [parse_chars] *)

Lemma hex_value_digit (d : N) : d < 16 -> hex_value (hex_digit d) = Some d.
Proof.
  intros H.
  assert (E : d = 0 \/ d = 1 \/ d = 2 \/ d = 3 \/ d = 4 \/ d = 5 \/ d = 6 \/
              d = 7 \/ d = 8 \/ d = 9 \/ d = 10 \/ d = 11 \/ d = 12 \/
              d = 13 \/ d = 14 \/ d = 15) by lia.
  repeat (destruct E as [->|E]; [reflexivity|]). subst. reflexivity.
Qed.

Lemma hex4_escape (c : N) :
  c < 65536 ->
  hex4 (hex_digit (c / 4096 mod 16)) (hex_digit (c / 256 mod 16))
       (hex_digit (c / 16 mod 16)) (hex_digit (c mod 16)) = Some c.
Proof.
  intros H. unfold hex4.
  rewrite !hex_value_digit by (apply N.mod_lt; discriminate).
  f_equal. zify. Z.to_euclidean_division_equations. lia.
Qed.

Lemma parse_chars_plain (c : N) (t u rest : jsstring) :
  c <> 34 -> c <> 92 -> 32 <= c ->
  parse_chars t = Some (u, rest) ->
  parse_chars (c :: t) = Some (c :: u, rest).
Proof.
  intros H1 H2 H3 H. cbn [parse_chars].
  apply N.eqb_neq in H1, H2. apply N.ltb_ge in H3.
  now rewrite H1, H2, H3, H.
Qed.

Lemma parse_chars_unicode_escape (c : N) (t u rest : jsstring) :
  c < 65536 ->
  parse_chars t = Some (u, rest) ->
  parse_chars (unicode_escape c ++ t) = Some (c :: u, rest).
Proof.
  intros Hc H. unfold unicode_escape.
  cbn [app parse_chars].
  change (92 =? 34) with false. change (92 =? 92) with true.
  change (117 =? 117) with true. cbv iota.
  now rewrite (hex4_escape c Hc), H.
Qed.

Lemma parse_chars_quote_unit (c : N) (t u rest : jsstring) :
  parse_chars t = Some (u, rest) ->
  parse_chars (quote_unit c ++ t) = Some (c :: u, rest).
Proof.
  intros H. unfold quote_unit.
  destruct (N.eqb_spec c 8) as [->|N8]; [simpl; now rewrite H|].
  destruct (N.eqb_spec c 9) as [->|N9]; [simpl; now rewrite H|].
  destruct (N.eqb_spec c 10) as [->|N10]; [simpl; now rewrite H|].
  destruct (N.eqb_spec c 12) as [->|N12]; [simpl; now rewrite H|].
  destruct (N.eqb_spec c 13) as [->|N13]; [simpl; now rewrite H|].
  destruct (N.eqb_spec c 34) as [->|N34]; [simpl; now rewrite H|].
  destruct (N.eqb_spec c 92) as [->|N92]; [simpl; now rewrite H|].
  destruct ((c <? 32) || is_high_surrogate c || is_low_surrogate c) eqn:E.
  - apply parse_chars_unicode_escape; [|exact H].
    unfold is_high_surrogate, is_low_surrogate in E.
    apply orb_true_iff in E as [E|E]; [apply orb_true_iff in E as [E|E]|].
    + apply N.ltb_lt in E. lia.
    + apply andb_true_iff in E as [_ E]. apply N.leb_le in E. lia.
    + apply andb_true_iff in E as [_ E]. apply N.leb_le in E. lia.
  - apply orb_false_iff in E as [E _]. apply orb_false_iff in E as [E _].
    apply N.ltb_ge in E. now apply parse_chars_plain.
Qed.

Lemma parse_chars_quote_units (n : nat) :
  forall s rest, (length s <= n)%nat ->
  parse_chars (quote_units s ++ 34 :: rest) = Some (s, rest).
Proof.
  induction n as [|n IH]; intros s rest Hn.
  - destruct s; [reflexivity | simpl in Hn; lia].
  - destruct s as [|c r]; [reflexivity|].
    simpl in Hn. cbn [quote_units].
    destruct r as [|c' r'].
    + apply parse_chars_quote_unit. reflexivity.
    + destruct (is_high_surrogate c && is_low_surrogate c') eqn:E.
      * apply andb_true_iff in E as [Eh El].
        unfold is_high_surrogate in Eh. unfold is_low_surrogate in El.
        apply andb_true_iff in Eh as [Eh _]. apply andb_true_iff in El as [El _].
        apply N.leb_le in Eh, El.
        cbn [app]. apply parse_chars_plain; try lia.
        apply parse_chars_plain; try lia.
        apply IH. simpl in Hn. lia.
      * rewrite <- app_assoc. apply parse_chars_quote_unit.
        apply IH. lia.
Qed.

Lemma parse_chars_quoted (s rest : jsstring) :
  parse_chars (quote_units s ++ 34 :: rest) = Some (s, rest).
Proof. apply (parse_chars_quote_units (length s)). lia. Qed.

(** ** Decimal digits *)

Lemma digits_value_app (a b : list N) :
  digits_value (a ++ b) = fold_left (fun acc d => acc * 10 + d) b (digits_value a).
Proof. unfold digits_value. apply fold_left_app. Qed.

Lemma digits_value_snoc (a : list N) (d : N) :
  digits_value (a ++ [d]) = digits_value a * 10 + d.
Proof. rewrite digits_value_app. reflexivity. Qed.

Lemma digits_fuel_acc (fuel : nat) :
  forall n acc, digits_fuel fuel n acc = digits_fuel fuel n [] ++ acc.
Proof.
  induction fuel as [|f IH]; intros n acc; [reflexivity|].
  cbn [digits_fuel]. destruct (n <? 10); [reflexivity|].
  rewrite (IH _ (n mod 10 :: acc)), (IH _ [n mod 10]).
  now rewrite <- app_assoc.
Qed.

Lemma digits_fuel_value (fuel : nat) :
  forall n, n < 2 ^ N.of_nat fuel -> digits_value (digits_fuel fuel n []) = n.
Proof.
  induction fuel as [|f IH]; intros n Hn.
  - cbn [digits_fuel]. unfold digits_value. simpl. lia.
  - cbn [digits_fuel]. destruct (N.ltb_spec n 10) as [H|H].
    + unfold digits_value. simpl. lia.
    + rewrite digits_fuel_acc, digits_value_snoc, IH.
      * zify. Z.to_euclidean_division_equations. lia.
      * rewrite Nnat.Nat2N.inj_succ, N.pow_succ_r' in Hn.
        zify. Z.to_euclidean_division_equations. lia.
Qed.

Lemma digits_fuel_all_digits (fuel : nat) :
  forall n, n < 2 ^ N.of_nat fuel -> all_digits (digits_fuel fuel n []) = true.
Proof.
  induction fuel as [|f IH]; intros n Hn.
  - cbn [digits_fuel]. simpl in Hn. unfold all_digits. simpl.
    rewrite andb_true_r. apply N.ltb_lt. lia.
  - cbn [digits_fuel]. destruct (N.ltb_spec n 10) as [H|H].
    + unfold all_digits. simpl. rewrite andb_true_r. now apply N.ltb_lt.
    + rewrite digits_fuel_acc. unfold all_digits. rewrite forallb_app.
      apply andb_true_iff. split.
      * apply IH. rewrite Nnat.Nat2N.inj_succ, N.pow_succ_r' in Hn.
        zify. Z.to_euclidean_division_equations. lia.
      * simpl. rewrite andb_true_r. apply N.ltb_lt.
        apply N.mod_lt. discriminate.
Qed.

Lemma digits_fuel_nonempty (fuel : nat) (n : N) : digits_fuel fuel n [] <> [].
Proof.
  destruct fuel as [|f]; cbn [digits_fuel]; [discriminate|].
  destruct (n <? 10); [discriminate|].
  rewrite digits_fuel_acc. intros E. apply app_eq_nil in E as [_ E].
  discriminate.
Qed.

Lemma N_digits_bound (n : N) : n < 2 ^ N.of_nat (N.to_nat (N.size n)).
Proof. rewrite Nnat.N2Nat.id. apply N.size_gt. Qed.

Lemma N_digits_value (n : N) : digits_value (N_digits n) = n.
Proof. apply digits_fuel_value, N_digits_bound. Qed.

Lemma N_digits_all_digits (n : N) : all_digits (N_digits n) = true.
Proof. apply digits_fuel_all_digits, N_digits_bound. Qed.

Lemma N_digits_nonempty (n : N) : N_digits n <> [].
Proof. apply digits_fuel_nonempty. Qed.

(** ** Lexing digits *)

Lemma is_digit_char_digit (d : N) : d < 10 -> is_digit_char (digit_char d) = true.
Proof.
  intros H. unfold is_digit_char, digit_char.
  apply andb_true_iff. split; apply N.leb_le; lia.
Qed.

Lemma digit_char_value (d : N) : digit_char d - 48 = d.
Proof. unfold digit_char. lia. Qed.

Lemma span_digits_app (ds : list N) (s : jsstring) :
  all_digits ds = true ->
  span_digits (digit_chars ds ++ s) =
  (ds ++ fst (span_digits s), snd (span_digits s)).
Proof.
  induction ds as [|d ds IH]; intros H.
  - simpl. now destruct (span_digits s).
  - unfold all_digits in H. simpl in H. apply andb_true_iff in H as [Hd H].
    apply N.ltb_lt in Hd. cbn [digit_chars map app span_digits].
    rewrite (is_digit_char_digit d Hd), digit_char_value.
    fold (digit_chars ds). rewrite (IH H). reflexivity.
Qed.

Lemma span_digits_stop (s : jsstring) :
  match s with [] => True | c :: _ => is_digit_char c = false end ->
  span_digits s = ([], s).
Proof. destruct s as [|c r]; [reflexivity|]. simpl. now intros ->. Qed.

Lemma span_digits_all (ds : list N) (s : jsstring) :
  all_digits ds = true ->
  match s with [] => True | c :: _ => is_digit_char c = false end ->
  span_digits (digit_chars ds ++ s) = (ds, s).
Proof.
  intros H Hs. rewrite (span_digits_app _ _ H), (span_digits_stop _ Hs).
  simpl. now rewrite app_nil_r.
Qed.

(** ** Canonical digits *)

Lemma all_digits_app (a b : list N) :
  all_digits (a ++ b) = all_digits a && all_digits b.
Proof. apply forallb_app. Qed.

Lemma all_digits_zeros (k : nat) : all_digits (zeros k) = true.
Proof. induction k; [reflexivity | exact IHk]. Qed.

Lemma drop_zeros_zeros (k : nat) (ds : list N) :
  drop_zeros (zeros k ++ ds) = drop_zeros ds.
Proof. induction k; [reflexivity | exact IHk]. Qed.

Lemma drop_zeros_head (d : N) (ds : list N) :
  d <> 0 -> drop_zeros (d :: ds) = d :: ds.
Proof. intros H. simpl. apply N.eqb_neq in H. now rewrite H. Qed.

Lemma rev_zeros (k : nat) : rev (zeros k) = zeros k.
Proof.
  unfold zeros. induction k as [|k IH]; [reflexivity|].
  cbn [repeat rev]. rewrite IH. symmetry. apply repeat_cons.
Qed.

Lemma strip_zeros_last (ds : list N) (d : N) :
  d <> 0 -> strip_zeros (ds ++ [d]) = ds ++ [d].
Proof.
  intros H. unfold strip_zeros. rewrite rev_app_distr. simpl.
  rewrite (proj2 (N.eqb_neq d 0) H). simpl. now rewrite rev_involutive.
Qed.

Lemma strip_zeros_zeros (ds : list N) (k : nat) :
  strip_zeros (ds ++ zeros k) = strip_zeros ds.
Proof.
  unfold strip_zeros. now rewrite rev_app_distr, rev_zeros, drop_zeros_zeros.
Qed.

(** A canonical digit string, taken apart. *)
Lemma wf_decimal_inv (neg : bool) (ds : list N) (n : Z) :
  wf_decimal (DecD neg ds n) = true ->
  all_digits ds = true /\
  (exists d ds', ds = d :: ds' /\ d <> 0) /\
  (exists ds' d, ds = ds' ++ [d] /\ d <> 0).
Proof.
  cbn [wf_decimal]. intros H. apply andb_true_iff in H as [Hall H].
  destruct ds as [|d ds']; [discriminate|].
  apply andb_true_iff in H as [Hd Hl].
  apply negb_true_iff, N.eqb_neq in Hd, Hl.
  split; [exact Hall|]. split; [now exists d, ds'|].
  destruct (exists_last (l := d :: ds')) as (ds0 & d0 & E); [discriminate|].
  exists ds0, d0. split; [exact E|].
  rewrite E, last_last in Hl. exact Hl.
Qed.

Lemma normalize_canonical (neg : bool) (ds : list N) (n : Z) :
  wf_decimal (DecD neg ds n) = true ->
  normalize neg ds n = DecD neg ds n.
Proof.
  intros H. apply wf_decimal_inv in H as (_ & (d & ds' & E & Hd) & (ds0 & d0 & E0 & Hd0)).
  unfold normalize. cbv zeta. rewrite E, (drop_zeros_head _ _ Hd), <- E.
  rewrite E0, (strip_zeros_last _ _ Hd0).
  destruct (ds0 ++ [d0]) eqn:E1; [now destruct ds0|].
  f_equal. lia.
Qed.

(** ** Numbers through [decimal_toString] and [parse_decimal] *)

Lemma number_end_stop (s : jsstring) :
  number_end s = true ->
  match s with [] => True | c :: _ => is_digit_char c = false end.
Proof.
  destruct s as [|c r]; [trivial|]. simpl. intros H.
  apply negb_true_iff in H. now repeat (apply orb_false_iff in H as [H _]).
Qed.

Lemma parse_frac_part_none (s : jsstring) :
  number_end s = true -> parse_frac_part s = Some ([], s).
Proof.
  destruct s as [|c r]; [reflexivity|]. simpl. intros H.
  apply negb_true_iff in H. apply orb_false_iff in H as [H _].
  apply orb_false_iff in H as [H _]. apply orb_false_iff in H as [_ H].
  now rewrite H.
Qed.

Lemma parse_exp_part_none (s : jsstring) :
  number_end s = true -> parse_exp_part s = Some (0%Z, s).
Proof.
  destruct s as [|c r]; [reflexivity|]. simpl. intros H.
  apply negb_true_iff in H. apply orb_false_iff in H as [H H69].
  apply orb_false_iff in H as [_ H101]. now rewrite H101, H69.
Qed.

Lemma parse_int_part_digits (d : N) (t : list N) (s : jsstring) :
  all_digits (d :: t) = true -> d <> 0 ->
  match s with [] => True | c :: _ => is_digit_char c = false end ->
  parse_int_part (digit_chars (d :: t) ++ s) = Some (d :: t, s).
Proof.
  intros Hall Hd Hs. pose proof (span_digits_all _ _ Hall Hs) as E.
  assert (Hd10 : d < 10).
  { unfold all_digits in Hall. simpl in Hall.
    apply andb_true_iff in Hall as [Hall _]. now apply N.ltb_lt. }
  unfold parse_int_part. cbn [digit_chars map app] in *.
  rewrite (is_digit_char_digit d Hd10).
  replace (digit_char d =? 48) with false
    by (symmetry; apply N.eqb_neq; unfold digit_char; lia).
  now rewrite E.
Qed.

Lemma parse_frac_part_digits (fp : list N) (s : jsstring) :
  all_digits fp = true -> fp <> [] ->
  match s with [] => True | c :: _ => is_digit_char c = false end ->
  parse_frac_part (46 :: digit_chars fp ++ s) = Some (fp, s).
Proof.
  intros Hall Hne Hs. cbn [parse_frac_part]. change (46 =? 46) with true.
  cbv iota. rewrite (span_digits_all _ _ Hall Hs).
  destruct fp; [congruence | reflexivity].
Qed.

Lemma parse_exp_part_digits (e : Z) (s : jsstring) :
  match s with [] => True | c :: _ => is_digit_char c = false end ->
  parse_exp_part (lit "e" ++ (if (e <? 0)%Z then lit "-" else lit "+") ++
                  digit_chars (N_digits (Z.abs_N e)) ++ s) = Some (e, s).
Proof.
  intros Hs.
  pose proof (span_digits_all _ _ (N_digits_all_digits (Z.abs_N e)) Hs) as E.
  pose proof (N_digits_nonempty (Z.abs_N e)) as Hne.
  pose proof (N_digits_value (Z.abs_N e)) as Hv.
  destruct (Z.ltb_spec e 0) as [H|H];
    cbn [lit list_ascii_of_string map app parse_exp_part];
    cbn -[span_digits N_digits digit_chars Z.of_N Z.opp];
    rewrite E; destruct (N_digits (Z.abs_N e)) eqn:Ed; try congruence;
    rewrite Hv; f_equal; f_equal; lia.
Qed.

Lemma normalize_padded (neg : bool) (ds : list N) (n : Z) (a b : nat) :
  wf_decimal (DecD neg ds n) = true ->
  normalize neg (zeros a ++ ds ++ zeros b) (n + Z.of_nat a) = DecD neg ds n.
Proof.
  intros H. pose proof (normalize_canonical _ _ _ H) as Hn.
  apply wf_decimal_inv in H as (_ & (d & ds' & E & Hd) & (ds0 & d0 & E0 & Hd0)).
  unfold normalize in *. cbv zeta in *.
  rewrite drop_zeros_zeros.
  assert (E1 : drop_zeros (ds ++ zeros b) = ds ++ zeros b)
    by (rewrite E; apply (drop_zeros_head _ _ Hd)).
  assert (E2 : drop_zeros ds = ds) by (rewrite E; apply (drop_zeros_head _ _ Hd)).
  rewrite E1, strip_zeros_zeros. rewrite E2 in Hn.
  destruct (strip_zeros ds); [discriminate|].
  injection Hn as <- _. f_equal. rewrite !length_app. unfold zeros.
  rewrite !repeat_length. lia.
Qed.

Lemma all_digits_firstn_skipn (j : nat) (ds : list N) :
  all_digits ds = true ->
  all_digits (firstn j ds) = true /\ all_digits (skipn j ds) = true.
Proof.
  intros H. rewrite <- (firstn_skipn j ds), all_digits_app in H.
  now apply andb_true_iff in H.
Qed.

(** The text of a canonical number without its sign is read back in three
    parts that make the number up again. *)
Lemma unsigned_parts (neg : bool) (ds : list N) (n : Z) (rest : jsstring) :
  wf_decimal (DecD neg ds n) = true ->
  number_end rest = true ->
  exists ip s2 fp s3 e,
    parse_int_part (decimal_toString (DecD false ds n) ++ rest) = Some (ip, s2) /\
    parse_frac_part s2 = Some (fp, s3) /\
    parse_exp_part s3 = Some (e, rest) /\
    normalize neg (ip ++ fp) (Z.of_nat (length ip) + e) = DecD neg ds n.
Proof.
  intros Hwf Hend.
  pose proof (number_end_stop _ Hend) as Hstop.
  pose proof (wf_decimal_inv _ _ _ Hwf) as (Hall & (d & ds' & E & Hd) & _).
  cbn [decimal_toString app]. cbv zeta.
  destruct ((-5 <=? n)%Z && (n <=? 21)%Z) eqn:Hrange.
  - destruct (Z.leb_spec (Z.of_nat (length ds)) n) as [Hk|Hk];
      [|destruct (Z.ltb_spec 0 n) as [Hpos|Hpos]].
    + (* digits, then zeros *)
      remember (Z.to_nat (n - Z.of_nat (length ds))) as m eqn:Em.
      exists (ds ++ zeros m), rest, [], rest, 0%Z.
      split; [|split; [|split]].
      * unfold digit_chars. rewrite <- map_app.
        fold (digit_chars (ds ++ zeros m)).
        rewrite E. cbn [app].
        apply parse_int_part_digits; [|exact Hd|exact Hstop].
        change (all_digits ((d :: ds') ++ zeros m) = true).
        rewrite all_digits_app, all_digits_zeros, <- E, Hall. reflexivity.
      * now apply parse_frac_part_none.
      * now apply parse_exp_part_none.
      * rewrite app_nil_r.
        pose proof (normalize_padded neg ds n 0 m Hwf) as Hn.
        cbn [zeros repeat app] in Hn. rewrite <- Hn. f_equal.
        rewrite length_app. unfold zeros. rewrite repeat_length. lia.
    + (* digits around a point *)
      destruct (all_digits_firstn_skipn (Z.to_nat n) ds Hall) as [Hf Hs].
      exists (firstn (Z.to_nat n) ds),
             (lit "." ++ digit_chars (skipn (Z.to_nat n) ds) ++ rest),
             (skipn (Z.to_nat n) ds), rest, 0%Z.
      assert (Hlen : (Z.to_nat n < length ds)%nat) by lia.
      split; [|split; [|split]].
      * rewrite <- !app_assoc.
        destruct (Z.to_nat n) as [|j] eqn:Ej; [lia|].
        rewrite E in *. cbn [firstn] in *.
        apply parse_int_part_digits; [exact Hf | exact Hd | reflexivity].
      * apply parse_frac_part_digits; [exact Hs| |exact Hstop].
        intros E0. apply (f_equal (@length N)) in E0.
        rewrite length_skipn in E0. simpl in E0. lia.
      * now apply parse_exp_part_none.
      * rewrite firstn_skipn, length_firstn.
        rewrite <- (normalize_canonical _ _ _ Hwf). f_equal. lia.
    + (* zero, point, zeros, digits *)
      exists [0], (lit "." ++ digit_chars (zeros (Z.to_nat (- n)) ++ ds) ++ rest),
             (zeros (Z.to_nat (- n)) ++ ds), rest, 0%Z.
      split; [|split; [|split]].
      * unfold digit_chars. rewrite map_app, <- !app_assoc. reflexivity.
      * apply parse_frac_part_digits; [| |exact Hstop].
        -- now rewrite all_digits_app, all_digits_zeros, Hall.
        -- rewrite E. now destruct (zeros (Z.to_nat (- n))).
      * now apply parse_exp_part_none.
      * pose proof (normalize_padded neg ds n (S (Z.to_nat (- n))) 0 Hwf) as Hn.
        rewrite app_nil_r in Hn. cbn [zeros repeat app] in *. rewrite <- Hn.
        f_equal. simpl length. lia.
  - (* exponent *)
    rewrite E in Hall.
    assert (Hd1 : all_digits [d] = true /\ all_digits ds' = true).
    { unfold all_digits in *. simpl in *. apply andb_true_iff in Hall as [H1 H2].
      now rewrite H1, H2. }
    destruct Hd1 as [Hd1 Hds'].
    assert (Hn : normalize neg ([d] ++ ds') (Z.of_nat (length [d]) + (n - 1)) =
                 DecD neg ds n).
    { rewrite <- (normalize_canonical _ _ _ Hwf), E. f_equal. simpl length. lia. }
    rewrite E. cbn [firstn skipn].
    exists [d]. destruct ds' as [|d' ds''].
    + exists (lit "e" ++ (if (n - 1 <? 0)%Z then lit "-" else lit "+") ++
              digit_chars (N_digits (Z.abs_N (n - 1))) ++ rest), [].
      exists (lit "e" ++ (if (n - 1 <? 0)%Z then lit "-" else lit "+") ++
              digit_chars (N_digits (Z.abs_N (n - 1))) ++ rest), (n - 1)%Z.
      split; [|split; [|split]].
      * rewrite <- !app_assoc.
        apply (parse_int_part_digits d [] _ Hd1 Hd). reflexivity.
      * reflexivity.
      * apply parse_exp_part_digits. exact Hstop.
      * rewrite E in Hn. exact Hn.
    + exists (lit "." ++ digit_chars (d' :: ds'') ++
              lit "e" ++ (if (n - 1 <? 0)%Z then lit "-" else lit "+") ++
              digit_chars (N_digits (Z.abs_N (n - 1))) ++ rest), (d' :: ds'').
      exists (lit "e" ++ (if (n - 1 <? 0)%Z then lit "-" else lit "+") ++
              digit_chars (N_digits (Z.abs_N (n - 1))) ++ rest), (n - 1)%Z.
      split; [|split; [|split]].
      * rewrite <- !app_assoc.
        apply (parse_int_part_digits d [] _ Hd1 Hd). reflexivity.
      * apply (parse_frac_part_digits (d' :: ds'')); [exact Hds'|discriminate|reflexivity].
      * apply parse_exp_part_digits. exact Hstop.
      * rewrite E in Hn. exact Hn.
Qed.

Lemma parse_int_part_head (s : jsstring) (r : list N * jsstring) :
  parse_int_part s = Some r ->
  exists c t, s = c :: t /\ is_digit_char c = true.
Proof.
  destruct s as [|c t]; [discriminate|]. cbn [parse_int_part].
  destruct (N.eqb_spec c 48) as [->|_]; [intros _; now exists 48, t|].
  destruct (is_digit_char c) eqn:E; [|discriminate].
  intros _. now exists c, t.
Qed.

Lemma parse_decimal_toString (x : decimal) (rest : jsstring) :
  wf_decimal x = true ->
  number_end rest = true ->
  parse_decimal (decimal_toString x ++ rest) = Some (x, rest).
Proof.
  intros Hwf Hend. destruct x as [|neg ds n].
  - change (decimal_toString Dec0 ++ rest) with (48 :: rest).
    unfold parse_decimal. change (48 =? 45) with false. cbv iota.
    cbn [parse_int_part]. change (48 =? 48) with true. cbv iota.
    rewrite (parse_frac_part_none _ Hend), (parse_exp_part_none _ Hend).
    reflexivity.
  - destruct (unsigned_parts neg ds n rest Hwf Hend)
      as (ip & s2 & fp & s3 & e & Hi & Hf & He & Hn).
    destruct neg.
    + change (decimal_toString (DecD true ds n))
        with (45 :: decimal_toString (DecD false ds n)).
      unfold parse_decimal. cbn [app]. change (45 =? 45) with true. cbv iota.
      now rewrite Hi, Hf, He, Hn.
    + destruct (parse_int_part_head _ _ Hi) as (c & t & Ec & Hc).
      unfold parse_decimal. rewrite Ec in *.
      replace (c =? 45) with false.
      * now rewrite Hi, Hf, He, Hn.
      * symmetry. apply N.eqb_neq. intros ->. discriminate Hc.
Qed.

(** ** Canonical decimals and their value *)

Lemma drop_zeros_suffix (l : list N) : exists p, l = p ++ drop_zeros l.
Proof.
  induction l as [|d l [p IH]]; [now exists []|].
  cbn [drop_zeros]. destruct (d =? 0).
  - exists (d :: p). cbn [app]. now rewrite <- IH.
  - now exists [].
Qed.

Lemma drop_zeros_head_nonzero (l : list N) :
  match drop_zeros l with
  | [] => True
  | z :: _ => z <> 0
  end.
Proof.
  induction l as [|d l IH]; [exact I|].
  cbn [drop_zeros]. destruct (N.eqb_spec d 0) as [_|H]; [exact IH | exact H].
Qed.

Lemma all_digits_drop_zeros (l : list N) :
  all_digits l = true -> all_digits (drop_zeros l) = true.
Proof.
  intros H. destruct (drop_zeros_suffix l) as [p E].
  rewrite E, all_digits_app in H. now apply andb_true_iff in H.
Qed.

Lemma all_digits_rev (l : list N) : all_digits (rev l) = all_digits l.
Proof.
  induction l as [|d l IH]; [reflexivity|].
  cbn [rev]. rewrite all_digits_app, IH. unfold all_digits. simpl.
  rewrite andb_true_r. apply andb_comm.
Qed.

Lemma drop_zeros_snoc (a : list N) (d : N) :
  d <> 0 -> drop_zeros (a ++ [d]) = drop_zeros a ++ [d].
Proof.
  intros Hd. induction a as [|x a IH].
  - simpl. now rewrite (proj2 (N.eqb_neq d 0) Hd).
  - cbn [app drop_zeros]. destruct (x =? 0); [exact IH | reflexivity].
Qed.

Lemma normalize_wf (neg : bool) (ds : list N) (n : Z) :
  all_digits ds = true -> wf_decimal (normalize neg ds n) = true.
Proof.
  intros Hall. unfold normalize. cbv zeta.
  pose proof (all_digits_drop_zeros ds Hall) as H1.
  pose proof (drop_zeros_head_nonzero ds) as Hh.
  destruct (drop_zeros ds) as [|d t] eqn:E1.
  - reflexivity.
  - unfold strip_zeros. cbn [rev]. rewrite (drop_zeros_snoc _ _ Hh).
    rewrite rev_app_distr. cbn [rev app].
    assert (Ht : all_digits (rev (drop_zeros (rev t))) = true).
    { rewrite all_digits_rev. apply all_digits_drop_zeros.
      rewrite all_digits_rev. unfold all_digits in *. simpl in H1.
      now apply andb_true_iff in H1. }
    assert (Hd10 : (d <? 10) = true).
    { unfold all_digits in H1. simpl in H1. now apply andb_true_iff in H1. }
    cbn [wf_decimal]. unfold all_digits at 1. cbn [forallb].
    fold (all_digits (rev (drop_zeros (rev t)))). rewrite Hd10, Ht.
    rewrite (proj2 (N.eqb_neq d 0) Hh). cbn [negb andb].
    pose proof (drop_zeros_head_nonzero (rev t)) as Hz.
    destruct (drop_zeros (rev t)) as [|z u].
    + cbn [rev last]. now rewrite (proj2 (N.eqb_neq d 0) Hh).
    + cbn [rev]. change (d :: rev u ++ [z]) with ((d :: rev u) ++ [z]).
      rewrite last_last. now rewrite (proj2 (N.eqb_neq z 0) Hz).
Qed.

Lemma digits_value_zeros (a : nat) (l : list N) :
  digits_value (zeros a ++ l) = digits_value l.
Proof.
  unfold digits_value. induction a as [|a IH]; [reflexivity|].
  cbn [zeros repeat app fold_left]. exact IH.
Qed.

Lemma drop_zeros_split (l : list N) :
  exists a, l = zeros a ++ drop_zeros l.
Proof.
  induction l as [|d l [a IH]]; [now exists 0%nat|].
  cbn [drop_zeros]. destruct (N.eqb_spec d 0) as [->|_].
  - exists (S a). cbn [zeros repeat app]. f_equal. exact IH.
  - now exists 0%nat.
Qed.

Lemma strip_zeros_split (l : list N) :
  exists b, l = strip_zeros l ++ zeros b.
Proof.
  destruct (drop_zeros_split (rev l)) as [b E]. exists b.
  unfold strip_zeros. rewrite <- (rev_involutive l) at 1.
  rewrite E at 1. now rewrite rev_app_distr, rev_zeros.
Qed.

Lemma length_zeros (a : nat) : length (zeros a) = a.
Proof. apply repeat_length. Qed.

Lemma decimal_of_Z_wf (z : Z) : wf_decimal (decimal_of_Z z) = true.
Proof. apply normalize_wf, N_digits_all_digits. Qed.

(** ** Binary64: rounding a decimal, printing a number *)

Local Open Scope Z_scope.

Lemma number_eqb_eq (x y : number) : number_eqb x y = true -> x = y.
Proof.
  destruct x as [|n m e|n], y as [|n' m' e'|n']; cbn [number_eqb];
    try discriminate; try reflexivity.
  - intros H. apply andb_true_iff in H as [H He].
    apply andb_true_iff in H as [Hn Hm].
    apply Bool.eqb_prop in Hn. apply Z.eqb_eq in Hm, He. now subst.
  - intros H. apply Bool.eqb_prop in H. now subst.
Qed.

Lemma pow2_pos (k : Z) : 0 <= k -> 0 < 2 ^ k.
Proof. intros H. apply Z.pow_pos_nonneg; lia. Qed.

Lemma pow2_le_shift (b p q K : Z) :
  0 <= K -> 0 <= K + b ->
  (pow2_le b p q = true <-> q * 2 ^ (K + b) <= p * 2 ^ K).
Proof.
  intros HK HKb. unfold pow2_le. rewrite Z.leb_le.
  destruct (Z.le_gt_cases 0 b) as [Hb|Hb].
  - rewrite (Z.max_l b 0), (Z.max_r (- b) 0) by lia.
    rewrite Z.pow_add_r by lia. change (2 ^ 0) with 1.
    pose proof (pow2_pos K HK). pose proof (pow2_pos b Hb).
    split; intros; nia.
  - rewrite (Z.max_r b 0), (Z.max_l (- b) 0) by lia.
    replace K with ((K + b) + - b) at 2 by lia.
    rewrite (Z.pow_add_r 2 (K + b) (- b)) by lia. change (2 ^ 0) with 1.
    pose proof (pow2_pos (K + b) HKb).
    assert (0 < 2 ^ (- b)) by (apply pow2_pos; lia).
    split; intros; nia.
Qed.

Lemma pow2_le_mono (b b' p q : Z) :
  0 <= q -> b' <= b -> pow2_le b p q = true -> pow2_le b' p q = true.
Proof.
  intros Hq Hb H.
  assert (HK : 0 <= Z.max (- b') 0) by lia.
  apply (pow2_le_shift b' p q _ HK); [lia|].
  apply (pow2_le_shift b p q _ HK) in H; [|lia].
  assert (2 ^ (Z.max (- b') 0 + b') <= 2 ^ (Z.max (- b') 0 + b))
    by (apply Z.pow_le_mono_r; lia).
  nia.
Qed.

Lemma binade_spec (p q : Z) :
  0 < p -> 0 < q ->
  pow2_le (binade p q) p q = true /\ pow2_le (binade p q + 1) p q = false.
Proof.
  intros Hp Hq.
  destruct (Z.log2_spec p Hp) as [Hp1 Hp2].
  destruct (Z.log2_spec q Hq) as [Hq1 Hq2].
  pose proof (Z.log2_nonneg p) as Lp. pose proof (Z.log2_nonneg q) as Lq.
  set (lp := Z.log2 p) in *. set (lq := Z.log2 q) in *.
  assert (HK : 0 <= lq + 1) by lia.
  assert (Hlow : pow2_le (lp - lq - 1) p q = true).
  { apply (pow2_le_shift _ p q _ HK); [lia|].
    replace (lq + 1 + (lp - lq - 1)) with lp by lia.
    pose proof (pow2_pos lp Lp). nia. }
  assert (Hup : pow2_le (lp - lq + 1) p q = false).
  { apply not_true_iff_false. intros H.
    apply (pow2_le_shift _ p q _ HK) in H; [|lia].
    replace (lq + 1 + (lp - lq + 1)) with (Z.succ lp + 1) in H by lia.
    rewrite (Z.pow_add_r 2 (Z.succ lp) 1) in H by lia.
    rewrite (Z.pow_add_r 2 lq 1) in H by lia.
    change (2 ^ 1) with 2 in H.
    pose proof (pow2_pos lq Lq). pose proof (pow2_pos (Z.succ lp) ltac:(lia)).
    nia. }
  unfold binade. fold lp lq.
  destruct (pow2_le (lp - lq) p q) eqn:E.
  - now split.
  - split; [exact Hlow|]. now replace (lp - lq - 1 + 1) with (lp - lq) by lia.
Qed.

Lemma binade_unique (b p q : Z) :
  0 < p -> 0 < q ->
  pow2_le b p q = true -> pow2_le (b + 1) p q = false -> binade p q = b.
Proof.
  intros Hp Hq H1 H2. destruct (binade_spec p q Hp Hq) as [B1 B2].
  destruct (Z.lt_trichotomy (binade p q) b) as [H|[H|H]]; [|exact H|].
  - rewrite (pow2_le_mono b (binade p q + 1) p q) in B2; [discriminate|lia|lia|exact H1].
  - rewrite (pow2_le_mono (binade p q) (b + 1) p q) in H2; [discriminate|lia|lia|exact B1].
Qed.

(** Scaling by the exponent: [2^j <= (p / q) / 2^e]. *)
Lemma scaled_pow2_le (j e p q : Z) :
  0 <= j ->
  (2 ^ j * (q * 2 ^ Z.max e 0) <= p * 2 ^ Z.max (- e) 0 <->
   pow2_le (j + e) p q = true).
Proof.
  intros Hj.
  rewrite (pow2_le_shift (j + e) p q (Z.max (- e) 0)) by lia.
  destruct (Z.le_gt_cases 0 e) as [He|He].
  - rewrite (Z.max_l e 0), (Z.max_r (- e) 0) by lia.
    replace (0 + (j + e)) with (j + e) by lia.
    rewrite Z.pow_add_r by lia. split; intros; nia.
  - rewrite (Z.max_r e 0), (Z.max_l (- e) 0) by lia.
    replace (- e + (j + e)) with j by lia. change (2 ^ 0) with 1.
    split; intros; nia.
Qed.

Lemma round_half_even_bounds (num den : Z) :
  num / den <= round_half_even num den <= num / den + 1.
Proof.
  unfold round_half_even.
  destruct (2 * (num mod den) <? den); [lia|].
  destruct (den <? 2 * (num mod den)); [lia|].
  destruct (Z.even (num / den)); lia.
Qed.

Lemma round_half_even_exact (m den : Z) :
  0 < den -> round_half_even (m * den) den = m.
Proof.
  intros H. unfold round_half_even.
  rewrite Z.div_mul, Z.mod_mul by lia.
  destruct (Z.ltb_spec (2 * 0) den); [reflexivity|lia].
Qed.

Lemma round_ratio_wf (neg : bool) (p q : Z) :
  0 < p -> 0 < q -> wf_number (round_ratio neg p q) = true.
Proof.
  intros Hp Hq. unfold round_ratio.
  destruct (binade_spec p q Hp Hq) as [B1 B2].
  set (b := binade p q) in *.
  set (e := Z.max (b - 52) (-1074)).
  set (num := p * 2 ^ Z.max (- e) 0). set (den := q * 2 ^ Z.max e 0).
  assert (Hden : 0 < den).
  { unfold den. pose proof (pow2_pos (Z.max e 0) ltac:(lia)). nia. }
  assert (Hnum : 0 < num).
  { unfold num. pose proof (pow2_pos (Z.max (- e) 0) ltac:(lia)). nia. }
  assert (Hfl_up : num / den < 2 ^ 53).
  { apply Z.div_lt_upper_bound; [exact Hden|].
    apply Z.nle_gt. intros H.
    assert (H' : 2 ^ 53 * den <= num) by lia.
    apply (scaled_pow2_le 53 e p q) in H'; [|lia].
    rewrite (pow2_le_mono (53 + e) (b + 1) p q) in B2;
      [discriminate|lia|unfold e; lia|exact H']. }
  assert (Hfl_lo : 0 <= num / den) by (apply Z.div_pos; lia).
  assert (Hnormal : e = b - 52 -> 2 ^ 52 <= num / den).
  { intros He. apply Z.div_le_lower_bound; [exact Hden|].
    rewrite Z.mul_comm. apply (scaled_pow2_le 52 e p q); [lia|].
    now replace (52 + e) with b by lia. }
  pose proof (round_half_even_bounds num den) as Hr.
  set (m := round_half_even num den) in *.
  destruct (Z.eqb_spec m (2 ^ 53)) as [Hm|Hm].
  - destruct (Z.ltb_spec 971 (e + 1)) as [He|He]; [reflexivity|].
    change (2 ^ 52 =? 0) with false. cbv iota. cbn [wf_number].
    change (0 <? 2 ^ 52) with true. change (2 ^ 52 <? 2 ^ 53) with true.
    change (2 ^ 52 <=? 2 ^ 52) with true. cbn [andb orb].
    rewrite andb_true_r.
    apply andb_true_iff. split; [apply Z.leb_le; unfold e; lia|apply Z.leb_le; lia].
  - destruct (Z.ltb_spec 971 e) as [He|He]; [reflexivity|].
    destruct (Z.eqb_spec m 0) as [Hz|Hz]; [reflexivity|].
    cbn [wf_number].
    repeat (apply andb_true_iff; split).
    + apply Z.ltb_lt. lia.
    + apply Z.ltb_lt. lia.
    + apply Z.leb_le. unfold e. lia.
    + apply Z.leb_le. lia.
    + apply orb_true_iff.
      destruct (Z.eq_dec e (-1074)) as [E|E].
      * right. now apply Z.eqb_eq.
      * left. apply Z.leb_le.
        assert (e = b - 52) by (unfold e in *; lia).
        specialize (Hnormal H). lia.
Qed.

Lemma round_ratio_exact (neg : bool) (m e p q : Z) :
  wf_number (NumF neg m e) = true ->
  0 < p -> 0 < q ->
  p * 2 ^ Z.max (- e) 0 = m * (q * 2 ^ Z.max e 0) ->
  round_ratio neg p q = NumF neg m e.
Proof.
  cbn [wf_number]. intros Hwf Hp Hq Hv.
  repeat (apply andb_true_iff in Hwf as [Hwf ?]).
  apply Z.ltb_lt in Hwf. 
  match goal with H : (m <? _) = true |- _ => apply Z.ltb_lt in H end.
  match goal with H : (_ <=? e) = true |- _ => apply Z.leb_le in H end.
  match goal with H : (e <=? _) = true |- _ => apply Z.leb_le in H end.
  match goal with H : (_ || _) = true |- _ => apply orb_true_iff in H;
    rename H into Hnorm end.
  rewrite Z.leb_le, Z.eqb_eq in Hnorm.
  assert (Hden : 0 < q * 2 ^ Z.max e 0).
  { pose proof (pow2_pos (Z.max e 0) ltac:(lia)). nia. }
  destruct (Z.log2_spec m Hwf) as [L1 L2].
  pose proof (Z.log2_nonneg m) as L0.
  assert (Hb : binade p q = Z.log2 m + e).
  { apply binade_unique; try assumption.
    - apply (scaled_pow2_le (Z.log2 m) e p q); [lia|]. rewrite Hv. nia.
    - apply not_true_iff_false. intros H'.
      replace (Z.log2 m + e + 1) with (Z.succ (Z.log2 m) + e) in H' by lia.
      apply (scaled_pow2_le (Z.succ (Z.log2 m)) e p q) in H'; [|lia].
      rewrite Hv in H'. nia. }
  assert (Hlog : Z.log2 m < 53).
  { apply Z.log2_lt_pow2; lia. }
  assert (He : Z.max (binade p q - 52) (-1074) = e).
  { rewrite Hb. destruct Hnorm as [Hn|Hn].
    - assert (52 <= Z.log2 m) by (apply Z.log2_le_pow2; lia). lia.
    - lia. }
  unfold round_ratio. rewrite He, Hv, (round_half_even_exact m _ Hden).
  destruct (Z.eqb_spec m (2 ^ 53)) as [E|_]; [lia|].
  destruct (Z.ltb_spec 971 e) as [E|_]; [lia|].
  destruct (Z.eqb_spec m 0) as [E|_]; [lia|]. reflexivity.
Qed.

Lemma digits_value_app_zeros (l : list N) (z : nat) :
  digits_value (l ++ zeros z) = (digits_value l * 10 ^ N.of_nat z)%N.
Proof.
  induction z as [|z IH].
  - cbn [zeros repeat]. rewrite app_nil_r. change (10 ^ N.of_nat 0)%N with 1%N. lia.
  - unfold zeros in *. cbn [repeat]. rewrite repeat_cons, app_assoc.
    rewrite digits_value_snoc, IH, Nnat.Nat2N.inj_succ, N.pow_succ_r'. lia.
Qed.

Lemma digits_value_head (d : N) (t : list N) :
  d <> 0%N -> digits_value (d :: t) <> 0%N.
Proof.
  intros Hd. unfold digits_value. cbn [fold_left].
  change (0 * 10 + d)%N with d.
  assert (H : forall acc, acc <> 0%N ->
              fold_left (fun acc d => (acc * 10 + d)%N) t acc <> 0%N).
  { induction t as [|x t IH]; intros acc Ha; [exact Ha|].
    cbn [fold_left]. apply IH. lia. }
  now apply H.
Qed.

(** What [normalize] keeps: the value [0.ds * 10^n]. *)
Lemma normalize_value (neg : bool) (ds : list N) (n : Z) :
  match normalize neg ds n with
  | Dec0 => digits_value ds = 0%N
  | DecD neg' D n' =>
      neg' = neg /\ digits_value D <> 0%N /\
      exists z : nat,
        digits_value ds = (digits_value D * 10 ^ N.of_nat z)%N /\
        n' - Z.of_nat (length D) = n - Z.of_nat (length ds) + Z.of_nat z
  end.
Proof.
  unfold normalize. cbv zeta.
  destruct (drop_zeros_split ds) as [a Ea].
  destruct (strip_zeros_split (drop_zeros ds)) as [b Eb].
  pose proof (drop_zeros_head_nonzero ds) as Hh.
  assert (Hv : digits_value ds = digits_value (strip_zeros (drop_zeros ds) ++ zeros b)).
  { rewrite <- Eb. rewrite Ea at 1. apply digits_value_zeros. }
  assert (Hlen : length ds = (a + length (drop_zeros ds))%nat).
  { rewrite Ea at 1. now rewrite length_app, length_zeros. }
  assert (Hlen1 : length (drop_zeros ds) =
                  (length (strip_zeros (drop_zeros ds)) + b)%nat).
  { rewrite Eb at 1. now rewrite length_app, length_zeros. }
  destruct (strip_zeros (drop_zeros ds)) as [|d t] eqn:E.
  - rewrite Hv. cbn [app]. rewrite <- (app_nil_r (zeros b)).
    now rewrite digits_value_zeros.
  - split; [reflexivity|]. split.
    + apply digits_value_head. rewrite Eb in Hh. exact Hh.
    + exists b. split.
      * rewrite Hv. apply digits_value_app_zeros.
      * lia.
Qed.

Lemma to_number_exact (neg : bool) (D : list N) (n m e : Z) :
  wf_number (NumF neg m e) = true ->
  digits_value D <> 0%N ->
  Z.of_N (digits_value D) * 10 ^ Z.max (n - Z.of_nat (length D)) 0 *
    2 ^ Z.max (- e) 0 =
  m * (10 ^ Z.max (- (n - Z.of_nat (length D))) 0 * 2 ^ Z.max e 0) ->
  to_number (DecD neg D n) = NumF neg m e.
Proof.
  intros Hwf Hd Hv. unfold to_number. cbv zeta.
  apply round_ratio_exact; try assumption.
  - assert (0 < 10 ^ Z.max (n - Z.of_nat (length D)) 0)
      by (apply Z.pow_pos_nonneg; lia).
    nia.
  - apply Z.pow_pos_nonneg; lia.
Qed.

Lemma pow10_split (k : Z) : 0 <= k -> 10 ^ k = 2 ^ k * 5 ^ k.
Proof. intros H. now rewrite <- Z.pow_mul_l. Qed.

(** The decimal expansion stands for the number. *)
Lemma decimal_binary_eq (dv z q m e : Z) :
  0 <= z -> 0 < m ->
  q = Z.min e 0 + z ->
  dv * 10 ^ z = (if 0 <=? e then m * 2 ^ e else m * 5 ^ (- e)) ->
  dv * 10 ^ Z.max q 0 * 2 ^ Z.max (- e) 0 =
  m * (10 ^ Z.max (- q) 0 * 2 ^ Z.max e 0).
Proof.
  intros Hz Hm Hq Hv.
  destruct (Z.leb_spec 0 e) as [He|He].
  - rewrite Z.min_r in Hq by lia. subst q.
    rewrite (Z.max_l (0 + z)), (Z.max_r (- e)), (Z.max_r (- (0 + z))), (Z.max_l e)
      by lia.
    change (2 ^ 0) with 1. change (10 ^ 0) with 1.
    replace (0 + z) with z by lia. lia.
  - rewrite Z.min_l in Hq by lia.
    rewrite (Z.max_l (- e)), (Z.max_r e) by lia. change (2 ^ 0) with 1.
    set (a := - e) in *. assert (Ha : 0 < a) by lia.
    assert (P5 : 0 < 5 ^ a) by (apply Z.pow_pos_nonneg; lia).
    destruct (Z.le_gt_cases 0 q) as [Hq0|Hq0].
    + rewrite (Z.max_l q), (Z.max_r (- q)) by lia. change (10 ^ 0) with 1.
      replace z with (q + a) in Hv by lia.
      rewrite Z.pow_add_r, (pow10_split a) in Hv by lia.
      assert (dv * 10 ^ q * 2 ^ a * 5 ^ a = m * 5 ^ a) by lia.
      nia.
    + rewrite (Z.max_r q), (Z.max_l (- q)) by lia. change (10 ^ 0) with 1.
      set (c := - q) in *.
      assert (E2 : 2 ^ a = 2 ^ z * 2 ^ c)
        by (rewrite <- Z.pow_add_r by lia; f_equal; lia).
      assert (E5 : 5 ^ a = 5 ^ z * 5 ^ c)
        by (rewrite <- Z.pow_add_r by lia; f_equal; lia).
      rewrite E5, (pow10_split z) in Hv by lia.
      rewrite E2, (pow10_split c) by lia.
      assert (P5z : 0 < 5 ^ z) by (apply Z.pow_pos_nonneg; lia).
      assert (dv * 2 ^ z = m * 5 ^ c) by nia.
      nia.
Qed.

Lemma wf_number_pos (neg : bool) (m e : Z) :
  wf_number (NumF neg m e) = true -> 0 < m.
Proof.
  cbn [wf_number]. intros H. repeat (apply andb_true_iff in H as [H _]).
  now apply Z.ltb_lt.
Qed.

Lemma exact_decimal_number (neg : bool) (m e : Z) :
  wf_number (NumF neg m e) = true ->
  wf_decimal (exact_decimal neg m e) = true /\
  to_number (exact_decimal neg m e) = NumF neg m e /\
  match exact_decimal neg m e with
  | DecD neg' _ _ => neg' = neg
  | Dec0 => False
  end.
Proof.
  intros Hwf. pose proof (wf_number_pos _ _ _ Hwf) as Hm.
  unfold exact_decimal. cbv zeta.
  set (s := if 0 <=? e then m * 2 ^ e else m * 5 ^ (- e)).
  assert (Hs : 0 < s).
  { unfold s. destruct (Z.leb_spec 0 e).
    - assert (0 < 2 ^ e) by (apply Z.pow_pos_nonneg; lia). nia.
    - assert (0 < 5 ^ (- e)) by (apply Z.pow_pos_nonneg; lia). nia. }
  set (ds := N_digits (Z.to_N s)).
  split; [apply normalize_wf, N_digits_all_digits|].
  pose proof (normalize_value neg ds (Z.of_nat (length ds) + Z.min e 0)) as Hn.
  destruct (normalize neg ds _) as [|neg' D n'].
  - unfold ds in Hn. rewrite N_digits_value in Hn. lia.
  - destruct Hn as (-> & Hd & z & Hv & Hq). split; [|reflexivity].
    apply to_number_exact; [exact Hwf|exact Hd|].
    apply (decimal_binary_eq _ (Z.of_nat z)); [lia|exact Hm|lia|].
    fold s. unfold ds in Hv. rewrite N_digits_value in Hv.
    apply (f_equal Z.of_N) in Hv. rewrite Z2N.id in Hv by lia.
    rewrite Hv, N2Z.inj_mul, N2Z.inj_pow, nat_N_Z. reflexivity.
Qed.

Lemma shortest_from_sound (x : number) (neg : bool) (D : list N) (n : Z)
  (fuel : nat) :
  forall k,
    to_number (DecD neg D n) = x ->
    to_number (shortest_from x neg D n k fuel) = x.
Proof.
  induction fuel as [|f IH]; intros k Hx; [exact Hx|].
  cbn [shortest_from]. cbv zeta.
  destruct (number_eqb (to_number (normalize neg (firstn k D) n)) x) eqn:Elo;
    destruct (number_eqb (to_number (normalize neg
               (N_digits (digits_value (firstn k D) + 1)) _)) x) eqn:Ehi;
    cbn [andb negb orb].
  - destruct (match (2 * digits_value (skipn k D) ?= _)%N with
              | Eq => _ | Lt => _ | Gt => _ end).
    + now apply number_eqb_eq.
    + now apply number_eqb_eq.
  - now apply number_eqb_eq.
  - now apply number_eqb_eq.
  - now apply IH.
Qed.

Lemma shortest_from_wf (x : number) (neg : bool) (D : list N) (n : Z)
  (fuel : nat) :
  forall k,
    wf_decimal (DecD neg D n) = true ->
    wf_decimal (shortest_from x neg D n k fuel) = true.
Proof.
  induction fuel as [|f IH]; intros k Hwf; [exact Hwf|].
  pose proof (wf_decimal_inv _ _ _ Hwf) as (Hall & _).
  cbn [shortest_from]. cbv zeta.
  destruct (_ && _).
  - apply normalize_wf. now apply all_digits_firstn_skipn.
  - destruct (number_eqb _ x).
    + apply normalize_wf, N_digits_all_digits.
    + now apply IH.
Qed.

Lemma shortest_wf (x : number) :
  wf_number x = true -> wf_decimal (shortest x) = true.
Proof.
  intros Hwf. destruct x as [|neg m e|neg]; try reflexivity.
  destruct (exact_decimal_number neg m e Hwf) as (Hw & _ & Hn).
  unfold shortest. destruct (exact_decimal neg m e) as [|neg' D n]; [reflexivity|].
  subst neg'. now apply shortest_from_wf.
Qed.

Lemma to_number_shortest (neg : bool) (m e : Z) :
  wf_number (NumF neg m e) = true ->
  to_number (shortest (NumF neg m e)) = NumF neg m e.
Proof.
  intros Hwf. destruct (exact_decimal_number neg m e Hwf) as (_ & Hv & Hn).
  unfold shortest.
  destruct (exact_decimal neg m e) as [|neg' D n]; [destruct Hn|].
  subst neg'. now apply shortest_from_sound.
Qed.

Lemma to_number_wf (d : decimal) :
  wf_decimal d = true -> wf_number (to_number d) = true.
Proof.
  destruct d as [|neg ds n]; [reflexivity|]. intros Hwf.
  apply wf_decimal_inv in Hwf as (_ & (d & t & -> & Hd) & _).
  unfold to_number. cbv zeta. apply round_ratio_wf.
  - pose proof (digits_value_head d t Hd).
    assert (0 < 10 ^ Z.max (n - Z.of_nat (length (d :: t))) 0)
      by (apply Z.pow_pos_nonneg; lia).
    nia.
  - apply Z.pow_pos_nonneg; lia.
Qed.

Lemma parse_number_toString (x : number) (rest : jsstring) :
  wf_number x = true -> finite x = true ->
  number_end rest = true ->
  parse_number (Number_toString x ++ rest) = Some (x, rest).
Proof.
  intros Hwf Hfin Hend. unfold parse_number.
  destruct x as [|neg m e|neg]; [| |discriminate Hfin].
  - change (Number_toString Num0) with (decimal_toString Dec0).
    now rewrite parse_decimal_toString.
  - change (Number_toString (NumF neg m e))
      with (decimal_toString (shortest (NumF neg m e))).
    rewrite parse_decimal_toString; [|now apply shortest_wf|exact Hend].
    now rewrite to_number_shortest.
Qed.

Lemma number_of_Z_wf (z : Z) : wf_number (number_of_Z z) = true.
Proof. apply to_number_wf, decimal_of_Z_wf. Qed.

(** An integer below [2^53] in magnitude is a Number. *)
Lemma number_of_Z_exact (z : Z) :
  z <> 0 -> Z.abs z < 2 ^ 53 ->
  number_of_Z z =
  NumF (z <? 0) (Z.abs z * 2 ^ (52 - Z.log2 (Z.abs z))) (Z.log2 (Z.abs z) - 52).
Proof.
  intros Hz Hb. set (a := Z.abs z) in *. assert (Ha : 0 < a) by lia.
  destruct (Z.log2_spec a Ha) as [L1 L2].
  pose proof (Z.log2_nonneg a) as L0.
  assert (L53 : Z.log2 a < 53) by (apply Z.log2_lt_pow2; lia).
  set (L := Z.log2 a) in *.
  assert (P : 0 < 2 ^ (52 - L)) by (apply Z.pow_pos_nonneg; lia).
  assert (E52 : 2 ^ 52 = 2 ^ L * 2 ^ (52 - L))
    by (rewrite <- Z.pow_add_r by lia; f_equal; lia).
  assert (E53 : 2 ^ 53 = 2 ^ Z.succ L * 2 ^ (52 - L))
    by (rewrite <- Z.pow_add_r by lia; f_equal; lia).
  assert (Hwf : wf_number (NumF (z <? 0) (a * 2 ^ (52 - L)) (L - 52)) = true).
  { cbn [wf_number]. repeat (apply andb_true_iff; split).
    - apply Z.ltb_lt. nia.
    - apply Z.ltb_lt. rewrite E53. nia.
    - apply Z.leb_le. lia.
    - apply Z.leb_le. lia.
    - apply orb_true_iff. left. apply Z.leb_le. rewrite E52. nia. }
  unfold number_of_Z, decimal_of_Z. cbv zeta.
  pose proof (normalize_value (z <? 0) (N_digits (Z.abs_N z))
                (Z.of_nat (length (N_digits (Z.abs_N z))))) as Hn.
  destruct (normalize _ _ _) as [|neg' D n'].
  - rewrite N_digits_value in Hn. lia.
  - destruct Hn as (-> & Hd & k & Hv & Hq).
    apply to_number_exact; [exact Hwf|exact Hd|].
    rewrite N_digits_value in Hv. apply (f_equal Z.of_N) in Hv.
    rewrite N2Z.inj_abs_N, N2Z.inj_mul, N2Z.inj_pow, nat_N_Z in Hv. fold a in Hv.
    replace (n' - Z.of_nat (length D)) with (Z.of_nat k) by lia.
    rewrite (Z.max_l (Z.of_nat k)), (Z.max_r (- Z.of_nat k)),
            (Z.max_l (- (L - 52))), (Z.max_r (L - 52)) by lia.
    change (10 ^ 0) with 1. change (2 ^ 0) with 1.
    replace (- (L - 52)) with (52 - L) by lia.
    change (Z.of_N 10) with 10 in Hv. rewrite Hv. ring.
Qed.

Lemma NumF_inj (n n' : bool) (m m' e e' : Z) :
  NumF n m e = NumF n' m' e' -> n = n' /\ m = m' /\ e = e'.
Proof. intros H. now injection H. Qed.

Lemma number_of_Z_zero : number_of_Z 0 = Num0.
Proof. reflexivity. Qed.

Lemma number_of_Z_injective (z z' : Z) :
  Z.abs z < 2 ^ 53 -> Z.abs z' < 2 ^ 53 ->
  number_of_Z z = number_of_Z z' -> z = z'.
Proof.
  intros Hb Hb' E.
  destruct (Z.eq_dec z 0) as [->|Hz], (Z.eq_dec z' 0) as [->|Hz'].
  - reflexivity.
  - rewrite number_of_Z_zero, (number_of_Z_exact z' Hz' Hb') in E. discriminate.
  - rewrite number_of_Z_zero, (number_of_Z_exact z Hz Hb) in E. discriminate.
  - rewrite (number_of_Z_exact z Hz Hb), (number_of_Z_exact z' Hz' Hb') in E.
    apply NumF_inj in E as (Es & Em & Ee).
    assert (EL : Z.log2 (Z.abs z) = Z.log2 (Z.abs z')) by lia.
    rewrite EL in Em.
    assert (P : 0 < 2 ^ (52 - Z.log2 (Z.abs z'))).
    { apply Z.pow_pos_nonneg; [lia|].
      assert (Z.log2 (Z.abs z') < 53) by (apply Z.log2_lt_pow2; lia). lia. }
    assert (Z.abs z = Z.abs z') by nia.
    destruct (Z.ltb_spec z 0), (Z.ltb_spec z' 0); try discriminate; lia.
Qed.

Lemma finite_number_of_Z (z : Z) :
  Z.abs z < 2 ^ 53 -> finite (number_of_Z z) = true.
Proof.
  intros H. destruct (Z.eq_dec z 0) as [->|Hz]; [reflexivity|].
  now rewrite number_of_Z_exact.
Qed.

Local Close Scope Z_scope.

(** ** Induction on values *)

Lemma json_induction (P : json -> Prop) :
  P JNull ->
  (forall b, P (JBool b)) ->
  (forall x, P (JNum x)) ->
  (forall s, P (JStr s)) ->
  (forall l, Forall P l -> P (JArr l)) ->
  (forall l, Forall (fun kv => P (snd kv)) l -> P (JObj l)) ->
  forall v, P v.
Proof.
  intros Hnull Hbool Hnum Hstr Harr Hobj.
  fix IH 1. intros [| b | x | s | l | l].
  - exact Hnull.
  - apply Hbool.
  - apply Hnum.
  - apply Hstr.
  - apply Harr. induction l as [|e l IHl]; constructor; [apply IH | exact IHl].
  - apply Hobj. induction l as [|[k e] l IHl]; constructor; [apply IH | exact IHl].
Qed.

(** ** Property order *)

Lemma has_key_app_distinct (acc : props) (k : jsstring) (ks : list jsstring) :
  keys_distinct (map fst acc ++ k :: ks) = true -> has_key k acc = false.
Proof.
  induction acc as [|[k' v'] acc IH]; [reflexivity|].
  cbn [map fst app keys_distinct has_key existsb]. intros H.
  apply andb_true_iff in H as [Hk' H].
  apply negb_true_iff in Hk'. rewrite existsb_app in Hk'.
  apply orb_false_iff in Hk' as [_ Hk']. cbn [existsb] in Hk'.
  apply orb_false_iff in Hk' as [Hk' _].
  apply str_eqb_neq in Hk'.
  replace (str_eqb k k') with false
    by (symmetry; apply str_eqb_neq; congruence).
  exact (IH H).
Qed.

Lemma insert_index_last (acc : props) (k : jsstring) (v : json) (i : N)
  (ks : list jsstring) :
  keys_ordered (map fst acc ++ k :: ks) = true ->
  array_index k = Some i ->
  insert_index i k v acc = acc ++ [(k, v)].
Proof.
  intros H Hi. induction acc as [|[k' v'] acc IH]; [reflexivity|].
  cbn [map fst app keys_ordered] in H. apply andb_true_iff in H as [H Hk'].
  cbn [insert_index app]. destruct (array_index k') as [j|].
  - rewrite forallb_app in Hk'. apply andb_true_iff in Hk' as [_ Hk'].
    cbn [forallb] in Hk'. rewrite Hi in Hk'.
    apply andb_true_iff in Hk' as [Hk' _]. apply N.leb_le in Hk'.
    replace (i <? j) with false by (symmetry; apply N.ltb_ge; exact Hk').
    now rewrite (IH H).
  - rewrite forallb_app in Hk'. apply andb_true_iff in Hk' as [_ Hk'].
    cbn [forallb] in Hk'. rewrite Hi in Hk'. discriminate.
Qed.

Lemma set_prop_last (acc : props) (k : jsstring) (v : json)
  (ks : list jsstring) :
  keys_distinct (map fst acc ++ k :: ks) = true ->
  keys_ordered (map fst acc ++ k :: ks) = true ->
  set_prop acc k v = acc ++ [(k, v)].
Proof.
  intros Hd Ho.
  unfold set_prop. rewrite (has_key_app_distinct _ _ _ Hd).
  destruct (array_index k) as [i|] eqn:Hi; [|reflexivity].
  exact (insert_index_last _ _ _ _ _ Ho Hi).
Qed.

(** ** White space and first characters *)

Lemma skip_ws_app (w s : jsstring) :
  all_ws w = true -> skip_ws (w ++ s) = skip_ws s.
Proof.
  induction w as [|c w IH]; [reflexivity|].
  unfold all_ws. cbn [forallb app skip_ws]. intros H.
  apply andb_true_iff in H as [Hc H]. rewrite Hc. exact (IH H).
Qed.

Lemma value_start_not_ws (c : N) : value_start c = true -> is_json_ws c = false.
Proof.
  unfold value_start, is_json_ws, is_digit_char. intros H.
  repeat match goal with
         | H : _ || _ = true |- _ => apply orb_true_iff in H as [H|H]
         | H : _ && _ = true |- _ => apply andb_true_iff in H as [? ?]
         | H : (_ =? _) = true |- _ => apply N.eqb_eq in H; subst
         | H : (_ <=? _) = true |- _ => apply N.leb_le in H
         end; try reflexivity.
  repeat (apply orb_false_iff; split); apply N.eqb_neq; lia.
Qed.

Lemma skip_ws_start (c : N) (t : jsstring) :
  value_start c = true -> skip_ws (c :: t) = c :: t.
Proof. intros H. cbn [skip_ws]. now rewrite (value_start_not_ws c H). Qed.

Lemma all_ws_app (a b : jsstring) : all_ws (a ++ b) = all_ws a && all_ws b.
Proof. apply forallb_app. Qed.

Lemma value_end_number_end (s : jsstring) :
  value_end s = true -> number_end s = true.
Proof.
  destruct s as [|c r]; [reflexivity|]. cbn [value_end number_end]. intros H.
  apply orb_true_iff in H as [H|H]; apply N.eqb_eq in H; subst; reflexivity.
Qed.

Lemma decimal_toString_start (x : decimal) :
  wf_decimal x = true ->
  exists c t, decimal_toString x = c :: t /\ ((c =? 45) || is_digit_char c) = true.
Proof.
  intros Hwf. destruct x as [|neg ds n]; [now exists 48, []|].
  destruct neg.
  - exists 45. eexists. split; [reflexivity | reflexivity].
  - destruct (unsigned_parts false ds n [] Hwf eq_refl)
      as (ip & s2 & fp & s3 & e & Hi & _).
    destruct (parse_int_part_head _ _ Hi) as (c & t & Ec & Hc).
    rewrite app_nil_r in Ec. exists c, t. split; [exact Ec|].
    rewrite Hc. apply orb_true_r.
Qed.

Lemma Number_toString_finite (x : number) :
  finite x = true -> Number_toString x = decimal_toString (shortest x).
Proof. destruct x; [reflexivity|reflexivity|discriminate]. Qed.

Lemma Number_toString_start (x : number) :
  wf_number x = true -> finite x = true ->
  exists c t, Number_toString x = c :: t /\ ((c =? 45) || is_digit_char c) = true.
Proof.
  intros Hwf Hfin. rewrite (Number_toString_finite x Hfin).
  apply decimal_toString_start. now apply shortest_wf.
Qed.

Lemma stringify_at_start (ind : jsstring) (v : json) :
  wf_json v = true ->
  exists c t, stringify_at ind v = c :: t /\ value_start c = true.
Proof.
  intros Hwf. destruct v as [| [|] | x | s | l | l].
  - now exists 110, (lit "ull").
  - now exists 116, (lit "rue").
  - now exists 102, (lit "alse").
  - cbn [stringify_at]. destruct (finite x) eqn:Hfin;
      [|now exists 110, (lit "ull")].
    destruct (Number_toString_start x Hwf Hfin) as (c & t & E & Hc).
    exists c, t. split; [exact E|]. unfold value_start.
    apply orb_true_iff in Hc as [Hc|Hc]; rewrite Hc;
      repeat rewrite ?orb_true_r, ?orb_true_l; reflexivity.
  - exists 34. eexists. split; reflexivity.
  - destruct l; exists 91; eexists; split; reflexivity.
  - destruct l; exists 123; eexists; split; reflexivity.
Qed.

Lemma join_cons (sep p : jsstring) (q : jsstring) (r : list jsstring) :
  join sep (p :: q :: r) = p ++ sep ++ join sep (q :: r).
Proof. reflexivity. Qed.

(** ** One step of the parser *)

Lemma parse_elements_S (f : nat) (acc : list json) (s : jsstring) :
  parse_elements (S f) acc s =
  match parse_value f s with
  | POk v rest =>
      match skip_ws rest with
      | [] => PFail
      | c :: r =>
          if c =? 44 then parse_elements f (v :: acc) (skip_ws r)
          else if c =? 93 then POk (JArr (rev (v :: acc))) r
          else PFail
      end
  | PFail => PFail
  | PFuel => PFuel
  end.
Proof. reflexivity. Qed.

Lemma parse_members_S (f : nat) (acc : props) (r : jsstring) :
  parse_members (S f) acc (34 :: r) =
  match parse_chars r with
  | None => PFail
  | Some (k, rest) =>
      match skip_ws rest with
      | [] => PFail
      | c1 :: r1 =>
          if c1 =? 58 then
            match parse_value f (skip_ws r1) with
            | POk v rest2 =>
                match skip_ws rest2 with
                | [] => PFail
                | c2 :: r2 =>
                    if c2 =? 44
                    then parse_members f (set_prop acc k v) (skip_ws r2)
                    else if c2 =? 125
                    then POk (JObj (set_prop acc k v)) r2
                    else PFail
                end
            | PFail => PFail
            | PFuel => PFuel
            end
          else PFail
      end
  end.
Proof. reflexivity. Qed.

Lemma parse_value_array (f : nat) (r : jsstring) :
  parse_value (S f) (91 :: r) =
  match skip_ws r with
  | [] => PFail
  | c1 :: r1 =>
      if c1 =? 93 then POk (JArr []) r1 else parse_elements f [] (c1 :: r1)
  end.
Proof. reflexivity. Qed.

Lemma parse_value_object (f : nat) (r : jsstring) :
  parse_value (S f) (123 :: r) =
  match skip_ws r with
  | [] => PFail
  | c1 :: r1 =>
      if c1 =? 125 then POk (JObj []) r1 else parse_members f [] (c1 :: r1)
  end.
Proof. reflexivity. Qed.

Lemma parse_value_string (f : nat) (r : jsstring) :
  parse_value (S f) (34 :: r) =
  match parse_chars r with
  | Some (t, rest) => POk (JStr t) rest
  | None => PFail
  end.
Proof. reflexivity. Qed.

Lemma parse_value_number (f : nat) (c : N) (r : jsstring) :
  ((c =? 45) || is_digit_char c) = true ->
  parse_value (S f) (c :: r) =
  match parse_number (c :: r) with
  | Some (x, rest) => POk (JNum x) rest
  | None => PFail
  end.
Proof.
  intros H. cbn [parse_value].
  assert (E : (c =? 123) = false /\ (c =? 91) = false /\ (c =? 34) = false /\
              (c =? 116) = false /\ (c =? 102) = false /\ (c =? 110) = false).
  { unfold is_digit_char in H.
    apply orb_true_iff in H as [H|H].
    - apply N.eqb_eq in H. subst. repeat split.
    - apply andb_true_iff in H as [H1 H2]. apply N.leb_le in H1, H2.
      repeat split; apply N.eqb_neq; lia. }
  destruct E as (E1 & E2 & E3 & E4 & E5 & E6).
  now rewrite E1, E2, E3, E4, E5, E6.
Qed.

Lemma skip_ws_nl_ind (ind s : jsstring) :
  all_ws ind = true -> skip_ws (nl ++ ind ++ s) = skip_ws s.
Proof.
  intros H. rewrite (skip_ws_app nl) by reflexivity. now apply skip_ws_app.
Qed.

Lemma join_stringify_start (sep ind : jsstring) (l : list json) :
  l <> [] -> forallb wf_json l = true ->
  exists c t,
    join sep (map (stringify_at ind) l) = c :: t /\ value_start c = true.
Proof.
  destruct l as [|e r]; [congruence|]. intros _ H.
  cbn [forallb] in H. apply andb_true_iff in H as [He _].
  destruct (stringify_at_start ind e He) as (c & t & E & Hc).
  cbn [map join]. rewrite E.
  destruct (map (stringify_at ind) r); eexists c, _; split; try exact Hc;
    reflexivity.
Qed.

(** ** Arrays *)

Lemma parse_elements_join (ind ind0 : jsstring) (l : list json) :
  Forall reads_back l ->
  all_ws ind = true -> all_ws ind0 = true ->
  forallb wf_json l = true -> l <> [] ->
  forall fuel acc rest,
    (list_sum (map (fun e => S (weight e)) l) <= fuel)%nat ->
    parse_elements fuel acc
      (join (lit "," ++ nl ++ ind) (map (stringify_at ind) l) ++
       nl ++ ind0 ++ lit "]" ++ rest) =
    POk (JArr (rev acc ++ map written l)) rest.
Proof.
  intros Hall Hind Hind0.
  induction Hall as [|e r He _ IH]; [congruence|].
  intros Hwf _ fuel acc rest Hfuel.
  cbn [forallb] in Hwf. apply andb_true_iff in Hwf as [Hwe Hwr].
  cbn [map list_sum] in Hfuel.
  destruct fuel as [|f]; [simpl in Hfuel; lia|].
  rewrite parse_elements_S.
  destruct r as [|e' r'].
  - cbn [map join].
    rewrite (He ind f (nl ++ ind0 ++ lit "]" ++ rest) Hwe Hind eq_refl)
      by (simpl in Hfuel; lia).
    rewrite (skip_ws_nl_ind _ _ Hind0).
    change (skip_ws (lit "]" ++ rest)) with (93 :: rest).
    change (93 =? 44) with false. change (93 =? 93) with true. cbv iota.
    cbn [rev]. reflexivity.
  - assert (Hne : e' :: r' <> []) by discriminate.
    specialize (IH Hwr Hne).
    destruct (join_stringify_start (lit "," ++ nl ++ ind) ind (e' :: r') Hne Hwr)
      as (c & t & Ej & Hc).
    change (map (stringify_at ind) (e :: e' :: r'))
      with (stringify_at ind e :: map (stringify_at ind) (e' :: r')).
    remember (map (stringify_at ind) (e' :: r')) as parts eqn:Eparts.
    destruct parts as [|q parts']; [discriminate Eparts|].
    rewrite join_cons, <- !app_assoc.
    change (lit "," ++ nl ++ ind ++ join (lit "," ++ nl ++ ind) (q :: parts') ++
            nl ++ ind0 ++ lit "]" ++ rest)
      with (44 :: nl ++ ind ++ join (lit "," ++ nl ++ ind) (q :: parts') ++
            nl ++ ind0 ++ lit "]" ++ rest).
    rewrite (He ind f (44 :: _) Hwe Hind eq_refl) by (simpl in Hfuel; lia).
    cbn [skip_ws]. change (is_json_ws 44) with false. cbv iota.
    change (44 =? 44) with true. cbv iota.
    rewrite (skip_ws_nl_ind _ _ Hind).
    rewrite Ej. cbn [app]. rewrite (skip_ws_start _ _ Hc).
    change (c :: t ++ nl ++ ind0 ++ lit "]" ++ rest)
      with ((c :: t) ++ nl ++ ind0 ++ lit "]" ++ rest).
    rewrite <- Ej.
    rewrite (IH f (written e :: acc) rest) by (simpl in Hfuel |- *; lia).
    cbn [rev map]. now rewrite <- app_assoc.
Qed.

(** ** Objects *)

Lemma skip_ws_stringify (ind : jsstring) (v : json) (s : jsstring) :
  wf_json v = true ->
  skip_ws (stringify_at ind v ++ s) = stringify_at ind v ++ s.
Proof.
  intros H. destruct (stringify_at_start ind v H) as (c & t & E & Hc).
  rewrite E. cbn [app]. now apply skip_ws_start.
Qed.

Lemma member_text (ind k : jsstring) (v : json) (s : jsstring) :
  (quote k ++ lit ": " ++ stringify_at ind v) ++ s =
  34 :: quote_units k ++ 34 :: 58 :: 32 :: stringify_at ind v ++ s.
Proof. unfold quote. rewrite <- !app_assoc. reflexivity. Qed.

Lemma join_members_start (sep ind : jsstring) (k : jsstring) (v : json)
  (r : props) (s : jsstring) :
  exists t,
    join sep (map (fun kv => quote (fst kv) ++ lit ": " ++
                             stringify_at ind (snd kv)) ((k, v) :: r)) ++ s =
    34 :: t.
Proof.
  cbn [map join fst snd].
  destruct (map _ r); [|rewrite <- app_assoc]; rewrite member_text; eexists;
    reflexivity.
Qed.

Lemma wf_props_head (acc : props) (k : jsstring) (v : json) (r : props) :
  wf_props (acc ++ (k, v) :: r) = true ->
  wf_json v = true /\ set_prop acc k v = acc ++ [(k, v)].
Proof.
  unfold wf_props. intros H.
  apply andb_true_iff in H as [H Hv]. apply andb_true_iff in H as [Hd Ho].
  split.
  - rewrite forallb_app in Hv. apply andb_true_iff in Hv as [_ Hv].
    cbn [forallb snd] in Hv. now apply andb_true_iff in Hv as [Hv _].
  - rewrite map_app in Hd, Ho. exact (set_prop_last acc k v _ Hd Ho).
Qed.

Lemma parse_members_member (f : nat) (acc : props) (ind k : jsstring)
  (v : json) (s : jsstring) :
  wf_json v = true ->
  parse_members (S f) acc
    (34 :: quote_units k ++ 34 :: 58 :: 32 :: stringify_at ind v ++ s) =
  match parse_value f (stringify_at ind v ++ s) with
  | POk v rest2 =>
      match skip_ws rest2 with
      | [] => PFail
      | c2 :: r2 =>
          if c2 =? 44
          then parse_members f (set_prop acc k v) (skip_ws r2)
          else if c2 =? 125
          then POk (JObj (set_prop acc k v)) r2
          else PFail
      end
  | PFail => PFail
  | PFuel => PFuel
  end.
Proof.
  intros Hwv. rewrite parse_members_S, parse_chars_quoted.
  assert (E1 : skip_ws (58 :: 32 :: stringify_at ind v ++ s) =
               58 :: 32 :: stringify_at ind v ++ s) by reflexivity.
  rewrite E1. cbv iota beta. change (58 =? 58) with true. cbv iota.
  assert (E2 : skip_ws (32 :: stringify_at ind v ++ s) =
               skip_ws (stringify_at ind v ++ s)) by reflexivity.
  now rewrite E2, (skip_ws_stringify _ _ _ Hwv).
Qed.

Lemma parse_members_join (ind ind0 : jsstring) (l : props) :
  Forall (fun kv => reads_back (snd kv)) l ->
  all_ws ind = true -> all_ws ind0 = true ->
  l <> [] ->
  forall fuel acc rest,
    keys_distinct (map fst acc ++ map fst l) = true ->
    keys_ordered (map fst acc ++ map fst l) = true ->
    forallb (fun kv => wf_json (snd kv)) l = true ->
    (list_sum (map (fun kv => S (weight (snd kv))) l) <= fuel)%nat ->
    parse_members fuel acc
      (join (lit "," ++ nl ++ ind)
            (map (fun kv => quote (fst kv) ++ lit ": " ++
                            stringify_at ind (snd kv)) l) ++
       nl ++ ind0 ++ lit "}" ++ rest) =
    POk (JObj (acc ++ map (fun kv => (fst kv, written (snd kv))) l)) rest.
Proof.
  intros Hall Hind Hind0.
  induction Hall as [|[k v] r He _ IH]; [congruence|].
  intros _ fuel acc rest Hd Ho Hwf Hfuel.
  cbn [map fst] in Hd, Ho.
  pose proof (set_prop_last acc k (written v) _ Hd Ho) as Hset.
  cbn [forallb snd] in Hwf. apply andb_true_iff in Hwf as [Hwv Hwr].
  cbn [snd] in He. cbn [map list_sum snd] in Hfuel.
  destruct fuel as [|f]; [simpl in Hfuel; lia|].
  destruct r as [|[k' v'] r'].
  - cbn [map join fst snd].
    rewrite member_text, (parse_members_member _ _ _ _ _ _ Hwv).
    rewrite (He ind f (nl ++ ind0 ++ lit "}" ++ rest) Hwv Hind eq_refl)
      by (simpl in Hfuel; lia).
    rewrite (skip_ws_nl_ind _ _ Hind0).
    change (skip_ws (lit "}" ++ rest)) with (125 :: rest).
    change (125 =? 44) with false. change (125 =? 125) with true. cbv iota.
    now rewrite Hset.
  - assert (Hne : (k', v') :: r' <> []) by discriminate.
    specialize (IH Hne).
    destruct (join_members_start (lit "," ++ nl ++ ind) ind k' v' r'
                (nl ++ ind0 ++ lit "}" ++ rest)) as (t & Et).
    change (map (fun kv => quote (fst kv) ++ lit ": " ++ stringify_at ind (snd kv))
                ((k, v) :: (k', v') :: r'))
      with ((quote k ++ lit ": " ++ stringify_at ind v) ::
            map (fun kv => quote (fst kv) ++ lit ": " ++ stringify_at ind (snd kv))
                ((k', v') :: r')).
    remember (map (fun kv => quote (fst kv) ++ lit ": " ++ stringify_at ind (snd kv))
                  ((k', v') :: r')) as parts eqn:Eparts.
    destruct parts as [|q parts']; [discriminate Eparts|].
    rewrite join_cons, <- !app_assoc.
    rewrite (app_assoc (quote k)), (app_assoc (quote k ++ lit ": ")).
    rewrite <- (app_assoc (quote k) (lit ": ")).
    rewrite member_text, (parse_members_member _ _ _ _ _ _ Hwv).
    change (lit "," ++ nl ++ ind ++ join (lit "," ++ nl ++ ind) (q :: parts') ++
            nl ++ ind0 ++ lit "}" ++ rest)
      with (44 :: nl ++ ind ++ join (lit "," ++ nl ++ ind) (q :: parts') ++
            nl ++ ind0 ++ lit "}" ++ rest).
    rewrite (He ind f (44 :: _) Hwv Hind eq_refl) by (simpl in Hfuel; lia).
    cbn [skip_ws]. change (is_json_ws 44) with false. cbv iota.
    change (44 =? 44) with true. cbv iota.
    rewrite (skip_ws_nl_ind _ _ Hind).
    rewrite Et. cbn [skip_ws]. change (is_json_ws 34) with false. cbv iota.
    rewrite <- Et, Hset.
    rewrite (IH f (acc ++ [(k, written v)]) rest).
    + cbn [map fst snd]. now rewrite <- app_assoc.
    + rewrite map_app, <- app_assoc. exact Hd.
    + rewrite map_app, <- app_assoc. exact Ho.
    + exact Hwr.
    + simpl in Hfuel |- *. lia.
Qed.

(** ** Values *)

Lemma value_start_not_close (c : N) :
  value_start c = true -> (c =? 93) = false /\ (c =? 125) = false.
Proof.
  unfold value_start, is_digit_char. intros H.
  repeat match goal with
         | H : _ || _ = true |- _ => apply orb_true_iff in H as [H|H]
         | H : _ && _ = true |- _ => apply andb_true_iff in H as [? ?]
         | H : (_ =? _) = true |- _ => apply N.eqb_eq in H; subst
         | H : (_ <=? _) = true |- _ => apply N.leb_le in H
         end; try (split; reflexivity).
  split; apply N.eqb_neq; lia.
Qed.

Lemma stringify_at_array (ind : jsstring) (e : json) (r : list json) :
  stringify_at ind (JArr (e :: r)) =
  91 :: nl ++ (ind ++ gap) ++
  join (lit "," ++ nl ++ ind ++ gap) (map (stringify_at (ind ++ gap)) (e :: r)) ++
  nl ++ ind ++ lit "]".
Proof. reflexivity. Qed.

Lemma stringify_at_object (ind : jsstring) (kv : jsstring * json) (r : props) :
  stringify_at ind (JObj (kv :: r)) =
  123 :: nl ++ (ind ++ gap) ++
  join (lit "," ++ nl ++ ind ++ gap)
       (map (fun kv => quote (fst kv) ++ lit ": " ++
                       stringify_at (ind ++ gap) (snd kv)) (kv :: r)) ++
  nl ++ ind ++ lit "}".
Proof. reflexivity. Qed.

Lemma all_ws_indent (ind : jsstring) :
  all_ws ind = true -> all_ws (ind ++ gap) = true.
Proof. intros H. now rewrite all_ws_app, H. Qed.

(** Every value that exists at run time is read back from its text. *)
Lemma parse_stringify_at (v : json) : reads_back v.
Proof.
  induction v as [| b | x | s | l IH | l IH] using json_induction;
    intros ind fuel rest Hwf Hind Hend Hfuel;
    (destruct fuel as [|f]; [simpl in Hfuel; lia|]).
  - reflexivity.
  - destruct b; reflexivity.
  - cbn [stringify_at written]. destruct (finite x) eqn:Hfin; [|reflexivity].
    destruct (Number_toString_start x Hwf Hfin) as (c & t & E & Hc).
    rewrite E. cbn [app].
    rewrite (parse_value_number _ _ _ Hc).
    change (c :: t ++ rest) with ((c :: t) ++ rest). rewrite <- E.
    now rewrite (parse_number_toString x rest Hwf Hfin
                   (value_end_number_end _ Hend)).
  - cbn [stringify_at]. unfold quote. rewrite <- !app_assoc.
    change (dq ++ quote_units s ++ dq ++ rest)
      with (34 :: quote_units s ++ 34 :: rest).
    now rewrite parse_value_string, parse_chars_quoted.
  - destruct l as [|e r]; [reflexivity|].
    cbn [wf_json] in Hwf. cbn [weight] in Hfuel.
    assert (Hne : e :: r <> []) by discriminate.
    destruct (join_stringify_start (lit "," ++ nl ++ ind ++ gap) (ind ++ gap)
                (e :: r) Hne Hwf) as (c & t & Ej & Hc).
    destruct (value_start_not_close c Hc) as [Hc93 _].
    rewrite stringify_at_array. cbn [app]. rewrite parse_value_array.
    rewrite <- !app_assoc.
    rewrite (skip_ws_app nl) by reflexivity.
    rewrite (app_assoc ind gap), (skip_ws_app (ind ++ gap)) by (now apply all_ws_indent).
    rewrite Ej at 1. cbn [app]. rewrite (skip_ws_start _ _ Hc), Hc93.
    change (c :: t ++ nl ++ ind ++ lit "]" ++ rest)
      with ((c :: t) ++ nl ++ ind ++ lit "]" ++ rest).
    rewrite <- Ej.
    apply (parse_elements_join (ind ++ gap) ind (e :: r) IH
             (all_ws_indent _ Hind) Hind Hwf Hne f [] rest).
    lia.
  - destruct l as [|[k v] r]; [reflexivity|].
    cbn [weight] in Hfuel.
    assert (Hne : (k, v) :: r <> []) by discriminate.
    destruct (join_members_start (lit "," ++ nl ++ ind ++ gap) (ind ++ gap) k v r
                (nl ++ ind ++ lit "}" ++ rest)) as (t & Et).
    rewrite stringify_at_object. cbn [app]. rewrite parse_value_object.
    rewrite <- !app_assoc.
    rewrite (skip_ws_app nl) by reflexivity.
    rewrite (app_assoc ind gap), (skip_ws_app (ind ++ gap)) by (now apply all_ws_indent).
    rewrite Et at 1. cbn [skip_ws]. change (is_json_ws 34) with false.
    cbv iota. change (34 =? 125) with false. cbv iota.
    rewrite <- Et.
    cbn [wf_json] in Hwf. apply andb_true_iff in Hwf as [Hwf Hv].
    apply andb_true_iff in Hwf as [Hd Ho].
    apply (parse_members_join (ind ++ gap) ind ((k, v) :: r) IH
             (all_ws_indent _ Hind) Hind Hne f [] rest Hd Ho Hv).
    lia.
Qed.

(** ** Fuel *)

Lemma list_sum_cons (a : nat) (l : list nat) :
  list_sum (a :: l) = (a + list_sum l)%nat.
Proof. reflexivity. Qed.

Lemma join_length_sep (sep : jsstring) (parts : list jsstring) :
  sep <> [] ->
  (list_sum (map (fun p => S (length p)) parts) <= S (length (join sep parts)))%nat.
Proof.
  intros Hsep. induction parts as [|p r IH]; [simpl; lia|].
  destruct r as [|q r].
  - simpl. lia.
  - rewrite join_cons, !length_app.
    change (map (fun p => S (length p)) (p :: q :: r))
      with (S (length p) :: map (fun p => S (length p)) (q :: r)).
    rewrite list_sum_cons.
    assert (1 <= length sep)%nat by (destruct sep; [congruence | simpl; lia]).
    lia.
Qed.

Lemma list_sum_le {A : Type} (f g : A -> nat) (l : list A) :
  Forall (fun a => f a <= g a)%nat l ->
  (list_sum (map f l) <= list_sum (map g l))%nat.
Proof. induction 1; simpl; lia. Qed.

Lemma weight_length (v : json) :
  forall ind, wf_json v = true -> (weight v <= length (stringify_at ind v))%nat.
Proof.
  induction v as [| b | x | s | l IH | l IH] using json_induction;
    intros ind Hwf.
  - simpl. lia.
  - destruct b; simpl; lia.
  - destruct (stringify_at_start ind (JNum x) Hwf) as (c & t & E & _).
    rewrite E. simpl. lia.
  - destruct (stringify_at_start ind (JStr s) Hwf) as (c & t & E & _).
    rewrite E. simpl. lia.
  - destruct l as [|e r]; [simpl; lia|].
    cbn [wf_json] in Hwf. rewrite stringify_at_array. cbn [weight].
    cbn [length]. rewrite !length_app.
    assert (Hs : lit "," ++ nl ++ ind ++ gap <> []) by discriminate.
    pose proof (join_length_sep _ (map (stringify_at (ind ++ gap)) (e :: r)) Hs) as Hj.
    rewrite map_map in Hj.
    assert (Hle : (list_sum (map (fun e => S (weight e)) (e :: r)) <=
                   list_sum (map (fun x => S (length (stringify_at (ind ++ gap) x)))
                                 (e :: r)))%nat).
    { apply list_sum_le. rewrite Forall_forall in IH |- *. intros a Ha.
      apply le_n_S. apply IH; [exact Ha|].
      rewrite forallb_forall in Hwf. now apply Hwf. }
    change (length nl) with 1%nat. lia.
  - destruct l as [|kv r]; [simpl; lia|].
    rewrite stringify_at_object. cbn [weight].
    cbn [length]. rewrite !length_app.
    assert (Hs : lit "," ++ nl ++ ind ++ gap <> []) by discriminate.
    pose proof (join_length_sep _
                  (map (fun kv => quote (fst kv) ++ lit ": " ++
                                  stringify_at (ind ++ gap) (snd kv)) (kv :: r)) Hs) as Hj.
    rewrite map_map in Hj.
    assert (Hle : (list_sum (map (fun kv => S (weight (snd kv))) (kv :: r)) <=
                   list_sum (map (fun x => S (length (quote (fst x) ++ lit ": " ++
                                    stringify_at (ind ++ gap) (snd x))))
                                 (kv :: r)))%nat).
    { apply list_sum_le. rewrite Forall_forall in IH |- *. intros a Ha.
      apply le_n_S. rewrite !length_app.
      assert (weight (snd a) <= length (stringify_at (ind ++ gap) (snd a)))%nat.
      { apply IH; [exact Ha|].
        cbn [wf_json] in Hwf. apply andb_true_iff in Hwf as [_ Hwf].
        rewrite forallb_forall in Hwf. now apply Hwf. }
      lia. }
    change (length nl) with 1%nat. lia.
Qed.

(** Reading back what [JSON.stringify] wrote gives the value written,
    but for the numbers that were not finite, which are read as [null]. *)
Lemma JSON_parse_stringify (v : json) :
  wf_json v = true -> JSON_parse (JSON_stringify v) = Ret (written v).
Proof.
  intros Hwf. unfold JSON_parse, JSON_stringify.
  pose proof (skip_ws_stringify [] v [] Hwf) as Es.
  rewrite app_nil_r in Es. rewrite Es.
  pose proof (parse_stringify_at v [] (2 * length (stringify_at [] v) + 2)%nat []
                Hwf eq_refl eq_refl) as Hp.
  rewrite app_nil_r in Hp. rewrite Hp; [reflexivity|].
  pose proof (weight_length v [] Hwf). lia.
Qed.


(** ** What writing changes *)

Lemma written_finite (v : json) : finite_json v = true -> written v = v.
Proof.
  induction v as [| b | x | s | l IH | l IH] using json_induction;
    cbn [finite_json written]; intros H; try reflexivity.
  - now rewrite H.
  - f_equal. induction IH as [|e r He _ IHr]; [reflexivity|].
    cbn [forallb] in H. apply andb_true_iff in H as [H1 H2].
    cbn [map]. now rewrite (He H1), (IHr H2).
  - f_equal. induction IH as [|[k e] r He _ IHr]; [reflexivity|].
    cbn [forallb snd] in H. apply andb_true_iff in H as [H1 H2].
    cbn [map fst snd] in *. now rewrite (He H1), (IHr H2).
Qed.



Lemma written_keys (l : props) :
  map fst (map (fun kv => (fst kv, written (snd kv))) l) = map fst l.
Proof. rewrite map_map. reflexivity. Qed.

(** ** What the parser builds exists at run time *)

Lemma span_digits_all_digits (s : jsstring) :
  all_digits (fst (span_digits s)) = true.
Proof.
  induction s as [|c r IH]; [reflexivity|].
  cbn [span_digits]. destruct (is_digit_char c) eqn:E; [|reflexivity].
  destruct (span_digits r) as [ds rest]. cbn [fst] in *.
  unfold all_digits in *. cbn [forallb]. rewrite IH, andb_true_r.
  unfold is_digit_char in E. apply andb_true_iff in E as [E1 E2].
  apply N.leb_le in E1, E2. apply N.ltb_lt. lia.
Qed.

Lemma parse_int_part_all_digits (s : jsstring) (ip : list N) (rest : jsstring) :
  parse_int_part s = Some (ip, rest) -> all_digits ip = true.
Proof.
  destruct s as [|c r]; [discriminate|]. unfold parse_int_part.
  pose proof (span_digits_all_digits (c :: r)) as Hs. revert Hs.
  destruct (span_digits (c :: r)) as [ds rest']. intros Hs.
  destruct (c =? 48); [intros H; now injection H as <- _|].
  destruct (is_digit_char c); [|discriminate].
  intros H. injection H as <- _. exact Hs.
Qed.

Lemma parse_frac_part_all_digits (s : jsstring) (fp : list N) (rest : jsstring) :
  parse_frac_part s = Some (fp, rest) -> all_digits fp = true.
Proof.
  destruct s as [|c r]; [intros H; now injection H as <- _|].
  cbn [parse_frac_part]. destruct (c =? 46); [|intros H; now injection H as <- _].
  pose proof (span_digits_all_digits r) as Hs.
  destruct (span_digits r) as [[|d ds] rest']; [discriminate|].
  intros H. injection H as <- _. exact Hs.
Qed.

Lemma parse_decimal_wf (s : jsstring) (x : decimal) (rest : jsstring) :
  parse_decimal s = Some (x, rest) -> wf_decimal x = true.
Proof.
  unfold parse_decimal.
  destruct (match s with
            | [] => (false, s)
            | c :: r => if c =? 45 then (true, r) else (false, s)
            end) as [neg s1].
  destruct (parse_int_part s1) as [[ip s2]|] eqn:Hi; [|discriminate].
  destruct (parse_frac_part s2) as [[fp s3]|] eqn:Hf; [|discriminate].
  destruct (parse_exp_part s3) as [[e s4]|]; [|discriminate].
  intros H. injection H as <- _. apply normalize_wf.
  rewrite all_digits_app, (parse_int_part_all_digits _ _ _ Hi),
    (parse_frac_part_all_digits _ _ _ Hf). reflexivity.
Qed.

Lemma parse_number_wf (s : jsstring) (x : number) (rest : jsstring) :
  parse_number s = Some (x, rest) -> wf_number x = true.
Proof.
  unfold parse_number.
  destruct (parse_decimal s) as [[d rest']|] eqn:E; [|discriminate].
  intros H. injection H as <- _.
  exact (to_number_wf d (parse_decimal_wf _ _ _ E)).
Qed.

(** ** Assignment keeps property order *)

Lemma replace_value_keys (k : jsstring) (v : json) (l : props) :
  map fst (replace_value k v l) = map fst l.
Proof.
  induction l as [|[k' v'] l IH]; [reflexivity|].
  cbn [replace_value]. destruct (str_eqb k k'); [reflexivity|].
  cbn [map fst]. now rewrite IH.
Qed.

Lemma replace_value_wf (k : jsstring) (v : json) (l : props) :
  wf_json v = true ->
  forallb (fun kv => wf_json (snd kv)) l = true ->
  forallb (fun kv => wf_json (snd kv)) (replace_value k v l) = true.
Proof.
  intros Hv. induction l as [|[k' v'] l IH]; [reflexivity|].
  cbn [forallb snd replace_value]. intros H.
  apply andb_true_iff in H as [H1 H2].
  destruct (str_eqb k k'); cbn [forallb snd].
  - now rewrite Hv, H2.
  - now rewrite H1, (IH H2).
Qed.

Lemma insert_index_forallb (P : jsstring * json -> bool) (i : N)
  (k : jsstring) (v : json) (l : props) :
  forallb P (insert_index i k v l) = P (k, v) && forallb P l.
Proof.
  induction l as [|[k' v'] l IH]; [reflexivity|].
  cbn [insert_index]. destruct (array_index k') as [j|]; [|reflexivity].
  destruct (i <? j); [reflexivity|].
  cbn [forallb]. rewrite IH.
  destruct (P (k, v)), (P (k', v')); reflexivity.
Qed.

Lemma insert_index_existsb (P : jsstring * json -> bool) (i : N)
  (k : jsstring) (v : json) (l : props) :
  existsb P (insert_index i k v l) = P (k, v) || existsb P l.
Proof.
  induction l as [|[k' v'] l IH]; [reflexivity|].
  cbn [insert_index]. destruct (array_index k') as [j|]; [|reflexivity].
  destruct (i <? j); [reflexivity|].
  cbn [existsb]. rewrite IH.
  destruct (P (k, v)), (P (k', v')); reflexivity.
Qed.

Lemma forallb_map_fst (P : jsstring -> bool) (l : props) :
  forallb P (map fst l) = forallb (fun kv => P (fst kv)) l.
Proof. induction l as [|kv l IH]; [reflexivity|]. simpl. now rewrite IH. Qed.

Lemma existsb_map_fst (P : jsstring -> bool) (l : props) :
  existsb P (map fst l) = existsb (fun kv => P (fst kv)) l.
Proof. induction l as [|kv l IH]; [reflexivity|]. simpl. now rewrite IH. Qed.

Lemma str_eqb_sym (a b : jsstring) : str_eqb a b = str_eqb b a.
Proof.
  destruct (str_eqb a b) eqn:E.
  - apply str_eqb_eq in E. subst. symmetry. apply str_eqb_refl.
  - apply str_eqb_neq in E. symmetry. apply str_eqb_neq. congruence.
Qed.

Lemma insert_index_distinct (i : N) (k : jsstring) (v : json) (l : props) :
  has_key k l = false ->
  keys_distinct (map fst l) = true ->
  keys_distinct (map fst (insert_index i k v l)) = true.
Proof.
  induction l as [|[k' v'] l IH]; [reflexivity|].
  unfold has_key. cbn [existsb fst map keys_distinct]. intros Hk Hd.
  apply orb_false_iff in Hk as [Hkk' Hk].
  apply andb_true_iff in Hd as [Hk' Hd].
  cbn [insert_index].
  assert (Hnew : keys_distinct (k :: k' :: map fst l) = true).
  { cbn [keys_distinct existsb]. rewrite Hkk'. cbn [orb].
    rewrite existsb_map_fst. unfold has_key in Hk. rewrite Hk.
    cbn [negb andb]. now rewrite Hk', Hd. }
  destruct (array_index k') as [j|]; [|exact Hnew].
  destruct (i <? j); [exact Hnew|].
  cbn [map fst keys_distinct]. rewrite (IH Hk Hd), andb_true_r.
  rewrite existsb_map_fst, insert_index_existsb. cbn [fst].
  rewrite str_eqb_sym, Hkk'. cbn [orb].
  rewrite existsb_map_fst in Hk'. exact Hk'.
Qed.

Lemma forallb_impl {A : Type} (P Q : A -> bool) (l : list A) :
  (forall a, P a = true -> Q a = true) ->
  forallb P l = true -> forallb Q l = true.
Proof.
  intros H. induction l as [|a l IH]; [reflexivity|].
  cbn [forallb]. intros Hl. apply andb_true_iff in Hl as [Ha Hl].
  now rewrite (H a Ha), (IH Hl).
Qed.

Lemma insert_index_ordered (i : N) (k : jsstring) (v : json) (l : props) :
  array_index k = Some i ->
  keys_ordered (map fst l) = true ->
  keys_ordered (map fst (insert_index i k v l)) = true.
Proof.
  intros Hi. induction l as [|[k' v'] l IH].
  - intros _. cbn [insert_index map fst keys_ordered]. now rewrite Hi.
  - cbn [map fst keys_ordered]. intros H.
    apply andb_true_iff in H as [Ho Hk'].
    cbn [insert_index]. destruct (array_index k') as [j|] eqn:Hj.
    + destruct (N.ltb_spec i j) as [Hlt|Hge].
      * cbn [map fst keys_ordered]. rewrite Ho, Hj, Hk', Hi. cbn [andb forallb].
        rewrite Hj. replace (i <=? j) with true by (symmetry; apply N.leb_le; lia).
        cbn [andb]. revert Hk'. apply forallb_impl. intros a.
        destruct (array_index a) as [j'|]; [|reflexivity].
        intros H. apply N.leb_le in H. apply N.leb_le. lia.
      * cbn [map fst keys_ordered]. rewrite (IH Ho), Hj. cbn [andb].
        rewrite forallb_map_fst, insert_index_forallb. cbn [fst].
        rewrite Hi. replace (j <=? i) with true by (symmetry; apply N.leb_le; lia).
        cbn [andb]. rewrite forallb_map_fst in Hk'. exact Hk'.
    + cbn [map fst keys_ordered]. rewrite Ho, Hj, Hk', Hi. cbn [andb forallb].
      rewrite Hj. cbn [andb]. revert Hk'. apply forallb_impl. intros a.
      destruct (array_index a); [discriminate | reflexivity].
Qed.

Lemma keys_distinct_snoc (ks : list jsstring) (k : jsstring) :
  existsb (str_eqb k) ks = false ->
  keys_distinct ks = true -> keys_distinct (ks ++ [k]) = true.
Proof.
  induction ks as [|k' ks IH]; [reflexivity|].
  cbn [existsb keys_distinct app]. intros Hk Hd.
  apply orb_false_iff in Hk as [Hkk' Hk].
  apply andb_true_iff in Hd as [Hk' Hd].
  rewrite (IH Hk Hd), andb_true_r. rewrite existsb_app. cbn [existsb].
  apply negb_true_iff in Hk'. rewrite Hk', str_eqb_sym, Hkk'. reflexivity.
Qed.

Lemma keys_ordered_snoc (ks : list jsstring) (k : jsstring) :
  array_index k = None ->
  keys_ordered ks = true -> keys_ordered (ks ++ [k]) = true.
Proof.
  intros Hk. induction ks as [|k' ks IH].
  - intros _. cbn [app keys_ordered]. now rewrite Hk.
  - cbn [app keys_ordered]. intros H. apply andb_true_iff in H as [Ho Hk'].
    rewrite (IH Ho). cbn [andb].
    destruct (array_index k'); rewrite forallb_app, Hk'; cbn [forallb andb];
      now rewrite Hk.
Qed.

Lemma set_prop_wf (l : props) (k : jsstring) (v : json) :
  wf_props l = true -> wf_json v = true -> wf_props (set_prop l k v) = true.
Proof.
  unfold wf_props. intros H Hv.
  apply andb_true_iff in H as [H Hvals]. apply andb_true_iff in H as [Hd Ho].
  unfold set_prop. destruct (has_key k l) eqn:Hk.
  - rewrite replace_value_keys, Hd, Ho. cbn [andb].
    now apply replace_value_wf.
  - destruct (array_index k) as [i|] eqn:Hi.
    + rewrite (insert_index_distinct _ _ _ _ Hk Hd),
        (insert_index_ordered _ _ _ _ Hi Ho), insert_index_forallb.
      cbn [andb snd]. now rewrite Hv, Hvals.
    + rewrite map_app. cbn [map fst].
      rewrite keys_distinct_snoc, keys_ordered_snoc; try assumption.
      * rewrite forallb_app. cbn [forallb snd andb]. now rewrite Hvals, Hv.
      * unfold has_key in Hk. now rewrite existsb_map_fst.
Qed.

(** ** Every parsed value exists at run time *)

Lemma parse_word_wf (w : jsstring) (v v' : json) (s rest : jsstring) :
  wf_json v = true -> parse_word w v s = POk v' rest -> wf_json v' = true.
Proof.
  unfold parse_word. destruct (strip_prefix w s); [|discriminate].
  intros Hv H. now injection H as <- _.
Qed.

Lemma forallb_rev {A : Type} (P : A -> bool) (l : list A) :
  forallb P (rev l) = forallb P l.
Proof.
  induction l as [|a l IH]; [reflexivity|].
  cbn [rev forallb]. rewrite forallb_app, IH. cbn [forallb].
  rewrite andb_true_r. apply andb_comm.
Qed.

Lemma parse_wf (fuel : nat) :
  (forall s v rest, parse_value fuel s = POk v rest -> wf_json v = true) /\
  (forall acc s v rest, forallb wf_json acc = true ->
     parse_elements fuel acc s = POk v rest -> wf_json v = true) /\
  (forall acc s v rest, wf_props acc = true ->
     parse_members fuel acc s = POk v rest -> wf_json v = true).
Proof.
  induction fuel as [|f (IHv & IHe & IHm)].
  - repeat split; intros; discriminate.
  - split; [|split].
    + intros s v rest. cbn [parse_value].
      destruct s as [|c r]; [discriminate|].
      destruct (c =? 123).
      { destruct (skip_ws r) as [|c1 r1]; [discriminate|].
        destruct (c1 =? 125).
        - intros H. now injection H as <- _.
        - apply IHm. reflexivity. }
      destruct (c =? 91).
      { destruct (skip_ws r) as [|c1 r1]; [discriminate|].
        destruct (c1 =? 93).
        - intros H. now injection H as <- _.
        - apply IHe. reflexivity. }
      destruct (c =? 34).
      { destruct (parse_chars r) as [[t rest']|]; [|discriminate].
        intros H. now injection H as <- _. }
      destruct (c =? 116); [apply parse_word_wf; reflexivity|].
      destruct (c =? 102); [apply parse_word_wf; reflexivity|].
      destruct (c =? 110); [apply parse_word_wf; reflexivity|].
      destruct (parse_number (c :: r)) as [[x rest']|] eqn:E; [|discriminate].
      intros H. injection H as <- _. exact (parse_number_wf _ _ _ E).
    + intros acc s v rest Hacc. rewrite parse_elements_S.
      destruct (parse_value f s) as [e rest'| |] eqn:E; try discriminate.
      pose proof (IHv _ _ _ E) as He.
      destruct (skip_ws rest') as [|c r]; [discriminate|].
      destruct (c =? 44).
      { apply IHe. cbn [forallb]. now rewrite He, Hacc. }
      destruct (c =? 93); [|discriminate].
      intros H. injection H as <- _.
      change (forallb wf_json (rev (e :: acc)) = true).
      rewrite forallb_rev. cbn [forallb]. now rewrite He, Hacc.
    + intros acc s v rest Hacc. cbn [parse_members].
      destruct s as [|c r]; [discriminate|].
      destruct (c =? 34); [|discriminate].
      destruct (parse_chars r) as [[k rest']|]; [|discriminate].
      destruct (skip_ws rest') as [|c1 r1]; [discriminate|].
      destruct (c1 =? 58); [|discriminate].
      destruct (parse_value f (skip_ws r1)) as [e rest2| |] eqn:E; try discriminate.
      pose proof (IHv _ _ _ E) as He.
      pose proof (set_prop_wf acc k e Hacc He) as Hset.
      destruct (skip_ws rest2) as [|c2 r2]; [discriminate|].
      destruct (c2 =? 44); [now apply IHm|].
      destruct (c2 =? 125); [|discriminate].
      intros H. injection H as <- _. exact Hset.
Qed.

Lemma JSON_parse_wf (s : jsstring) (v : json) :
  JSON_parse s = Ret v -> wf_json v = true.
Proof.
  unfold JSON_parse.
  destruct (parse_value (2 * length s + 2) (skip_ws s)) as [v' rest| |] eqn:E;
    try discriminate.
  destruct (skip_ws rest); [|discriminate].
  intros H. injection H as <-.
  exact (proj1 (parse_wf _) _ _ _ E).
Qed.

Lemma readDb_wf (f : file) (db : json) : readDb f = Ret db -> wf_json db = true.
Proof.
  rewrite readDb_cases. destruct f as [|raw].
  - intros H. now injection H as <-.
  - destruct (JSON_parse raw) as [v|e] eqn:E; intros H; injection H as <-.
    + exact (JSON_parse_wf _ _ E).
    + reflexivity.
Qed.

(** ** The fuel of [JSON_parse] is never used up *)

Lemma skip_ws_shorter (s : jsstring) : (length (skip_ws s) <= length s)%nat.
Proof.
  induction s as [|c r IH]; [apply Nat.le_refl|].
  cbn [skip_ws]. destruct (is_json_ws c); cbn [length]; lia.
Qed.

Lemma parse_chars_shorter (s t rest : jsstring) :
  parse_chars s = Some (t, rest) -> (length rest < length s)%nat.
Proof.
  remember (length s) as n eqn:En. revert s t rest En.
  induction n as [n IH] using lt_wf_ind. intros s t rest En.
  destruct s as [|c r]; [discriminate|]. cbn [parse_chars].
  destruct (c =? 34).
  { intros H. injection H as _ <-. subst n. simpl. lia. }
  destruct (c =? 92).
  - destruct r as [|e r1]; [discriminate|].
    destruct (e =? 117).
    + destruct r1 as [|a [|b [|c' [|d r2]]]]; try discriminate.
      destruct (hex4 a b c' d); [|discriminate].
      destruct (parse_chars r2) as [[t' rest']|] eqn:E; [|discriminate].
      intros H. injection H as _ <-.
      apply (IH (length r2)) in E; [|subst n; simpl; lia|reflexivity].
      subst n. simpl. lia.
    + destruct (unescape e); [|discriminate].
      destruct (parse_chars r1) as [[t' rest']|] eqn:E; [|discriminate].
      intros H. injection H as _ <-.
      apply (IH (length r1)) in E; [|subst n; simpl; lia|reflexivity].
      subst n. simpl. lia.
  - destruct (c <? 32); [discriminate|].
    destruct (parse_chars r) as [[t' rest']|] eqn:E; [|discriminate].
    intros H. injection H as _ <-.
    apply (IH (length r)) in E; [|subst n; simpl; lia|reflexivity].
    subst n. simpl. lia.
Qed.

Lemma span_digits_shorter (s : jsstring) :
  (length (snd (span_digits s)) <= length s)%nat.
Proof.
  induction s as [|c r IH]; [apply Nat.le_refl|].
  cbn [span_digits]. destruct (is_digit_char c); [|apply Nat.le_refl].
  destruct (span_digits r) as [ds rest]. cbn [snd] in *. simpl. lia.
Qed.

Lemma parse_int_part_shorter (s : jsstring) (ip : list N) (rest : jsstring) :
  parse_int_part s = Some (ip, rest) -> (length rest < length s)%nat.
Proof.
  destruct s as [|c r]; [discriminate|]. unfold parse_int_part.
  pose proof (span_digits_shorter r) as Hs.
  destruct (c =? 48); [intros H; injection H as _ <-; simpl; lia|].
  cbn [span_digits]. destruct (is_digit_char c); [|discriminate].
  destruct (span_digits r) as [ds rest']. cbn [snd] in Hs.
  intros H. injection H as _ <-. simpl. lia.
Qed.

Lemma parse_frac_part_shorter (s : jsstring) (fp : list N) (rest : jsstring) :
  parse_frac_part s = Some (fp, rest) -> (length rest <= length s)%nat.
Proof.
  destruct s as [|c r]; [intros H; injection H as _ <-; apply Nat.le_refl|].
  cbn [parse_frac_part].
  destruct (c =? 46); [|intros H; injection H as _ <-; apply Nat.le_refl].
  pose proof (span_digits_shorter r) as Hs.
  destruct (span_digits r) as [[|d ds] rest']; [discriminate|].
  cbn [snd] in Hs. intros H. injection H as _ <-. simpl. lia.
Qed.

Lemma span_digits_nonempty_shorter (F : list N -> Z) (r1 : jsstring) (e : Z)
  (rest : jsstring) :
  (let (ds, rest') := span_digits r1 in
   match ds with
   | [] => None
   | _ :: _ => Some (F ds, rest')
   end) = Some (e, rest) ->
  (length rest <= length r1)%nat.
Proof.
  pose proof (span_digits_shorter r1) as Hs.
  destruct (span_digits r1) as [[|d ds] rest']; [discriminate|].
  cbn [snd] in Hs. intros H. injection H as _ <-. exact Hs.
Qed.

Lemma parse_exp_part_shorter (s : jsstring) (e : Z) (rest : jsstring) :
  parse_exp_part s = Some (e, rest) -> (length rest <= length s)%nat.
Proof.
  destruct s as [|c r]; [intros H; injection H as _ <-; apply Nat.le_refl|].
  cbn [parse_exp_part].
  destruct ((c =? 101) || (c =? 69));
    [|intros H; injection H as _ <-; apply Nat.le_refl].
  destruct r as [|sg r'].
  - intros H.
    apply (span_digits_nonempty_shorter (fun ds => Z.of_N (digits_value ds))) in H.
    simpl in *. lia.
  - destruct (sg =? 45).
    + intros H.
      apply (span_digits_nonempty_shorter
               (fun ds => (- Z.of_N (digits_value ds))%Z)) in H.
      simpl in *. lia.
    + destruct (sg =? 43); intros H;
        apply (span_digits_nonempty_shorter
                 (fun ds => Z.of_N (digits_value ds))) in H;
        simpl in *; lia.
Qed.

Lemma parse_decimal_shorter (s : jsstring) (x : decimal) (rest : jsstring) :
  parse_decimal s = Some (x, rest) -> (length rest < length s)%nat.
Proof.
  unfold parse_decimal.
  assert (Hgen : forall neg s1, (length s1 <= length s)%nat ->
            match parse_int_part s1 with
            | Some (ip, s2) =>
                match parse_frac_part s2 with
                | Some (fp, s3) =>
                    match parse_exp_part s3 with
                    | Some (e, s4) =>
                        Some (normalize neg (ip ++ fp)
                                (Z.of_nat (length ip) + e), s4)
                    | None => None
                    end
                | None => None
                end
            | None => None
            end = Some (x, rest) -> (length rest < length s)%nat).
  { intros neg s1 Hs1.
    destruct (parse_int_part s1) as [[ip s2]|] eqn:Hi; [|discriminate].
    destruct (parse_frac_part s2) as [[fp s3]|] eqn:Hf; [|discriminate].
    destruct (parse_exp_part s3) as [[e s4]|] eqn:He; [|discriminate].
    intros H. injection H as _ <-.
    apply parse_int_part_shorter in Hi. apply parse_frac_part_shorter in Hf.
    apply parse_exp_part_shorter in He. lia. }
  destruct s as [|c r]; [apply Hgen; apply Nat.le_refl|].
  destruct (c =? 45); apply Hgen; simpl; lia.
Qed.

Lemma parse_number_shorter (s : jsstring) (x : number) (rest : jsstring) :
  parse_number s = Some (x, rest) -> (length rest < length s)%nat.
Proof.
  unfold parse_number.
  destruct (parse_decimal s) as [[d rest']|] eqn:E; [|discriminate].
  intros H. injection H as _ <-. exact (parse_decimal_shorter _ _ _ E).
Qed.

Lemma parse_word_shorter (w : jsstring) (v v' : json) (c : N) (r rest : jsstring) :
  parse_word (c :: w) v r = POk v' rest -> (length rest < length r)%nat.
Proof.
  unfold parse_word. destruct (strip_prefix (c :: w) r) as [rest'|] eqn:E;
    [|discriminate].
  intros H. injection H as _ <-.
  destruct r as [|y r]; [discriminate|]. cbn [strip_prefix] in E.
  destruct (c =? y); [|discriminate].
  assert (Hgen : forall w s rest, strip_prefix w s = Some rest ->
                                  (length rest <= length s)%nat).
  { clear. induction w as [|x w IH]; intros s rest.
    - intros H. injection H as <-. apply Nat.le_refl.
    - destruct s as [|y s]; [discriminate|]. cbn [strip_prefix].
      destruct (x =? y); [|discriminate]. intros H. apply IH in H. simpl. lia. }
  apply Hgen in E. simpl. lia.
Qed.

Lemma parse_shorter (fuel : nat) :
  (forall s v rest, parse_value fuel s = POk v rest ->
                    (length rest < length s)%nat) /\
  (forall acc s v rest, parse_elements fuel acc s = POk v rest ->
                        (length rest < length s)%nat) /\
  (forall acc s v rest, parse_members fuel acc s = POk v rest ->
                        (length rest < length s)%nat).
Proof.
  induction fuel as [|f (IHv & IHe & IHm)].
  - repeat split; intros; discriminate.
  - split; [|split].
    + intros s v rest. cbn [parse_value].
      destruct s as [|c r]; [discriminate|].
      pose proof (skip_ws_shorter r) as Hr.
      destruct (c =? 123).
      { destruct (skip_ws r) as [|c1 r1]; [discriminate|].
        destruct (c1 =? 125).
        - intros H. injection H as _ <-. simpl in *. lia.
        - intros H. apply IHm in H. simpl in *. lia. }
      destruct (c =? 91).
      { destruct (skip_ws r) as [|c1 r1]; [discriminate|].
        destruct (c1 =? 93).
        - intros H. injection H as _ <-. simpl in *. lia.
        - intros H. apply IHe in H. simpl in *. lia. }
      destruct (c =? 34).
      { destruct (parse_chars r) as [[t rest']|] eqn:E; [|discriminate].
        intros H. injection H as _ <-. apply parse_chars_shorter in E.
        simpl. lia. }
      destruct (c =? 116); [apply parse_word_shorter|].
      destruct (c =? 102); [apply parse_word_shorter|].
      destruct (c =? 110); [apply parse_word_shorter|].
      destruct (parse_number (c :: r)) as [[x rest']|] eqn:E; [|discriminate].
      intros H. injection H as _ <-. exact (parse_number_shorter _ _ _ E).
    + intros acc s v rest. rewrite parse_elements_S.
      destruct (parse_value f s) as [e rest'| |] eqn:E; try discriminate.
      apply IHv in E. pose proof (skip_ws_shorter rest') as Hr.
      destruct (skip_ws rest') as [|c r]; [discriminate|].
      pose proof (skip_ws_shorter r) as Hr'.
      destruct (c =? 44).
      { intros H. apply IHe in H. simpl in *. lia. }
      destruct (c =? 93); [|discriminate].
      intros H. injection H as _ <-. simpl in *. lia.
    + intros acc s v rest. cbn [parse_members].
      destruct s as [|c r]; [discriminate|].
      destruct (c =? 34); [|discriminate].
      destruct (parse_chars r) as [[k rest']|] eqn:Ek; [|discriminate].
      apply parse_chars_shorter in Ek.
      pose proof (skip_ws_shorter rest') as Hr.
      destruct (skip_ws rest') as [|c1 r1]; [discriminate|].
      destruct (c1 =? 58); [|discriminate].
      pose proof (skip_ws_shorter r1) as Hr1.
      destruct (parse_value f (skip_ws r1)) as [e rest2| |] eqn:E; try discriminate.
      apply IHv in E. pose proof (skip_ws_shorter rest2) as Hr2.
      destruct (skip_ws rest2) as [|c2 r2]; [discriminate|].
      pose proof (skip_ws_shorter r2) as Hr2'.
      destruct (c2 =? 44).
      { intros H. apply IHm in H. simpl in *. lia. }
      destruct (c2 =? 125); [|discriminate].
      intros H. injection H as _ <-. simpl in *. lia.
Qed.

Lemma parse_word_fuel (w : jsstring) (v : json) (s : jsstring) :
  parse_word w v s <> PFuel.
Proof. unfold parse_word. destruct (strip_prefix w s); discriminate. Qed.

Lemma parse_fuel (fuel : nat) :
  (forall s, (2 * length s + 1 <= fuel)%nat -> parse_value fuel s <> PFuel) /\
  (forall acc s, (2 * length s + 2 <= fuel)%nat ->
                 parse_elements fuel acc s <> PFuel) /\
  (forall acc s, (2 * length s + 2 <= fuel)%nat ->
                 parse_members fuel acc s <> PFuel).
Proof.
  induction fuel as [|f (IHv & IHe & IHm)].
  - repeat split; intros; lia.
  - split; [|split].
    + intros s Hf. cbn [parse_value].
      destruct s as [|c r]; [discriminate|].
      pose proof (skip_ws_shorter r) as Hr.
      destruct (c =? 123).
      { destruct (skip_ws r) as [|c1 r1]; [discriminate|].
        destruct (c1 =? 125); [discriminate|].
        apply IHm. simpl in *. lia. }
      destruct (c =? 91).
      { destruct (skip_ws r) as [|c1 r1]; [discriminate|].
        destruct (c1 =? 93); [discriminate|].
        apply IHe. simpl in *. lia. }
      destruct (c =? 34).
      { destruct (parse_chars r) as [[t rest']|]; discriminate. }
      destruct (c =? 116); [apply parse_word_fuel|].
      destruct (c =? 102); [apply parse_word_fuel|].
      destruct (c =? 110); [apply parse_word_fuel|].
      destruct (parse_number (c :: r)) as [[x rest']|]; discriminate.
    + intros acc s Hf. rewrite parse_elements_S.
      pose proof (IHv s) as Hv.
      destruct (parse_value f s) as [e rest'| |] eqn:E;
        [|discriminate|exfalso; apply Hv; [lia|reflexivity]].
      apply (proj1 (parse_shorter f)) in E.
      pose proof (skip_ws_shorter rest') as Hr.
      destruct (skip_ws rest') as [|c r]; [discriminate|].
      pose proof (skip_ws_shorter r) as Hr'.
      destruct (c =? 44); [apply IHe; simpl in *; lia|].
      destruct (c =? 93); discriminate.
    + intros acc s Hf. cbn [parse_members].
      destruct s as [|c r]; [discriminate|].
      destruct (c =? 34); [|discriminate].
      destruct (parse_chars r) as [[k rest']|] eqn:Ek; [|discriminate].
      apply parse_chars_shorter in Ek.
      pose proof (skip_ws_shorter rest') as Hr.
      destruct (skip_ws rest') as [|c1 r1]; [discriminate|].
      destruct (c1 =? 58); [|discriminate].
      pose proof (skip_ws_shorter r1) as Hr1.
      pose proof (IHv (skip_ws r1)) as Hv.
      destruct (parse_value f (skip_ws r1)) as [e rest2| |] eqn:E;
        [|discriminate|exfalso; apply Hv; [simpl in *; lia|reflexivity]].
      apply (proj1 (parse_shorter f)) in E.
      pose proof (skip_ws_shorter rest2) as Hr2.
      destruct (skip_ws rest2) as [|c2 r2]; [discriminate|].
      pose proof (skip_ws_shorter r2) as Hr2'.
      destruct (c2 =? 44); [apply IHm; simpl in *; lia|].
      destruct (c2 =? 125); discriminate.
Qed.

(** [JSON_parse] throws on a syntax error only: its recursion is never
    cut short. *)
Lemma JSON_parse_fuel (s : jsstring) :
  parse_value (2 * length s + 2) (skip_ws s) <> PFuel.
Proof.
  apply (proj1 (parse_fuel _)). pose proof (skip_ws_shorter s). lia.
Qed.

(** ** Writing, then reading *)

Lemma readDb_writeDb (doc : json) :
  wf_json doc = true -> readDb (writeDb doc) = Ret (written doc).
Proof.
  intros Hwf. rewrite readDb_cases. unfold writeDb, writeFileSync.
  now rewrite (JSON_parse_stringify doc Hwf).
Qed.




(** ** Appending *)

Lemma lookup_wf (k : jsstring) (ps : props) (v : json) :
  forallb (fun kv => wf_json (snd kv)) ps = true ->
  lookup k ps = Some v -> wf_json v = true.
Proof.
  induction ps as [|[k' v'] ps IH]; [discriminate|].
  cbn [forallb snd lookup]. intros H. apply andb_true_iff in H as [H1 H2].
  destruct (str_eqb k k').
  - intros E. now injection E as <-.
  - exact (IH H2).
Qed.

Lemma lookup_has_key (k : jsstring) (ps : props) (v : json) :
  lookup k ps = Some v -> has_key k ps = true.
Proof.
  unfold has_key. induction ps as [|[k' v'] ps IH]; [discriminate|].
  cbn [lookup existsb fst]. destruct (str_eqb k k'); [reflexivity|].
  exact IH.
Qed.

Lemma lookup_replace_value (k : jsstring) (v : json) (ps : props) :
  has_key k ps = true -> lookup k (replace_value k v ps) = Some v.
Proof.
  unfold has_key. induction ps as [|[k' v'] ps IH]; [discriminate|].
  cbn [existsb fst replace_value]. destruct (str_eqb k k') eqn:E.
  - intros _. cbn [lookup]. now rewrite E.
  - cbn [orb lookup]. rewrite E. exact IH.
Qed.

Lemma lookup_set_prop (k : jsstring) (v old : json) (ps : props) :
  lookup k ps = Some old -> lookup k (set_prop ps k v) = Some v.
Proof.
  intros H. apply lookup_has_key in H. unfold set_prop. rewrite H.
  now apply lookup_replace_value.
Qed.

Lemma wf_json_object (ps : props) : wf_json (JObj ps) = wf_props ps.
Proof. reflexivity. Qed.

Lemma wf_props_values (ps : props) :
  wf_props ps = true -> forallb (fun kv => wf_json (snd kv)) ps = true.
Proof. unfold wf_props. intros H. now apply andb_true_iff in H as [_ H]. Qed.

Lemma build_record_wf (env : environment) (req : request) :
  body_wf req = true -> wf_json (build_record env req) = true.
Proof.
  unfold body_wf, build_record.
  rewrite record_ip, record_userAgent, record_payload.
  rewrite wf_json_object. unfold wf_props.
  destruct (body req) as [b|]; intros Hb;
    (apply andb_true_iff; split; [reflexivity|]);
    cbn [forallb snd];
    destruct (nonempty_string (assoc (lit "x-forwarded-for") (headers req)));
    destruct (nonempty_string (remoteAddress req));
    destruct (nonempty_string (assoc (lit "user-agent") (headers req)));
    cbn [wf_json andb]; try reflexivity;
    rewrite andb_true_r;
    (destruct (truthy (Some b)); [exact Hb | reflexivity]).
Qed.

Lemma forallb_firstn {A : Type} (P : A -> bool) (n : nat) (l : list A) :
  forallb P l = true -> forallb P (firstn n l) = true.
Proof.
  intros H. rewrite <- (firstn_skipn n l), forallb_app in H.
  now apply andb_true_iff in H as [H _].
Qed.

(** What the handler does on a store that holds a list. *)
Lemma post_callback_appends (env : environment) (f : file) (req : request)
  (ps : props) (l : list json) :
  readDb f = Ret (JObj ps) ->
  lookup (lit "callbacks") ps = Some (JArr l) ->
  post_callback env f req =
  Ret {| file_after :=
           writeDb (JObj (set_prop ps (lit "callbacks")
                            (JArr (firstn 500 (build_record env req :: l)))));
         reply := ok_reply;
         console := logged env req |}.
Proof.
  intros Hread Hcb. unfold post_callback, logged. rewrite Hread.
  cbn [bind get]. rewrite Hcb. cbn [bind as_array].
  destruct (log_line _ _); reflexivity.
Qed.

(** The handler returns only on such a store. *)
Lemma post_callback_returns (env : environment) (f : file) (req : request)
  (res : result) :
  post_callback env f req = Ret res ->
  exists ps l,
    readDb f = Ret (JObj ps) /\ lookup (lit "callbacks") ps = Some (JArr l).
Proof.
  unfold post_callback.
  destruct (readDb f) as [[| | | | |ps]|]; try discriminate.
  cbn [bind get].
  destruct (lookup (lit "callbacks") ps) as [[| | | |l|]|] eqn:E;
    try discriminate.
  intros _. exists ps, l. split; [reflexivity | exact E].
Qed.

Lemma lookup_written (k : jsstring) (ps : props) :
  lookup k (map (fun kv => (fst kv, written (snd kv))) ps) =
  option_map written (lookup k ps).
Proof.
  induction ps as [|[k' v] ps IH]; [reflexivity|].
  cbn [map lookup fst snd]. destruct (str_eqb k k'); [reflexivity|exact IH].
Qed.

(** The list the handler stored is the list the next read sees. *)
Lemma stored_after_post (env : environment) (f : file) (req : request)
  (ps : props) (l : list json) :
  body_wf req = true ->
  readDb f = Ret (JObj ps) ->
  lookup (lit "callbacks") ps = Some (JArr l) ->
  callbacks_of
    (writeDb (JObj (set_prop ps (lit "callbacks")
                      (JArr (firstn 500 (build_record env req :: l)))))) =
  Some (map written (firstn 500 (build_record env req :: l))).
Proof.
  intros Hb Hread Hcb.
  pose proof (readDb_wf _ _ Hread) as Hwf. rewrite wf_json_object in Hwf.
  pose proof (lookup_wf _ _ _ (wf_props_values _ Hwf) Hcb) as Hl.
  assert (Hnew : wf_json (JArr (firstn 500 (build_record env req :: l))) = true).
  { change (forallb wf_json (firstn 500 (build_record env req :: l)) = true).
    apply forallb_firstn. cbn [forallb].
    rewrite (build_record_wf env req Hb). exact Hl. }
  unfold callbacks_of. rewrite readDb_writeDb.
  - cbn [written]. rewrite lookup_written.
    now rewrite (lookup_set_prop _ _ _ _ Hcb).
  - rewrite wf_json_object. now apply set_prop_wf.
Qed.

Lemma firstn_full (n : nat) (r : json) (l : list json) :
  length l = n -> (0 < n)%nat -> firstn n (r :: l) = r :: removelast l.
Proof.
  intros Hl Hn. destruct n as [|m]; [lia|].
  cbn [firstn]. f_equal. rewrite removelast_firstn_len, Hl. reflexivity.
Qed.

Lemma route_post_stored (AUTH_TOKEN : jsstring) (env : environment)
  (f : file) (req : request) (l : list json) :
  checkAuth AUTH_TOKEN req = Next ->
  body_wf req = true ->
  callbacks_of f = Some l ->
  exists res,
    route_post AUTH_TOKEN env f req = Ret res /\
    reply res = ok_reply /\
    console res = logged env req /\
    callbacks_of (file_after res) =
      Some (map written (firstn 500 (build_record env req :: l))).
Proof.
  intros Hauth Hb Hdb. unfold route_post, guarded. rewrite Hauth.
  apply callbacks_of_inv in Hdb as (ps & Hread & Hcb).
  rewrite (post_callback_appends _ _ _ _ _ Hread Hcb).
  eexists. split; [reflexivity|]. cbn [reply console file_after].
  split; [reflexivity|]. split; [reflexivity|].
  exact (stored_after_post env f req ps l Hb Hread Hcb).
Qed.

Lemma JArr_inj (a b : list json) : JArr a = JArr b -> a = b.
Proof. intros H. now injection H. Qed.

Lemma numbered_records_wf (s : list nat) :
  wf_json (JArr (map numbered_record s)) = true /\
  finite_json (JArr (map numbered_record s)) = true.
Proof.
  cbn [wf_json finite_json]. induction s as [|i s [IH1 IH2]]; [now split|].
  cbn [map forallb]. rewrite IH1, IH2. split; reflexivity.
Qed.

Lemma callbacks_of_writeDb (l : list json) :
  wf_json (JArr l) = true ->
  callbacks_of (writeDb (JObj [(lit "callbacks", JArr l)])) =
  Some (map written l).
Proof.
  intros Hwf. unfold callbacks_of. rewrite readDb_writeDb; [reflexivity|].
  rewrite wf_json_object. unfold wf_props.
  change (forallb (fun kv => wf_json (snd kv)) [(lit "callbacks", JArr l)])
    with (wf_json (JArr l) && true).
  rewrite Hwf. reflexivity.
Qed.

(** The store of [n] numbered records holds them. *)
Lemma store_of_callbacks (n : nat) :
  callbacks_of (store_of n) = Some (map numbered_record (seq 0 n)).
Proof.
  destruct (numbered_records_wf (seq 0 n)) as [Hwf Hfin].
  unfold store_of. rewrite (callbacks_of_writeDb _ Hwf). f_equal.
  apply JArr_inj. exact (written_finite _ Hfin).
Qed.

(** C2.  After every append the stored list has at most 500 records; an
    append to a list of 500 puts the new record first and drops the last
    one.  (The records are as the file holds them: a number that is not
    finite has become [null].) *)
Theorem store_capacity (AUTH_TOKEN : jsstring) (env : environment) (f : file)
  (req : request) (res : result) :
  checkAuth AUTH_TOKEN req = Next ->
  body_wf req = true ->
  route_post AUTH_TOKEN env f req = Ret res ->
  exists stored,
    callbacks_of (file_after res) = Some stored /\
    (length stored <= 500)%nat /\
    (forall l, callbacks_of f = Some l -> length l = 500%nat ->
               stored = map written (build_record env req :: removelast l) /\
               length stored = 500%nat).
Proof.
  intros Hauth Hb. unfold route_post, guarded. rewrite Hauth. intros Hres.
  destruct (post_callback_returns _ _ _ _ Hres) as (ps & l & Hread & Hcb).
  rewrite (post_callback_appends _ _ _ _ _ Hread Hcb) in Hres.
  injection Hres as <-. cbn [file_after].
  exists (map written (firstn 500 (build_record env req :: l))).
  split; [exact (stored_after_post env f req ps l Hb Hread Hcb)|].
  split; [rewrite length_map; apply firstn_le_length|].
  intros l' Hl' Hlen. unfold callbacks_of in Hl'. rewrite Hread, Hcb in Hl'.
  injection Hl' as <-.
  rewrite (firstn_full 500 _ l Hlen) by lia. split; [reflexivity|].
  rewrite length_map. cbn [length]. rewrite removelast_firstn_len.
  rewrite length_firstn. lia.
Qed.

(** C3.  A POST that passes the guard, on a store of fewer than 500
    records, is answered 200 with [{code: 200, msg: "ok"}], and the store
    then holds the new record followed by the records it held, one more
    than before; record and records are as the file holds them, and so
    as they were when all their numbers are finite. *)
Theorem post_appends (AUTH_TOKEN : jsstring) (env : environment) (f : file)
  (req : request) (l : list json) :
  checkAuth AUTH_TOKEN req = Next ->
  body_wf req = true ->
  callbacks_of f = Some l ->
  (length l < 500)%nat ->
  exists res stored,
    route_post AUTH_TOKEN env f req = Ret res /\
    reply res = ok_reply /\
    callbacks_of (file_after res) = Some stored /\
    stored = written (build_record env req) :: map written l /\
    length stored = S (length l) /\
    (finite_json (JArr (build_record env req :: l)) = true ->
     stored = build_record env req :: l).
Proof.
  intros Hauth Hb Hdb Hlen.
  destruct (route_post_stored AUTH_TOKEN env f req l Hauth Hb Hdb)
    as (res & Hres & Hreply & _ & Hstored).
  rewrite firstn_all2 in Hstored by (simpl; lia).
  exists res, (map written (build_record env req :: l)).
  split; [exact Hres|]. split; [exact Hreply|]. split; [exact Hstored|].
  split; [reflexivity|]. split; [now rewrite length_map|].
  intros Hfin. exact (JArr_inj _ _ (written_finite _ Hfin)).
Qed.

(** An append to a full store: the new record comes first, [r499], the
    oldest, is gone. *)
Lemma store_capacity_witness :
  exists res stored,
    route_post (lit "s3cret") sample_env (store_of 500) sample_post = Ret res /\
    callbacks_of (file_after res) = Some stored /\
    (length stored <= 500)%nat /\
    stored = map written (build_record sample_env sample_post ::
                          removelast (map numbered_record (seq 0 500))) /\
    length stored = 500%nat.
Proof.
  destruct (route_post_stored (lit "s3cret") sample_env (store_of 500)
              sample_post _ eq_refl eq_refl (store_of_callbacks 500))
    as (res & Hres & _).
  destruct (store_capacity (lit "s3cret") sample_env (store_of 500) sample_post
              res eq_refl eq_refl Hres) as (stored & Hs & Hlen & Hfull).
  exists res, stored. split; [exact Hres|]. split; [exact Hs|].
  split; [exact Hlen|].
  apply (Hfull _ (store_of_callbacks 500)).
  rewrite length_map, length_seq. reflexivity.
Defined.

Lemma post_appends_witness :
  exists res stored,
    route_post (lit "s3cret") sample_env (store_of 2) sample_post = Ret res /\
    reply res = ok_reply /\
    callbacks_of (file_after res) = Some stored /\
    stored = written (build_record sample_env sample_post) ::
             map written (map numbered_record (seq 0 2)) /\
    length stored = S (length (map numbered_record (seq 0 2))) /\
    (finite_json (JArr (build_record sample_env sample_post ::
                        map numbered_record (seq 0 2))) = true ->
     stored = build_record sample_env sample_post ::
              map numbered_record (seq 0 2)).
Proof.
  apply (post_appends (lit "s3cret") sample_env (store_of 2) sample_post
                      (map numbered_record (seq 0 2))).
  - reflexivity.
  - reflexivity.
  - vm_compute. reflexivity.
  - simpl. lia.
Defined.
(** ** Conversion to strings *)

Lemma map_outcome_returns {A B : Type} (f : A -> outcome B) (l : list A) :
  Forall (fun a => exists b, f a = Ret b) l ->
  exists bs, map_outcome f l = Ret bs.
Proof.
  induction 1 as [|a l [b Hb] _ [bs IH]]; [now exists []|].
  exists (b :: bs). cbn [map_outcome]. now rewrite Hb, IH.
Qed.

(** [ToString] converts every plain value. *)
Lemma to_string_plain (v : json) :
  plain v = true -> exists s, to_string v = Ret s.
Proof.
  induction v as [| b | x | s | l IH | l IH] using json_induction;
    cbn [plain to_string]; intros H.
  - now eexists.
  - destruct b; now eexists.
  - now eexists.
  - now eexists.
  - destruct (map_outcome_returns
                (fun e => match e with JNull => Ret [] | _ => to_string e end) l)
      as [parts Hp].
    + rewrite Forall_forall in IH |- *. intros e He.
      rewrite forallb_forall in H.
      destruct (IH e He (H e He)) as [s Hs].
      destruct e; try (now exists s); now exists [].
    + rewrite Hp. now eexists.
  - apply andb_true_iff in H as [H _]. apply negb_true_iff in H.
    rewrite H. now eexists.
Qed.

Lemma ToString_plain (v : jsval) :
  plain_val v = true -> exists s, ToString v = Ret s.
Proof.
  destruct v as [j|]; [apply to_string_plain | now eexists].
Qed.

Lemma plain_lookup (k : jsstring) (l : props) :
  forallb (fun kv => plain (snd kv)) l = true -> plain_val (lookup k l) = true.
Proof.
  induction l as [|[k' v] l IH]; [reflexivity|].
  cbn [forallb snd lookup]. intros H. apply andb_true_iff in H as [H1 H2].
  destruct (str_eqb k k'); [exact H1 | exact (IH H2)].
Qed.

Lemma plain_oget (v : jsval) (k : jsstring) :
  plain_val v = true -> plain_val (oget v k) = true.
Proof.
  destruct v as [[| | | | |l]|]; try reflexivity.
  cbn [plain_val plain oget]. intros H. apply andb_true_iff in H as [_ H].
  now apply plain_lookup.
Qed.

Lemma plain_or_else (a b : jsval) :
  plain_val a = true -> plain_val b = true -> plain_val (a ||| b) = true.
Proof. intros Ha Hb. unfold or_else. now destruct (truthy a). Qed.

Lemma plain_probes (payload : jsval) :
  plain_val payload = true ->
  plain_val (probe_status payload) = true /\
  plain_val (probe_taskId payload) = true /\
  plain_val (probe_downloadUrl payload) = true.
Proof.
  intros H. unfold probe_status, probe_taskId, probe_downloadUrl.
  repeat split; repeat apply plain_or_else; repeat apply plain_oget; exact H.
Qed.


(** ** Dashboard *)

(** The row of an entry that can be shown, cell by cell. *)
Lemma render_row_cells (c : json) :
  showable c ->
  exists id receivedAt status taskId video,
    ToString (oget (Some c) (lit "id")) = Ret id /\
    ToString (oget (Some c) (lit "receivedAt")) = Ret receivedAt /\
    ToString (probe_status (oget (Some c) (lit "payload")) |||
              Some (JStr (lit "unknown"))) = Ret status /\
    ToString (probe_taskId (oget (Some c) (lit "payload")) |||
              Some (JStr dash)) = Ret taskId /\
    (if truthy (probe_downloadUrl (oget (Some c) (lit "payload")) |||
                Some (JStr []))
     then exists url,
            ToString (probe_downloadUrl (oget (Some c) (lit "payload")) |||
                      Some (JStr [])) = Ret url /\
            video = download_link url
     else video = dash) /\
    render_row c = Ret (row_cells id receivedAt status taskId video).
Proof.
  intros [Hc Hp].
  assert (Hv : plain_val (Some c) = true) by exact Hp.
  destruct (plain_probes _ (plain_oget _ (lit "payload") Hv)) as (Ps & Pt & Pu).
  destruct (ToString_plain _ (plain_oget _ (lit "id") Hv)) as [id Hid].
  destruct (ToString_plain _ (plain_oget _ (lit "receivedAt") Hv)) as [rec Hrec].
  destruct (ToString_plain _ (plain_or_else _ (Some (JStr (lit "unknown")))
                                Ps eq_refl)) as [st Hst].
  destruct (ToString_plain _ (plain_or_else _ (Some (JStr dash)) Pt eq_refl))
    as [tid Htid].
  destruct (ToString_plain _ (plain_or_else _ (Some (JStr [])) Pu eq_refl))
    as [url Hurl].
  exists id, rec, st, tid,
    (if truthy (probe_downloadUrl (oget (Some c) (lit "payload")) |||
                Some (JStr []))
     then download_link url else dash).
  split; [exact Hid|]. split; [exact Hrec|]. split; [exact Hst|].
  split; [exact Htid|]. split.
  - destruct (truthy _); [|reflexivity]. now exists url.
  - unfold render_row. rewrite !(get_oget _ _ Hc). cbn [bind].
    rewrite Hid. cbn [bind]. rewrite Hrec. cbn [bind].
    rewrite Hst. cbn [bind]. rewrite Htid. cbn [bind].
    destruct (truthy _); [rewrite Hurl|]; reflexivity.
Qed.


Lemma render_rows (l : list json) :
  Forall showable l ->
  exists rows,
    map_outcome render_row l = Ret rows /\
    Forall2 (fun c row => render_row c = Ret row) l rows.
Proof.
  induction 1 as [|c l Hc _ (rows & Hrows & Hall)].
  - exists []. split; [reflexivity | constructor].
  - destruct (render_row_cells c Hc)
      as (id & rec & st & tid & video & _ & _ & _ & _ & _ & E).
    eexists (_ :: rows). cbn [map_outcome]. rewrite E, Hrows.
    split; [reflexivity|]. now constructor.
Qed.

Lemma dashboard_rows (f : file) (l : list json) (rows : list jsstring) :
  callbacks_of f = Some l ->
  map_outcome render_row (firstn 50 l) = Ret rows ->
  dashboard f = Ret (quiet f (html_reply (page (join nl rows)))).
Proof.
  intros Hdb Hrows.
  apply callbacks_of_inv in Hdb as (ps & Hread & Hcb).
  unfold dashboard. rewrite Hread. cbn [bind get]. rewrite Hcb.
  cbn [bind as_array]. rewrite Hrows. reflexivity.
Qed.

(** The page is an HTML document whose table body holds the rows, or the
    row [No data] when there is none. *)
Lemma page_is_table (rows : jsstring) :
  table_page (page rows)
    (if nonempty rows then rows
     else lit "<tr><td colspan=" ++ dq ++ lit "5" ++ dq ++
          lit ">No data</td></tr>").
Proof.
  exists (firstn (length page_head - 14) page_head), (skipn 13 page_tail).
  split; [|reflexivity].
  unfold page.
  assert (Eh : page_head =
               firstn (length page_head - 14) page_head ++
               lit "<tbody>" ++ nl ++ lit "      ") by (vm_compute; reflexivity).
  assert (Et : page_tail = nl ++ lit "    </tbody>" ++ skipn 13 page_tail)
    by (vm_compute; reflexivity).
  rewrite Eh at 1. rewrite Et at 1. rewrite <- !app_assoc.
  destruct (nonempty rows); reflexivity.
Qed.


Lemma rendered_nonempty (c : json) (row : jsstring) :
  showable c -> render_row c = Ret row -> nonempty row = true.
Proof.
  intros Hc Hrow.
  destruct (render_row_cells c Hc)
    as (id & rec & st & tid & video & _ & _ & _ & _ & _ & E).
  rewrite E in Hrow. injection Hrow as <-. reflexivity.
Qed.

Lemma join_nonempty (sep : jsstring) (rows : list jsstring) :
  Forall (fun r => nonempty r = true) rows ->
  nonempty (join sep rows) = match rows with [] => false | _ => true end.
Proof.
  destruct 1 as [|r rows Hr _]; [reflexivity|].
  destruct r as [|c r]; [discriminate|]. destruct rows; reflexivity.
Qed.

Lemma Forall2_Forall_r {A B : Type} (R : A -> B -> Prop) (P : A -> Prop)
  (Q : B -> Prop) (l : list A) (rows : list B) :
  (forall a b, P a -> R a b -> Q b) ->
  Forall P l -> Forall2 R l rows -> Forall Q rows.
Proof.
  intros HPQ HP H. induction H as [|a b l rows Hab _ IH]; [constructor|].
  inversion HP as [|? ? Ha Hl]; subst.
  constructor; [exact (HPQ a b Ha Hab) | exact (IH Hl)].
Qed.



(** What GET / sends for a stored list whose first 50 entries can be
    shown. *)
Lemma dashboard_shows (f : file) (l : list json) :
  callbacks_of f = Some l ->
  Forall showable (firstn 50 l) ->
  exists rows,
    dashboard f = Ret (quiet f (html_reply (page (join nl rows)))) /\
    Forall2 (fun c row => render_row c = Ret row) (firstn 50 l) rows /\
    nonempty (join nl rows) = match rows with [] => false | _ => true end.
Proof.
  intros Hdb Hl. destruct (render_rows _ Hl) as (rows & Hrows & Hall).
  exists rows. split; [exact (dashboard_rows f l rows Hdb Hrows)|].
  split; [exact Hall|]. apply join_nonempty.
  exact (Forall2_Forall_r _ _ _ _ _ rendered_nonempty Hl Hall).
Qed.





Lemma truthy_string (s : jsstring) (d : jsval) :
  s <> [] -> Some (JStr s) ||| d = Some (JStr s).
Proof. destruct s; [congruence | reflexivity]. Qed.









(* ================================================================== *)
(** * Part III: further properties of the code                         *)
(* ================================================================== *)

(** ** The store *)


Lemma readDb_returns (f : file) : exists db, readDb f = Ret db.
Proof.
  rewrite readDb_cases. destruct f as [|raw]; [now eexists|].
  destruct (JSON_parse raw); now eexists.
Qed.

(** ** The guard on the routes *)

Lemma checkAuth_verdict (AUTH_TOKEN : jsstring) (req : request) :
  checkAuth AUTH_TOKEN req = Next \/
  checkAuth AUTH_TOKEN req = Rejected unauthorized.
Proof.
  unfold checkAuth. destruct (negb (nonempty AUTH_TOKEN)); [now left|].
  destruct (query_truthy _ && query_is _ _); [now left|].
  destruct (nonempty _ && str_eqb _ _); [now left | now right].
Qed.

(** X3.  A request the guard turns away gets 401 on each guarded route
    and nothing else happens: the file is neither read nor written (the
    answer is 401 even where the handler would throw) and nothing is
    logged. *)
Theorem rejected_leaves_no_trace (AUTH_TOKEN : jsstring) (env : environment)
  (f : file) (req : request) :
  checkAuth AUTH_TOKEN req <> Next ->
  route_post AUTH_TOKEN env f req = Ret (quiet f unauthorized) /\
  route_list AUTH_TOKEN f req = Ret (quiet f unauthorized) /\
  route_get AUTH_TOKEN f req = Ret (quiet f unauthorized).
Proof.
  intros H. destruct (checkAuth_verdict AUTH_TOKEN req) as [E|E];
    [contradiction|].
  unfold route_post, route_list, route_get, guarded. rewrite E.
  repeat split.
Qed.

Lemma rejected_leaves_no_trace_witness :
  route_post (lit "s3cret") sample_env (Contents (lit "null")) plain_request =
    Ret (quiet (Contents (lit "null")) unauthorized) /\
  route_list (lit "s3cret") (Contents (lit "null")) plain_request =
    Ret (quiet (Contents (lit "null")) unauthorized) /\
  route_get (lit "s3cret") (Contents (lit "null")) plain_request =
    Ret (quiet (Contents (lit "null")) unauthorized).
Proof.
  apply (rejected_leaves_no_trace (lit "s3cret") sample_env
           (Contents (lit "null")) plain_request).
  discriminate.
Defined.

Lemma list_callbacks_quiet (f : file) (res : result) :
  list_callbacks f = Ret res -> file_after res = f /\ console res = [].
Proof.
  unfold list_callbacks, answer.
  destruct (readDb f) as [db|]; [|discriminate]. cbn [bind].
  destruct (get (Some db) (lit "callbacks")); [|discriminate]. cbn [bind].
  intros H. injection H as <-. split; reflexivity.
Qed.

Lemma get_callback_quiet (f : file) (req : request) (res : result) :
  get_callback f req = Ret res -> file_after res = f /\ console res = [].
Proof.
  unfold get_callback, answer.
  destruct (readDb f) as [db|]; [|discriminate]. cbn [bind].
  destruct (get (Some db) (lit "callbacks")) as [cbs|]; [|discriminate].
  cbn [bind]. destruct (as_array cbs) as [l|]; [|discriminate]. cbn [bind].
  destruct (find_id (params_id req) l) as [found|]; [|discriminate].
  cbn [bind]. destruct (negb (truthy found));
    intros H; injection H as <-; split; reflexivity.
Qed.

Lemma dashboard_quiet (f : file) (res : result) :
  dashboard f = Ret res -> file_after res = f /\ console res = [].
Proof.
  unfold dashboard, answer.
  destruct (readDb f) as [db|]; [|discriminate]. cbn [bind].
  destruct (get (Some db) (lit "callbacks")) as [cbs|]; [|discriminate].
  cbn [bind]. destruct (as_array cbs) as [l|]; [|discriminate]. cbn [bind].
  destruct (map_outcome render_row (firstn 50 l)); [|discriminate].
  cbn [bind]. intros H. injection H as <-. split; reflexivity.
Qed.

(** X4.  The three GET routes only read: whenever one of them answers,
    the file is what it was and nothing was logged. *)
Theorem get_routes_only_read (AUTH_TOKEN : jsstring) (f : file)
  (req : request) (res : result) :
  route_list AUTH_TOKEN f req = Ret res \/
  route_get AUTH_TOKEN f req = Ret res \/
  route_root AUTH_TOKEN f req = Ret res ->
  file_after res = f /\ console res = [].
Proof.
  unfold route_list, route_get, route_root, guarded.
  destruct (checkAuth_verdict AUTH_TOKEN req) as [E|E]; rewrite E.
  - intros [H|[H|H]].
    + exact (list_callbacks_quiet f res H).
    + exact (get_callback_quiet f req res H).
    + exact (dashboard_quiet f res H).
  - intros [H|[H|H]].
    + injection H as <-. split; reflexivity.
    + injection H as <-. split; reflexivity.
    + exact (dashboard_quiet f res H).
Qed.

Lemma get_routes_only_read_witness :
  file_after (quiet markup_store (found_reply markup_record)) = markup_store /\
  console (quiet markup_store (found_reply markup_record)) = [].
Proof.
  apply (get_routes_only_read (lit "s3cret") markup_store lookup_request).
  right. left. vm_compute. reflexivity.
Defined.

(** ** Receiving a callback *)

Lemma readDb_unreadable (f : file) :
  readFileSync f = Throw FsError \/
  (exists raw e, f = Contents raw /\ JSON_parse raw = Throw e) ->
  readDb f = Ret empty_doc.
Proof.
  rewrite readDb_cases. intros [H|(raw & e & -> & H)].
  - destruct f; [reflexivity | discriminate].
  - now rewrite H.
Qed.

Lemma route_post_appends (AUTH_TOKEN : jsstring) (env : environment)
  (f : file) (req : request) (ps : props) (l : list json) :
  checkAuth AUTH_TOKEN req = Next ->
  readDb f = Ret (JObj ps) ->
  lookup (lit "callbacks") ps = Some (JArr l) ->
  exists res,
    route_post AUTH_TOKEN env f req = Ret res /\
    reply res = ok_reply /\
    file_after res =
      writeDb (JObj (set_prop ps (lit "callbacks")
                       (JArr (firstn 500 (build_record env req :: l))))).
Proof.
  intros Hauth Hread Hcb. unfold route_post, guarded. rewrite Hauth.
  rewrite (post_callback_appends _ _ _ _ _ Hread Hcb).
  eexists. split; [reflexivity|]. split; reflexivity.
Qed.



Lemma lookup_replace_value_other (k k' : jsstring) (v : json) (ps : props) :
  k <> k' -> lookup k (replace_value k' v ps) = lookup k ps.
Proof.
  intros Hk. induction ps as [|[k0 v0] ps IH]; [reflexivity|].
  cbn [replace_value]. destruct (str_eqb k' k0) eqn:E.
  - apply str_eqb_eq in E. subst k0. cbn [lookup].
    now rewrite (proj2 (str_eqb_neq k k') Hk).
  - cbn [lookup]. now rewrite IH.
Qed.

Lemma posted_document_wf (env : environment) (f : file) (req : request)
  (ps : props) (l : list json) :
  body_wf req = true ->
  readDb f = Ret (JObj ps) ->
  lookup (lit "callbacks") ps = Some (JArr l) ->
  wf_json (JObj (set_prop ps (lit "callbacks")
                   (JArr (firstn 500 (build_record env req :: l))))) = true.
Proof.
  intros Hb Hread Hcb.
  pose proof (readDb_wf _ _ Hread) as Hwf. rewrite wf_json_object in Hwf.
  pose proof (lookup_wf _ _ _ (wf_props_values _ Hwf) Hcb) as Hl.
  rewrite wf_json_object. apply set_prop_wf; [exact Hwf|].
  change (forallb wf_json (firstn 500 (build_record env req :: l)) = true).
  apply forallb_firstn. cbn [forallb].
  rewrite (build_record_wf env req Hb). exact Hl.
Qed.

(** X6.  The handler assigns to the [callbacks] property and to nothing
    else: the stored document keeps its properties and their order, and
    every other property keeps its value, but for numbers that are not
    finite, which the rewrite turns into [null]. *)
Theorem post_keeps_other_properties (AUTH_TOKEN : jsstring)
  (env : environment) (f : file) (req : request) (ps : props)
  (l : list json) :
  checkAuth AUTH_TOKEN req = Next ->
  body_wf req = true ->
  readDb f = Ret (JObj ps) ->
  lookup (lit "callbacks") ps = Some (JArr l) ->
  exists res ps',
    route_post AUTH_TOKEN env f req = Ret res /\
    readDb (file_after res) = Ret (JObj ps') /\
    map fst ps' = map fst ps /\
    (forall k, k <> lit "callbacks" ->
               lookup k ps' = option_map written (lookup k ps)).
Proof.
  intros Hauth Hb Hread Hcb.
  destruct (route_post_appends AUTH_TOKEN env f req ps l Hauth Hread Hcb)
    as (res & Hres & _ & Hfile).
  exists res,
    (map (fun kv => (fst kv, written (snd kv)))
       (set_prop ps (lit "callbacks")
          (JArr (firstn 500 (build_record env req :: l))))).
  split; [exact Hres|]. rewrite Hfile.
  split; [exact (readDb_writeDb _ (posted_document_wf env f req ps l Hb Hread Hcb))|].
  unfold set_prop. rewrite (lookup_has_key _ _ _ Hcb).
  split; [rewrite written_keys; apply replace_value_keys|].
  intros k Hk. rewrite lookup_written. f_equal.
  now apply lookup_replace_value_other.
Qed.

Lemma post_keeps_other_properties_witness :
  exists res ps',
    route_post [] sample_env
      (writeDb (JObj [ (lit "callbacks", JArr []); (lit "note", JStr (lit "x")) ]))
      sample_post = Ret res /\
    readDb (file_after res) = Ret (JObj ps') /\
    map fst ps' = map fst [ (lit "callbacks", JArr []); (lit "note", JStr (lit "x")) ] /\
    (forall k, k <> lit "callbacks" ->
       lookup k ps' =
       option_map written
         (lookup k [ (lit "callbacks", JArr []); (lit "note", JStr (lit "x")) ])).
Proof.
  apply (post_keeps_other_properties [] sample_env _ sample_post _ []).
  - reflexivity.
  - reflexivity.
  - vm_compute. reflexivity.
  - reflexivity.
Defined.

Lemma list_callbacks_data (f : file) (ps : props) (v : json) :
  readDb f = Ret (JObj ps) ->
  lookup (lit "callbacks") ps = Some v ->
  list_callbacks f = Ret (quiet f (list_reply v)).
Proof.
  intros Hread Hcb. unfold list_callbacks. rewrite Hread. cbn [bind get].
  rewrite Hcb. reflexivity.
Qed.

(** X7.  GET /callbacks answers with the whole stored list (not a page
    of it), and after an accepted POST that list is the new record and
    then the records stored before, cut to 500, all as the file holds
    them. *)
Theorem list_after_post (AUTH_TOKEN : jsstring) (env : environment)
  (f : file) (req req' : request) (l : list json) :
  checkAuth AUTH_TOKEN req = Next ->
  checkAuth AUTH_TOKEN req' = Next ->
  body_wf req = true ->
  callbacks_of f = Some l ->
  route_list AUTH_TOKEN f req' = Ret (quiet f (list_reply (JArr l))) /\
  exists res,
    route_post AUTH_TOKEN env f req = Ret res /\
    route_list AUTH_TOKEN (file_after res) req' =
    Ret (quiet (file_after res)
               (list_reply (JArr (map written
                                    (firstn 500 (build_record env req :: l)))))).
Proof.
  intros Hauth Hauth' Hb Hdb.
  apply callbacks_of_inv in Hdb as (ps & Hread & Hcb).
  unfold route_list, guarded. rewrite Hauth'.
  split; [exact (list_callbacks_data f ps _ Hread Hcb)|].
  destruct (route_post_appends AUTH_TOKEN env f req ps l Hauth Hread Hcb)
    as (res & Hres & _ & Hfile).
  exists res. split; [exact Hres|]. rewrite Hfile.
  apply (list_callbacks_data _
           (map (fun kv => (fst kv, written (snd kv)))
              (set_prop ps (lit "callbacks")
                 (JArr (firstn 500 (build_record env req :: l)))))).
  - exact (readDb_writeDb _ (posted_document_wf env f req ps l Hb Hread Hcb)).
  - rewrite lookup_written. now rewrite (lookup_set_prop _ _ _ _ Hcb).
Qed.

(** On a full store, where the cut drops the oldest record. *)
Lemma list_after_post_witness :
  route_list (lit "s3cret") (store_of 500) lookup_request =
    Ret (quiet (store_of 500)
               (list_reply (JArr (map numbered_record (seq 0 500))))) /\
  exists res,
    route_post (lit "s3cret") sample_env (store_of 500) sample_post = Ret res /\
    route_list (lit "s3cret") (file_after res) lookup_request =
    Ret (quiet (file_after res)
               (list_reply
                  (JArr (map written
                           (firstn 500 (build_record sample_env sample_post ::
                                        map numbered_record (seq 0 500))))))).
Proof.
  apply (list_after_post (lit "s3cret") sample_env (store_of 500) sample_post
           lookup_request (map numbered_record (seq 0 500))).
  - reflexivity.
  - reflexivity.
  - reflexivity.
  - apply store_of_callbacks.
Defined.

Lemma record_has_id (env : environment) (req : request) :
  get (Some (build_record env req)) (lit "id") = Ret (Some (JStr (record_id env))).
Proof. reflexivity. Qed.




(** ** Queries *)

(** X9.  GET /callbacks checks no shape: with the guard passed it fails
    (a [TypeError]) exactly when the file holds [null], and answers 200
    for every other content, with whatever [callbacks] holds as [data]. *)
Theorem list_fails_only_on_null (AUTH_TOKEN : jsstring) (f : file)
  (req : request) :
  checkAuth AUTH_TOKEN req = Next ->
  (readDb f = Ret JNull -> route_list AUTH_TOKEN f req = Throw TypeError) /\
  (readDb f <> Ret JNull ->
   exists r, route_list AUTH_TOKEN f req = Ret (quiet f r) /\ status r = 200) /\
  (forall ps v, readDb f = Ret (JObj ps) ->
                lookup (lit "callbacks") ps = Some v ->
                route_list AUTH_TOKEN f req = Ret (quiet f (list_reply v))).
Proof.
  intros Hauth. unfold route_list, guarded. rewrite Hauth.
  split; [|split].
  - intros H. unfold list_callbacks. now rewrite H.
  - intros H. unfold list_callbacks.
    destruct (readDb_returns f) as [db Hdb]. rewrite Hdb in *.
    destruct db; try (now elim H); eexists; split; reflexivity.
  - intros ps v Hread Hcb. exact (list_callbacks_data f ps v Hread Hcb).
Qed.

Lemma list_fails_only_on_null_witness :
  route_list [] (Contents (lit "null")) plain_request = Throw TypeError /\
  exists r, route_list [] (Contents (lit "{}")) plain_request =
            Ret (quiet (Contents (lit "{}")) r) /\ status r = 200.
Proof.
  split.
  - apply (proj1 (list_fails_only_on_null [] (Contents (lit "null"))
                    plain_request eq_refl)).
    reflexivity.
  - apply (proj1 (proj2 (list_fails_only_on_null [] (Contents (lit "{}"))
                           plain_request eq_refl))).
    discriminate.
Defined.

Lemma find_id_skips (id : jsstring) (pre rest : list json) :
  Forall (fun x => x <> JNull /\ has_id id x = false) pre ->
  find_id id (pre ++ rest) = find_id id rest.
Proof.
  induction 1 as [|x pre [Hx Hid] _ IH]; [reflexivity|].
  cbn [app find_id]. rewrite (get_oget _ _ Hx). cbn [bind].
  unfold has_id in Hid. now rewrite Hid.
Qed.

Lemma find_id_hit (id : jsstring) (c : json) (rest : list json) :
  has_id id c = true -> find_id id (c :: rest) = Ret (Some c).
Proof.
  intros H. assert (Hc : c <> JNull) by (intros ->; discriminate H).
  cbn [find_id]. rewrite (get_oget _ _ Hc). cbn [bind].
  unfold has_id in H. now rewrite H.
Qed.

Lemma get_callback_found (f : file) (req : request) (l : list json) (c : json) :
  callbacks_of f = Some l ->
  find_id (params_id req) l = Ret (Some c) ->
  has_id (params_id req) c = true ->
  get_callback f req = Ret (quiet f (found_reply c)).
Proof.
  intros Hdb Hfind Hid.
  apply callbacks_of_inv in Hdb as (ps & Hread & Hcb).
  unfold get_callback. rewrite Hread. cbn [bind get]. rewrite Hcb.
  cbn [bind as_array]. rewrite Hfind. cbn [bind].
  now rewrite (has_id_truthy _ _ Hid).
Qed.

(** X10.  The search of GET /callbacks/:id stops at the first record
    with the id: that record is the answer, and what is stored after it
    (a second record with the same id, an entry that is [null]) is not
    looked at. *)
Theorem get_stops_at_first_match (AUTH_TOKEN : jsstring) (f : file)
  (req : request) (before after : list json) (c : json) :
  checkAuth AUTH_TOKEN req = Next ->
  callbacks_of f = Some (before ++ c :: after) ->
  Forall (fun x => x <> JNull /\ has_id (params_id req) x = false) before ->
  has_id (params_id req) c = true ->
  route_get AUTH_TOKEN f req = Ret (quiet f (found_reply c)).
Proof.
  intros Hauth Hdb Hbefore Hc. unfold route_get, guarded. rewrite Hauth.
  apply (get_callback_found f req _ c Hdb); [|exact Hc].
  rewrite (find_id_skips _ _ _ Hbefore). now apply find_id_hit.
Qed.

Lemma get_stops_at_first_match_witness :
  route_get [] holed_store null_request =
  Ret (quiet holed_store (found_reply (numbered_record 1))).
Proof.
  apply (get_stops_at_first_match [] holed_store null_request
           [numbered_record 0] [JNull; numbered_record 3] (numbered_record 1)).
  - reflexivity.
  - vm_compute. reflexivity.
  - repeat constructor. discriminate.
  - reflexivity.
Defined.

(** X11.  An entry that is [null] and comes before any record with the
    id makes GET /callbacks/:id throw a [TypeError] instead of answering
    404 or finding a later record. *)
Theorem get_throws_on_null_entry (AUTH_TOKEN : jsstring) (f : file)
  (req : request) (before after : list json) :
  checkAuth AUTH_TOKEN req = Next ->
  callbacks_of f = Some (before ++ JNull :: after) ->
  Forall (fun x => x <> JNull /\ has_id (params_id req) x = false) before ->
  route_get AUTH_TOKEN f req = Throw TypeError.
Proof.
  intros Hauth Hdb Hbefore. unfold route_get, guarded. rewrite Hauth.
  apply callbacks_of_inv in Hdb as (ps & Hread & Hcb).
  unfold get_callback. rewrite Hread. cbn [bind get]. rewrite Hcb.
  cbn [bind as_array]. now rewrite (find_id_skips _ _ _ Hbefore).
Qed.

Lemma get_throws_on_null_entry_witness :
  route_get [] holed_store
    {| query_token := None; headers := []; body := None;
       remoteAddress := None; params_id := lit "r3" |} = Throw TypeError.
Proof.
  apply (get_throws_on_null_entry [] holed_store _
           [numbered_record 0; numbered_record 1] [numbered_record 3]).
  - reflexivity.
  - vm_compute. reflexivity.
  - repeat constructor; discriminate.
Defined.

(** ** Dashboard *)

(** Whatever is thrown while a value is converted or a row is made is a
    [TypeError]. *)
Lemma map_outcome_throws {A B : Type} (f : A -> outcome B) (l : list A)
  (e : js_error) :
  Forall (fun a => forall e, f a = Throw e -> e = TypeError) l ->
  map_outcome f l = Throw e -> e = TypeError.
Proof.
  induction 1 as [|a l Ha _ IH]; [discriminate|].
  cbn [map_outcome]. destruct (f a) as [b|e'] eqn:E; cbn [bind].
  - destruct (map_outcome f l) as [bs|e'']; cbn [bind]; [discriminate|].
    intros H. injection H as <-. now apply IH.
  - intros H. injection H as <-. now apply Ha.
Qed.

Lemma to_string_throws (v : json) (e : js_error) :
  to_string v = Throw e -> e = TypeError.
Proof.
  revert e.
  induction v as [| b | x | s | l IH | l IH] using json_induction;
    intros e; cbn [to_string]; try discriminate.
  - destruct b; discriminate.
  - destruct (map_outcome _ l) as [parts|e'] eqn:E; cbn [bind]; [discriminate|].
    intros H. injection H as <-.
    refine (map_outcome_throws _ l e' _ E).
    rewrite Forall_forall in IH |- *. intros a Ha e''.
    destruct a; try discriminate; apply (IH _ Ha).
  - destruct (has_key _ l); [|discriminate]. intros H. now injection H.
Qed.

Lemma ToString_throws (v : jsval) (e : js_error) :
  ToString v = Throw e -> e = TypeError.
Proof. destruct v as [j|]; [apply to_string_throws | discriminate]. Qed.

Lemma get_throws (v : jsval) (k : jsstring) (e : js_error) :
  get v k = Throw e -> e = TypeError.
Proof.
  destruct v as [[| | | | |l]|]; cbn [get]; try discriminate;
    intros H; now injection H.
Qed.

Ltac step_throw :=
  match goal with
  | |- bind ?m _ = Throw _ -> _ =>
      let E := fresh "E" in
      destruct m eqn:E; cbn [bind];
      [ clear E
      | let H := fresh in
        intros H; injection H as <-;
        first [ exact (ToString_throws _ _ E) | exact (get_throws _ _ _ E) ] ]
  end.

Lemma render_row_throws (c : json) (e : js_error) :
  render_row c = Throw e -> e = TypeError.
Proof.
  unfold render_row. do 7 step_throw.
  destruct (truthy _); cbn [bind]; [|discriminate].
  destruct (ToString _) eqn:E; cbn [bind]; [discriminate|].
  intros H. injection H as <-. exact (ToString_throws _ _ E).
Qed.

Lemma map_render_row_throws (l : list json) (e : js_error) :
  map_outcome render_row l = Throw e -> e = TypeError.
Proof.
  apply map_outcome_throws. apply Forall_forall. intros c _ e'.
  apply render_row_throws.
Qed.

Lemma map_render_row_null (l : list json) :
  In JNull l -> map_outcome render_row l = Throw TypeError.
Proof.
  induction l as [|c l IH]; [intros []|].
  intros [->|Hin]; [reflexivity|]. cbn [map_outcome].
  destruct (render_row c) as [row|e] eqn:E; cbn [bind].
  - now rewrite (IH Hin).
  - now rewrite (render_row_throws c e E).
Qed.

(** X12.  One entry that is [null] among the first 50 makes GET / throw
    a [TypeError]: no page is sent, not even for the other records. *)
Theorem dashboard_throws_on_null_entry (AUTH_TOKEN : jsstring) (f : file)
  (req : request) (l : list json) :
  callbacks_of f = Some l ->
  In JNull (firstn 50 l) ->
  route_root AUTH_TOKEN f req = Throw TypeError.
Proof.
  intros Hdb Hin. apply callbacks_of_inv in Hdb as (ps & Hread & Hcb).
  unfold route_root, dashboard. rewrite Hread. cbn [bind get]. rewrite Hcb.
  cbn [bind as_array]. now rewrite (map_render_row_null _ Hin).
Qed.

Lemma dashboard_throws_on_null_entry_witness :
  route_root (lit "s3cret") holed_store plain_request = Throw TypeError.
Proof.
  apply (dashboard_throws_on_null_entry (lit "s3cret") holed_store plain_request
           [numbered_record 0; numbered_record 1; JNull; numbered_record 3]).
  - vm_compute. reflexivity.
  - right. right. left. reflexivity.
Defined.

(** X13.  With no record to show GET / sends an HTML document whose
    table body is the single row [No data]; a file that is missing or
    does not parse counts as no record. *)
Theorem dashboard_of_nothing (AUTH_TOKEN : jsstring) (f : file)
  (req : request) :
  callbacks_of f = Some [] \/
  readFileSync f = Throw FsError \/
  (exists raw e, f = Contents raw /\ JSON_parse raw = Throw e) ->
  exists text,
    route_root AUTH_TOKEN f req = Ret (quiet f (html_reply text)) /\
    table_page text
      (lit "<tr><td colspan=" ++ dq ++ lit "5" ++ dq ++ lit ">No data</td></tr>").
Proof.
  intros H.
  assert (Hdb : callbacks_of f = Some []).
  { destruct H as [H|H]; [exact H|].
    unfold callbacks_of. now rewrite (readDb_unreadable f H). }
  exists (page (join nl [])). split.
  - exact (dashboard_rows f [] [] Hdb eq_refl).
  - exact (page_is_table (join nl [])).
Qed.

Lemma dashboard_of_nothing_witness :
  exists text,
    route_root (lit "s3cret") NoFile plain_request =
      Ret (quiet NoFile (html_reply text)) /\
    table_page text
      (lit "<tr><td colspan=" ++ dq ++ lit "5" ++ dq ++ lit ">No data</td></tr>").
Proof.
  apply (dashboard_of_nothing (lit "s3cret") NoFile plain_request).
  right. left. reflexivity.
Defined.

(** What GET / does is decided by the first 50 entries of the list. *)
Lemma dashboard_cases (f : file) (l : list json) :
  callbacks_of f = Some l ->
  dashboard f =
  match map_outcome render_row (firstn 50 l) with
  | Ret rows => Ret (quiet f (html_reply (page (join nl rows))))
  | Throw _ => Throw TypeError
  end.
Proof.
  intros Hdb. destruct (map_outcome render_row (firstn 50 l)) as [rows|e] eqn:E.
  - exact (dashboard_rows f l rows Hdb E).
  - apply callbacks_of_inv in Hdb as (ps & Hread & Hcb).
    unfold dashboard. rewrite Hread. cbn [bind get]. rewrite Hcb.
    cbn [bind as_array]. rewrite E. cbn [bind].
    now rewrite (map_render_row_throws _ e E).
Qed.

(** X14.  What GET / answers depends on the first 50 stored entries
    only: on two stores that agree on them it sends the same page, or
    throws on both, whatever follows the 50 and whatever the requests
    and the configured tokens are. *)
Theorem dashboard_sees_first_50 (AUTH_TOKEN AUTH_TOKEN' : jsstring)
  (f f' : file) (req req' : request) (l l' : list json) :
  callbacks_of f = Some l ->
  callbacks_of f' = Some l' ->
  firstn 50 l = firstn 50 l' ->
  (route_root AUTH_TOKEN f req = Throw TypeError /\
   route_root AUTH_TOKEN' f' req' = Throw TypeError) \/
  (exists r,
     route_root AUTH_TOKEN f req = Ret (quiet f r) /\
     route_root AUTH_TOKEN' f' req' = Ret (quiet f' r)).
Proof.
  intros Hdb Hdb' E. unfold route_root.
  rewrite (dashboard_cases f l Hdb), (dashboard_cases f' l' Hdb'), E.
  destruct (map_outcome render_row (firstn 50 l')) as [rows|e].
  - right. eexists. split; reflexivity.
  - left. split; reflexivity.
Qed.

Lemma dashboard_sees_first_50_witness :
  (route_root [] (store_of 51) plain_request = Throw TypeError /\
   route_root (lit "s3cret") (store_of 50) lookup_request = Throw TypeError) \/
  (exists r,
     route_root [] (store_of 51) plain_request = Ret (quiet (store_of 51) r) /\
     route_root (lit "s3cret") (store_of 50) lookup_request =
       Ret (quiet (store_of 50) r)).
Proof.
  apply (dashboard_sees_first_50 [] (lit "s3cret") (store_of 51) (store_of 50)
           plain_request lookup_request
           (map numbered_record (seq 0 51)) (map numbered_record (seq 0 50))).
  - apply store_of_callbacks.
  - apply store_of_callbacks.
  - reflexivity.
Defined.

Lemma featureless_probes (payload : jsval) :
  featureless payload ->
  probe_status payload = None /\
  probe_taskId payload = None /\
  probe_downloadUrl payload = None.
Proof.
  intros (Hd & Hm & Ht).
  unfold probe_status, probe_taskId, probe_downloadUrl.
  rewrite Hd, Hm, Ht. repeat split.
Qed.

(** X15.  A record whose payload has none of the probed fields (no
    [data], [msg] or [taskId]; so every payload that is not an object)
    is shown with status [unknown] and the placeholder in the task and
    video cells, beside its [id] and [receivedAt] as text ([undefined]
    for one that is missing). *)
Theorem row_of_featureless_payload (ps : props) (id receivedAt : jsstring) :
  featureless (lookup (lit "payload") ps) ->
  ToString (lookup (lit "id") ps) = Ret id ->
  ToString (lookup (lit "receivedAt") ps) = Ret receivedAt ->
  render_row (JObj ps) =
  Ret (row_cells id receivedAt (lit "unknown")
                 [8218; 196; 238] [8218; 196; 238]).
Proof.
  intros H Hid Hrec. destruct (featureless_probes _ H) as (Hs & Ht & Hu).
  unfold render_row. cbn [get bind]. rewrite Hs, Ht, Hu, Hid. cbn [bind].
  rewrite Hrec. reflexivity.
Qed.

Lemma row_of_featureless_payload_witness :
  render_row bare_record =
  Ret (row_cells (lit "r7") (lit "undefined") (lit "unknown")
                 [8218; 196; 238] [8218; 196; 238]).
Proof.
  apply (row_of_featureless_payload
           [ (lit "id", JStr (lit "r7")); (lit "payload", JArr []) ]).
  - repeat split.
  - reflexivity.
  - reflexivity.
Defined.

(** X16.  For such a payload the line logged at ingest reads status
    [unknown], task id [null] and url [-]. *)
Theorem log_of_featureless_payload (now : jsstring) (payload : jsval) :
  featureless payload ->
  log_line now payload =
  Ret (lit "[" ++ now ++
       lit "] Callback received: status=unknown taskId=null url=- ").
Proof.
  intros H. destruct (featureless_probes _ H) as (Hs & Ht & Hu).
  unfold log_line. rewrite Hs, Ht, Hu. reflexivity.
Qed.

Lemma log_of_featureless_payload_witness :
  log_line (lit "t") (Some (JObj [])) =
  Ret (lit "[" ++ lit "t" ++
       lit "] Callback received: status=unknown taskId=null url=- ").
Proof.
  apply (log_of_featureless_payload (lit "t") (Some (JObj []))).
  repeat split.
Defined.

(** ** The guard and white space *)

Lemma trimStart_spaces (a b : jsstring) :
  all_space a = true -> trimStart (a ++ b) = trimStart b.
Proof.
  induction a as [|c a IH]; [reflexivity|].
  unfold all_space. cbn [forallb app trimStart]. intros H.
  apply andb_true_iff in H as [Hc H]. rewrite Hc. exact (IH H).
Qed.

Lemma trimStart_head (s : jsstring) :
  match trimStart s with
  | [] => True
  | c :: _ => is_space c = false
  end.
Proof.
  induction s as [|c s IH]; [exact I|].
  cbn [trimStart]. destruct (is_space c) eqn:E; [exact IH | exact E].
Qed.

Lemma trimStart_fixed (s : jsstring) :
  match s with
  | [] => True
  | c :: _ => is_space c = false
  end -> trimStart s = s.
Proof. destruct s as [|c r]; [reflexivity|]. cbn [trimStart]. now intros ->. Qed.

Lemma trimStart_idem (s : jsstring) : trimStart (trimStart s) = trimStart s.
Proof. apply trimStart_fixed, trimStart_head. Qed.

Lemma trimStart_snoc (a : jsstring) (c : N) :
  is_space c = false -> trimStart (a ++ [c]) = trimStart a ++ [c].
Proof.
  intros Hc. induction a as [|x a IH].
  - cbn [app trimStart]. now rewrite Hc.
  - cbn [app trimStart]. destruct (is_space x); [exact IH | reflexivity].
Qed.

Lemma trimEnd_idem (s : jsstring) : trimEnd (trimEnd s) = trimEnd s.
Proof. unfold trimEnd. now rewrite rev_involutive, trimStart_idem. Qed.

Lemma trimEnd_cons (c : N) (t : jsstring) :
  is_space c = false -> trimEnd (c :: t) = c :: trimEnd t.
Proof.
  intros Hc. unfold trimEnd. cbn [rev].
  rewrite (trimStart_snoc _ _ Hc), rev_app_distr. reflexivity.
Qed.

Lemma trimEnd_spaces (a b : jsstring) :
  all_space b = true -> trimEnd (a ++ b) = trimEnd a.
Proof.
  intros H. unfold trimEnd. rewrite rev_app_distr, trimStart_spaces;
    [reflexivity|].
  unfold all_space in *. rewrite forallb_forall in *. intros x Hx.
  apply H. now apply in_rev.
Qed.

(** [trim] gives a string that [trim] leaves as it is. *)
Lemma trim_idem (s : jsstring) : trim (trim s) = trim s.
Proof.
  unfold trim. pose proof (trimStart_head s) as Hh.
  destruct (trimStart s) as [|c t] eqn:E; [reflexivity|].
  rewrite (trimEnd_cons _ _ Hh). cbn [trimStart]. rewrite Hh.
  rewrite <- (trimEnd_cons _ _ Hh). apply trimEnd_idem.
Qed.

Lemma trim_head (s : jsstring) :
  match trim s with
  | [] => True
  | c :: _ => is_space c = false
  end.
Proof.
  unfold trim. pose proof (trimStart_head s) as Hh.
  destruct (trimStart s) as [|c t]; [exact I|].
  now rewrite (trimEnd_cons _ _ Hh).
Qed.

Lemma trim_padded (a s b : jsstring) :
  all_space a = true -> all_space b = true -> trim s = s ->
  trim (a ++ s ++ b) = s.
Proof.
  intros Ha Hb Hs. pose proof (trim_head s) as Hh. rewrite Hs in Hh.
  pose proof (trimStart_fixed s Hh) as Hfix.
  unfold trim in *. rewrite (trimStart_spaces _ _ Ha).
  rewrite Hfix in Hs.
  assert (E : trimStart (s ++ b) = trimStart s ++ b \/ s = []).
  { destruct s as [|c t]; [now right|]. left.
    cbn [app trimStart]. now rewrite Hh. }
  destruct E as [E| ->].
  - now rewrite E, Hfix, (trimEnd_spaces _ _ Hb).
  - cbn [app]. rewrite <- (app_nil_r b), (trimStart_spaces b [] Hb).
    reflexivity.
Qed.

Lemma replace_bearer_head (w ws rest : jsstring) :
  is_bearer_word w = true -> ws <> [] -> all_space ws = true ->
  replace_bearer (w ++ ws ++ rest) = trimStart rest.
Proof.
  intros Hw Hne Hws.
  destruct w as [|b [|e [|a [|r [|e' [|r' [|x w]]]]]]]; try discriminate Hw.
  destruct ws as [|s ws]; [congruence|].
  unfold all_space in Hws. cbn [forallb] in Hws.
  apply andb_true_iff in Hws as [Hs Hws].
  cbn [app replace_bearer match_bearer]. cbn [is_bearer_word] in Hw.
  rewrite Hw, Hs. cbn [andb]. now apply trimStart_spaces.
Qed.

Lemma checkAuth_cases (AUTH_TOKEN : jsstring) (req : request) :
  AUTH_TOKEN <> [] ->
  checkAuth AUTH_TOKEN req =
  if query_is (query_token req) AUTH_TOKEN ||
     str_eqb (trim (replace_bearer (authorization req))) AUTH_TOKEN
  then Next else Rejected unauthorized.
Proof.
  intros Hne. unfold checkAuth.
  rewrite (proj2 (nonempty_true AUTH_TOKEN) Hne). cbn [negb].
  destruct (query_is (query_token req) AUTH_TOKEN) eqn:Hq.
  - now rewrite (query_is_truthy _ _ Hne Hq).
  - rewrite andb_false_r. cbn [orb].
    destruct (str_eqb (trim (replace_bearer (authorization req))) AUTH_TOKEN) eqn:Hh.
    + apply str_eqb_eq in Hh. rewrite Hh.
      now rewrite (proj2 (nonempty_true AUTH_TOKEN) Hne).
    + now rewrite andb_false_r.
Qed.

Lemma authorization_header (req : request) (s : jsstring) :
  assoc (lit "authorization") (headers req) = Some s -> authorization req = s.
Proof.
  intros H. unfold authorization, header. rewrite H.
  destruct s; reflexivity.
Qed.

(** X17.  A header [Bearer <token>] is accepted however [Bearer] is
    cased, however much white space separates it from the token or
    follows the token, for every configured token that has no white
    space at its ends, and whatever the query string carries. *)
Theorem bearer_header_accepted (AUTH_TOKEN : jsstring) (req : request)
  (w gap_ws tail_ws : jsstring) :
  AUTH_TOKEN <> [] ->
  trim AUTH_TOKEN = AUTH_TOKEN ->
  is_bearer_word w = true ->
  gap_ws <> [] -> all_space gap_ws = true -> all_space tail_ws = true ->
  assoc (lit "authorization") (headers req) =
    Some (w ++ gap_ws ++ AUTH_TOKEN ++ tail_ws) ->
  checkAuth AUTH_TOKEN req = Next.
Proof.
  intros Hne Htrim Hw Hgap Hgs Hts Hh.
  rewrite (checkAuth_cases _ _ Hne), (authorization_header _ _ Hh).
  rewrite (replace_bearer_head _ _ _ Hw Hgap Hgs).
  assert (E : trim (trimStart (AUTH_TOKEN ++ tail_ws)) = AUTH_TOKEN).
  { unfold trim. rewrite trimStart_idem.
    exact (trim_padded [] AUTH_TOKEN tail_ws eq_refl Hts Htrim). }
  rewrite E, str_eqb_refl. now rewrite orb_true_r.
Qed.

Lemma bearer_header_accepted_witness :
  checkAuth (lit "s3cret") padded_bearer_request = Next.
Proof.
  apply (bearer_header_accepted (lit "s3cret") padded_bearer_request
           (lit "BEARER") [9; 32] [32]).
  - discriminate.
  - reflexivity.
  - reflexivity.
  - discriminate.
  - reflexivity.
  - reflexivity.
  - reflexivity.
Defined.

(** X18.  A configured token with white space at either end can never
    be presented in the header, which is trimmed before it is compared:
    with such a token a request passes only through the query
    parameter. *)
Theorem padded_token_needs_query (AUTH_TOKEN : jsstring) (req : request) :
  trim AUTH_TOKEN <> AUTH_TOKEN ->
  (checkAuth AUTH_TOKEN req = Next <->
   query_token req = Some (QString AUTH_TOKEN)).
Proof.
  intros Hpad.
  assert (Hne : AUTH_TOKEN <> []) by (intros ->; now apply Hpad).
  rewrite (checkAuth_cases _ _ Hne).
  destruct (str_eqb (trim (replace_bearer (authorization req))) AUTH_TOKEN) eqn:Hh.
  - apply str_eqb_eq in Hh. elim Hpad. rewrite <- Hh. apply trim_idem.
  - rewrite orb_false_r.
    destruct (query_is (query_token req) AUTH_TOKEN) eqn:Hq.
    + apply query_is_eq in Hq. now split.
    + split; [discriminate|]. intros H. apply query_is_eq in H. congruence.
Qed.

Lemma padded_token_needs_query_witness :
  checkAuth (lit " s3cret") bearer_request = Next <->
  query_token bearer_request = Some (QString (lit " s3cret")).
Proof.
  apply (padded_token_needs_query (lit " s3cret") bearer_request).
  discriminate.
Defined.

(** ** The server over time *)

Lemma sound_store_inv (f : file) :
  sound_store f = true ->
  exists l, callbacks_of f = Some l /\ (length l <= 500)%nat /\
            forallb is_object l = true /\ forallb plain l = true.
Proof.
  unfold sound_store. destruct (callbacks_of f) as [l|]; [|discriminate].
  intros H. apply andb_true_iff in H as [H H3].
  apply andb_true_iff in H as [H1 H2]. apply Nat.leb_le in H1.
  now exists l.
Qed.

Lemma plain_written (v : json) : plain v = true -> plain (written v) = true.
Proof.
  induction v as [| b | x | s | l IH | l IH] using json_induction;
    cbn [plain written]; intros H; try reflexivity.
  - now destruct (finite x).
  - induction IH as [|e r He _ IHr]; [reflexivity|].
    cbn [forallb] in H. apply andb_true_iff in H as [H1 H2].
    cbn [map forallb]. now rewrite (He H1), (IHr H2).
  - apply andb_true_iff in H as [Hk H].
    unfold has_key in *. rewrite <- existsb_map_fst, written_keys,
      existsb_map_fst, Hk. cbn [andb].
    clear Hk. induction IH as [|[k e] r He _ IHr]; [reflexivity|].
    cbn [forallb snd] in H. apply andb_true_iff in H as [H1 H2].
    cbn [map forallb fst snd] in *. now rewrite (He H1), (IHr H2).
Qed.

Lemma is_object_written (v : json) : is_object (written v) = is_object v.
Proof. destruct v as [| | x | | |]; try reflexivity. cbn. now destruct (finite x). Qed.

Lemma forallb_map {A B : Type} (P : B -> bool) (g : A -> B) (l : list A) :
  forallb P (map g l) = forallb (fun a => P (g a)) l.
Proof. induction l as [|a l IH]; [reflexivity|]. cbn. now rewrite IH. Qed.

Lemma forallb_eq {A : Type} (P Q : A -> bool) (l : list A) :
  (forall a, P a = Q a) -> forallb P l = forallb Q l.
Proof.
  intros H. induction l as [|a l IH]; [reflexivity|].
  cbn [forallb]. now rewrite H, IH.
Qed.

Lemma build_record_plain (env : environment) (req : request) :
  plain_val (body req) = true -> plain (build_record env req) = true.
Proof.
  intros Hb. unfold build_record.
  rewrite record_ip, record_userAgent, record_payload.
  destruct (nonempty_string (assoc (lit "x-forwarded-for") (headers req)));
    destruct (nonempty_string (remoteAddress req));
    destruct (nonempty_string (assoc (lit "user-agent") (headers req)));
    cbn [plain forallb snd andb has_key existsb fst];
    (destruct (body req) as [b|]; [|reflexivity]);
    (destruct (truthy (Some b)); [|reflexivity]);
    cbn [plain_val] in Hb; rewrite Hb; reflexivity.
Qed.

Lemma showable_objects (l : list json) :
  forallb is_object l = true -> forallb plain l = true -> Forall showable l.
Proof.
  intros Ho Hp. apply Forall_forall. intros c Hc.
  rewrite forallb_forall in Ho, Hp. split; [|now apply Hp].
  specialize (Ho c Hc). intros ->. discriminate.
Qed.

Lemma objects_not_null (l : list json) :
  forallb is_object l = true -> Forall (fun c => c <> JNull) l.
Proof.
  intros H. apply Forall_forall. intros c Hc.
  rewrite forallb_forall in H. specialize (H c Hc). intros ->. discriminate.
Qed.

Lemma get_callback_returns (f : file) (req : request) (l : list json) :
  callbacks_of f = Some l ->
  Forall (fun c => c <> JNull) l ->
  exists r, get_callback f req = Ret (quiet f r).
Proof.
  intros Hdb Hl. apply callbacks_of_inv in Hdb as (ps & Hread & Hcb).
  unfold get_callback. rewrite Hread. cbn [bind get]. rewrite Hcb.
  cbn [bind as_array]. rewrite (find_id_find _ _ Hl). cbn [bind].
  destruct (negb (truthy (find (has_id (params_id req)) l)));
    eexists; reflexivity.
Qed.

Lemma guarded_quiet (AUTH_TOKEN : jsstring) (f : file) (req : request)
  (handler : outcome result) :
  (exists r, handler = Ret (quiet f r)) ->
  exists r, guarded AUTH_TOKEN f req handler = Ret (quiet f r).
Proof.
  intros [r ->]. unfold guarded.
  destruct (checkAuth AUTH_TOKEN req); eexists; reflexivity.
Qed.

(** One call on a store in order: it is answered, and the store is in
    order afterwards. *)
Lemma serve_sound (AUTH_TOKEN : jsstring) (f : file) (c : call) :
  sound_store f = true -> call_wf c = true ->
  exists res, serve AUTH_TOKEN f c = Ret res /\
              sound_store (file_after res) = true.
Proof.
  intros Hs Hc.
  destruct (sound_store_inv f Hs) as (l & Hdb & Hlen & Hobj & Hplain).
  pose proof (objects_not_null l Hobj) as Hnn.
  assert (Hq : forall handler,
             (exists r, handler = Ret (quiet f r)) ->
             exists res, handler = Ret res /\ sound_store (file_after res) = true).
  { intros handler [r ->]. now exists (quiet f r). }
  destruct c as [env req|req|req|req]; cbn [serve call_wf] in *.
  - unfold route_post, guarded.
    destruct (checkAuth_verdict AUTH_TOKEN req) as [E|E]; rewrite E.
    + apply andb_true_iff in Hc as [Hc Hpb].
      pose proof Hdb as Hdb'.
      apply callbacks_of_inv in Hdb' as (ps & Hread & Hcb).
      rewrite (post_callback_appends _ _ _ _ _ Hread Hcb).
      eexists. split; [reflexivity|]. cbn [file_after].
      unfold sound_store.
      rewrite (stored_after_post env f req ps l Hc Hread Hcb).
      rewrite length_map, !forallb_map.
      apply andb_true_iff. split; [apply andb_true_iff; split|].
      * apply Nat.leb_le, firstn_le_length.
      * apply forallb_firstn. cbn [forallb].
        rewrite (forallb_eq _ is_object _ is_object_written).
        now rewrite Hobj.
      * apply forallb_firstn. cbn [forallb].
        rewrite (plain_written _ (build_record_plain env req Hpb)).
        apply forallb_forall. intros x Hx. apply plain_written.
        rewrite forallb_forall in Hplain. now apply Hplain.
    + now exists (quiet f unauthorized).
  - apply Hq. unfold route_list. apply guarded_quiet.
    pose proof Hdb as Hdb'.
    apply callbacks_of_inv in Hdb' as (ps & Hread & Hcb).
    eexists. exact (list_callbacks_data f ps _ Hread Hcb).
  - apply Hq. unfold route_get. apply guarded_quiet.
    exact (get_callback_returns f req l Hdb Hnn).
  - apply Hq. unfold route_root.
    destruct (dashboard_shows f l Hdb) as (rows & Hpage & _).
    + apply showable_objects; now apply forallb_firstn.
    + eexists. exact Hpage.
Qed.

(** X19.  Run from a store in order (a list of at most 500 objects none
    of which holds a property named [toString], as [initDb] creates it),
    the server stays in order as long as no callback brings such a
    property: whatever calls arrive on the four routes, in whatever
    order and with whatever tokens, every one of them is answered (no
    handler throws) and the store is in order again. *)
Theorem server_stays_sound (AUTH_TOKEN : jsstring) (cs : list call) :
  forall f,
    sound_store f = true ->
    forallb call_wf cs = true ->
    sound_store (run AUTH_TOKEN f cs) = true /\
    (forall before c after,
       cs = before ++ c :: after ->
       exists res, serve AUTH_TOKEN (run AUTH_TOKEN f before) c = Ret res).
Proof.
  induction cs as [|c cs IH]; intros f Hs Hcs.
  - split; [exact Hs|]. intros [|? ?] ? ? E; discriminate E.
  - cbn [forallb] in Hcs. apply andb_true_iff in Hcs as [Hc Hcs].
    destruct (serve_sound AUTH_TOKEN f c Hs Hc) as (res & Hres & Hs').
    assert (Hnext : file_after_call AUTH_TOKEN f c = file_after res)
      by (unfold file_after_call; now rewrite Hres).
    cbn [run]. rewrite Hnext.
    destruct (IH (file_after res) Hs' Hcs) as [Hend Hall].
    split; [exact Hend|].
    intros [|c0 before] c' after E.
    + injection E as <- _. now exists res.
    + injection E as <- E. cbn [run]. rewrite Hnext.
      exact (Hall before c' after E).
Qed.

Lemma server_stays_sound_witness :
  sound_store (run (lit "s3cret") (initDb NoFile) sample_calls) = true /\
  (forall before c after,
     sample_calls = before ++ c :: after ->
     exists res,
       serve (lit "s3cret") (run (lit "s3cret") (initDb NoFile) before) c = Ret res).
Proof.
  apply (server_stays_sound (lit "s3cret") sample_calls (initDb NoFile)).
  - vm_compute. reflexivity.
  - vm_compute. reflexivity.
Defined.








(** ** The ids of records *)

Lemma hex_digit_injective (ds ds' : list N) :
  hex_digits ds -> hex_digits ds' ->
  map hex_digit ds = map hex_digit ds' -> ds = ds'.
Proof.
  intros H. revert ds'. induction H as [|d ds Hd _ IH]; intros ds' H' E.
  - destruct ds'; [reflexivity | discriminate].
  - destruct H' as [|d' ds' Hd' H']; [discriminate|].
    cbn [map] in E. injection E as E1 E2.
    f_equal; [|exact (IH ds' H' E2)].
    apply (f_equal hex_value) in E1.
    rewrite !hex_value_digit in E1 by assumption. congruence.
Qed.

Lemma record_id_parts (env : environment) :
  record_id env =
  Number_toString (number_of_Z (Date_now env)) ++
  95 :: map hex_digit (random_digits env).
Proof. unfold record_id. now rewrite slice_random. Qed.

(** A time value is below [2^53] in magnitude: a Number holds it
    exactly. *)
Lemma Date_now_exact (env : environment) : (Z.abs (Date_now env) < 2 ^ 53)%Z.
Proof.
  pose proof (Date_now_range env) as H. apply Z.leb_le in H.
  assert (8640000000000000 < 2 ^ 53)%Z by reflexivity. lia.
Qed.

(** X21.  Two records get the same [id] only if the clock showed the
    same millisecond and the random number had the same hexadecimal
    digits: the id tells both apart. *)
Theorem record_id_injective (env env' : environment) :
  hex_digits (random_digits env) ->
  hex_digits (random_digits env') ->
  record_id env = record_id env' ->
  Date_now env = Date_now env' /\ random_digits env = random_digits env'.
Proof.
  intros Hd Hd' E. rewrite !record_id_parts in E.
  apply (f_equal parse_number) in E.
  rewrite !parse_number_toString in E
    by (try apply number_of_Z_wf; try apply finite_number_of_Z;
        try apply Date_now_exact; reflexivity).
  injection E as Ex Eh. split.
  - exact (number_of_Z_injective _ _ (Date_now_exact env)
             (Date_now_exact env') Ex).
  - exact (hex_digit_injective _ _ Hd Hd' Eh).
Qed.

Lemma record_id_injective_witness :
  Date_now sample_env = Date_now same_tick_env /\
  random_digits sample_env = random_digits same_tick_env.
Proof.
  apply (record_id_injective sample_env same_tick_env).
  - repeat constructor.
  - repeat constructor.
  - reflexivity.
Defined.

(** ** What the routes answer *)

(** X22.  With a token configured, a request that carries neither a
    [token] query parameter nor an [Authorization] header is turned away
    with 401 on each guarded route, whatever the store holds. *)
Theorem no_credentials_rejected (AUTH_TOKEN : jsstring) (env : environment)
  (f : file) (req : request) :
  AUTH_TOKEN <> [] ->
  query_token req = None ->
  assoc (lit "authorization") (headers req) = None ->
  checkAuth AUTH_TOKEN req = Rejected unauthorized /\
  route_post AUTH_TOKEN env f req = Ret (quiet f unauthorized) /\
  route_list AUTH_TOKEN f req = Ret (quiet f unauthorized) /\
  route_get AUTH_TOKEN f req = Ret (quiet f unauthorized).
Proof.
  intros Hne Hq Hh.
  assert (E : checkAuth AUTH_TOKEN req = Rejected unauthorized).
  { rewrite (checkAuth_cases _ _ Hne), Hq.
    unfold authorization, header. rewrite Hh. cbn [option_map or_else truthy].
    cbn [replace_bearer match_bearer query_is orb].
    change (trim []) with (@nil N).
    destruct AUTH_TOKEN; [congruence | reflexivity]. }
  split; [exact E|].
  unfold route_post, route_list, route_get, guarded. rewrite E.
  repeat split.
Qed.

Lemma no_credentials_rejected_witness :
  checkAuth (lit "s3cret") plain_request = Rejected unauthorized /\
  route_post (lit "s3cret") sample_env markup_store plain_request =
    Ret (quiet markup_store unauthorized) /\
  route_list (lit "s3cret") markup_store plain_request =
    Ret (quiet markup_store unauthorized) /\
  route_get (lit "s3cret") markup_store plain_request =
    Ret (quiet markup_store unauthorized).
Proof.
  apply (no_credentials_rejected (lit "s3cret") sample_env markup_store
           plain_request).
  - discriminate.
  - reflexivity.
  - reflexivity.
Defined.

Lemma post_callback_status (env : environment) (f : file) (req : request)
  (res : result) :
  post_callback env f req = Ret res -> status (reply res) = 200.
Proof.
  intros H. destruct (post_callback_returns _ _ _ _ H) as (ps & l & Hread & Hcb).
  rewrite (post_callback_appends _ _ _ _ _ Hread Hcb) in H.
  now injection H as <-.
Qed.

Lemma list_callbacks_status (f : file) (res : result) :
  list_callbacks f = Ret res -> status (reply res) = 200.
Proof.
  unfold list_callbacks, answer.
  destruct (readDb f) as [db|]; [|discriminate]. cbn [bind].
  destruct (get (Some db) (lit "callbacks")); [|discriminate]. cbn [bind].
  intros H. now injection H as <-.
Qed.

Lemma get_callback_status (f : file) (req : request) (res : result) :
  get_callback f req = Ret res ->
  status (reply res) = 200 \/ status (reply res) = 404.
Proof.
  unfold get_callback, answer.
  destruct (readDb f) as [db|]; [|discriminate]. cbn [bind].
  destruct (get (Some db) (lit "callbacks")) as [cbs|]; [|discriminate].
  cbn [bind]. destruct (as_array cbs) as [l|]; [|discriminate]. cbn [bind].
  destruct (find_id (params_id req) l) as [found|]; [|discriminate].
  cbn [bind]. destruct (negb (truthy found));
    intros H; injection H as <-; [now right | now left].
Qed.

Lemma dashboard_status (f : file) (res : result) :
  dashboard f = Ret res -> status (reply res) = 200.
Proof.
  unfold dashboard, answer.
  destruct (readDb f) as [db|]; [|discriminate]. cbn [bind].
  destruct (get (Some db) (lit "callbacks")) as [cbs|]; [|discriminate].
  cbn [bind]. destruct (as_array cbs) as [l|]; [|discriminate]. cbn [bind].
  destruct (map_outcome render_row (firstn 50 l)); [|discriminate].
  cbn [bind]. intros H. now injection H as <-.
Qed.

(** X23.  Every answer of a handler is 200, 401 or 404.  404 comes from
    GET /callbacks/:id only.  401 comes only from a guarded route, and
    only when a token is configured: GET / never answers it, and with
    [AUTH_TOKEN] unset or empty no route does. *)
Theorem answers_by_status (AUTH_TOKEN : jsstring) (f : file) (c : call)
  (res : result) :
  serve AUTH_TOKEN f c = Ret res ->
  (status (reply res) = 200 \/ status (reply res) = 401 \/
   status (reply res) = 404) /\
  (status (reply res) = 404 -> is_get_one c = true) /\
  (status (reply res) = 401 -> AUTH_TOKEN <> [] /\ is_root c = false) /\
  (forall variable, variable = None \/ variable = Some [] ->
     AUTH_TOKEN = AUTH_TOKEN_of variable -> status (reply res) <> 401).
Proof.
  intros H.
  assert (Hcore : (status (reply res) = 200 \/
                   (status (reply res) = 404 /\ is_get_one c = true)) \/
                  (status (reply res) = 401 /\ AUTH_TOKEN <> [] /\
                   is_root c = false)).
  { destruct c as [env req|req|req|req]; cbn [serve] in H;
      unfold route_post, route_list, route_get, route_root, guarded in H.
    - destruct (checkAuth AUTH_TOKEN req) eqn:E.
      + left. left. exact (post_callback_status _ _ _ _ H).
      + destruct (checkAuth_verdict AUTH_TOKEN req) as [E'|E']; [congruence|].
        rewrite E in E'. injection E' as ->. injection H as <-.
        right. split; [reflexivity|]. split; [|reflexivity].
        intros ->. discriminate E.
    - destruct (checkAuth AUTH_TOKEN req) eqn:E.
      + left. left. exact (list_callbacks_status _ _ H).
      + destruct (checkAuth_verdict AUTH_TOKEN req) as [E'|E']; [congruence|].
        rewrite E in E'. injection E' as ->. injection H as <-.
        right. split; [reflexivity|]. split; [|reflexivity].
        intros ->. discriminate E.
    - destruct (checkAuth AUTH_TOKEN req) eqn:E.
      + left. destruct (get_callback_status _ _ _ H) as [H2|H4];
          [now left | right; now split].
      + destruct (checkAuth_verdict AUTH_TOKEN req) as [E'|E']; [congruence|].
        rewrite E in E'. injection E' as ->. injection H as <-.
        right. split; [reflexivity|]. split; [|reflexivity].
        intros ->. discriminate E.
    - left. left. exact (dashboard_status _ _ H). }
  split; [|split; [|split]].
  - destruct Hcore as [[H2|[H4 _]]|[H1 _]]; auto.
  - intros H4. destruct Hcore as [[H2|[_ Hc]]|[H1 _]];
      [rewrite H2 in H4; discriminate | exact Hc
      | rewrite H1 in H4; discriminate].
  - intros H1. destruct Hcore as [[H2|[H4 _]]|[_ Hc]];
      [rewrite H2 in H1; discriminate | rewrite H4 in H1; discriminate
      | exact Hc].
  - intros variable Hv -> H1.
    destruct Hcore as [[H2|[H4 _]]|[_ [Hne _]]];
      [rewrite H2 in H1; discriminate | rewrite H4 in H1; discriminate|].
    apply Hne. destruct Hv as [->| ->]; reflexivity.
Qed.

Lemma answers_by_status_witness :
  (status (reply (quiet markup_store (found_reply markup_record))) = 200 \/
   status (reply (quiet markup_store (found_reply markup_record))) = 401 \/
   status (reply (quiet markup_store (found_reply markup_record))) = 404).
Proof.
  apply (answers_by_status (lit "s3cret") markup_store (GetOne lookup_request)).
  vm_compute. reflexivity.
Defined.

(** ** A store that is not a list *)

Lemma no_list_throws (f : file) :
  callbacks_of f = None ->
  (db <- readDb f ;;
   callbacks <- get (Some db) (lit "callbacks") ;;
   as_array callbacks) = Throw TypeError.
Proof.
  unfold callbacks_of. destruct (readDb_returns f) as [db ->]. cbn [bind].
  destruct db as [| | | | |ps]; try reflexivity.
  cbn [get bind].
  destruct (lookup (lit "callbacks") ps) as [[| | | |l|]|];
    try reflexivity; discriminate.
Qed.

Lemma bind_assoc_throw {A B : Type} (m : outcome A) (e : js_error)
  (k : A -> outcome B) :
  m = Throw e -> bind m k = Throw e.
Proof. now intros ->. Qed.

Lemma handlers_throw_without_list (env : environment) (f : file)
  (req : request) :
  callbacks_of f = None ->
  post_callback env f req = Throw TypeError /\
  get_callback f req = Throw TypeError /\
  dashboard f = Throw TypeError.
Proof.
  intros H. pose proof (no_list_throws f H) as Ht.
  unfold post_callback, get_callback, dashboard.
  destruct (readDb f) as [db|e]; cbn [bind] in *; [|now injection Ht as ->].
  destruct (get (Some db) (lit "callbacks")) as [cbs|e]; cbn [bind] in *;
    [|now injection Ht as ->].
  rewrite Ht. repeat split.
Qed.

(** X24.  The handlers that use the stored list (POST /suno/callback,
    GET /callbacks/:id, GET /) throw a [TypeError] on every file that
    parses to something other than an object with an array under
    [callbacks]; POST is answered exactly when the store holds a list,
    whatever the body is. *)
Theorem handlers_need_a_list (AUTH_TOKEN : jsstring) (env : environment)
  (f : file) (req : request) :
  checkAuth AUTH_TOKEN req = Next ->
  (callbacks_of f = None ->
   route_post AUTH_TOKEN env f req = Throw TypeError /\
   route_get AUTH_TOKEN f req = Throw TypeError /\
   route_root AUTH_TOKEN f req = Throw TypeError) /\
  (callbacks_of f <> None ->
   exists res, route_post AUTH_TOKEN env f req = Ret res /\
               reply res = ok_reply).
Proof.
  intros Hauth. unfold route_post, route_get, route_root, guarded.
  rewrite Hauth. split.
  - intros H. exact (handlers_throw_without_list env f req H).
  - intros H. destruct (callbacks_of f) as [l|] eqn:Hdb; [|congruence].
    apply callbacks_of_inv in Hdb as (ps & Hread & Hcb).
    rewrite (post_callback_appends _ _ _ _ _ Hread Hcb).
    eexists. split; reflexivity.
Qed.

Lemma handlers_need_a_list_witness :
  route_post [] sample_env (Contents (lit "[1, 2]")) plain_request =
    Throw TypeError /\
  route_get [] (Contents (lit "[1, 2]")) plain_request = Throw TypeError /\
  route_root [] (Contents (lit "[1, 2]")) plain_request = Throw TypeError.
Proof.
  apply (proj1 (handlers_need_a_list [] sample_env (Contents (lit "[1, 2]"))
                  plain_request eq_refl)).
  reflexivity.
Defined.

Lemma guarded_keeps_file (AUTH_TOKEN : jsstring) (f : file) (req : request)
  (handler : outcome result) (res : result) :
  (handler = Ret res -> file_after res = f) ->
  guarded AUTH_TOKEN f req handler = Ret res -> file_after res = f.
Proof.
  intros H. unfold guarded. destruct (checkAuth AUTH_TOKEN req).
  - exact H.
  - intros E. now injection E as <-.
Qed.

Lemma serve_keeps_shapeless (AUTH_TOKEN : jsstring) (f : file) (c : call) :
  callbacks_of f = None -> file_after_call AUTH_TOKEN f c = f.
Proof.
  intros H. unfold file_after_call.
  destruct (serve AUTH_TOKEN f c) as [res|e] eqn:E; [|reflexivity].
  destruct c as [env req|req|req|req]; cbn [serve] in E.
  - apply (guarded_keeps_file _ _ _ _ _) in E; [exact E|].
    rewrite (proj1 (handlers_throw_without_list env f req H)). discriminate.
  - apply (guarded_keeps_file _ _ _ _ _) in E; [exact E|].
    intros E'. exact (proj1 (list_callbacks_quiet f res E')).
  - apply (guarded_keeps_file _ _ _ _ _) in E; [exact E|].
    intros E'. exact (proj1 (get_callback_quiet f req res E')).
  - unfold route_root in E. exact (proj1 (dashboard_quiet f res E)).
Qed.

(** X25.  The server never repairs a store that is not a list: when the
    file parses to something other than an object with an array under
    [callbacks], it is the same file after any sequence of calls. *)
Theorem shapeless_store_stays (AUTH_TOKEN : jsstring) (f : file)
  (cs : list call) :
  callbacks_of f = None -> run AUTH_TOKEN f cs = f.
Proof.
  intros H. induction cs as [|c cs IH]; cbn [run].
  - reflexivity.
  - rewrite (serve_keeps_shapeless AUTH_TOKEN f c H). exact IH.
Qed.

Lemma shapeless_store_stays_witness :
  run [] (Contents (lit "[1, 2]")) sample_calls = Contents (lit "[1, 2]").
Proof.
  apply (shapeless_store_stays [] (Contents (lit "[1, 2]")) sample_calls).
  reflexivity.
Defined.

